(** * Caneda / Qucs schematic scene: a shallow embedding of
    [qucs/schematicscene.cpp] and the properties of its grid snapping,
    undo macros, wiring state machine, label allocation, distribution,
    paste and mouse-action selection. *)

From Stdlib Require Import ZArith List Bool Lia String Ascii QArith Qround DecimalString.
From Stdlib Require Import Qabs Permutation Sorted.
Import ListNotations.

Local Open Scope Z_scope.

(** ** Machine integers

    [int] and [uint] are 32 bits wide.  A value of either type is kept as
    a [Z]; [to_uint] and [to_int] are the conversions, with the
    wrap-around written out. *)

Module CInt.

Definition two32 : Z := 2 ^ 32.
Definition two31 : Z := 2 ^ 31.

Definition to_uint (z : Z) : Z := z mod two32.
Definition to_int (z : Z) : Z := (z + two31) mod two32 - two31.

Definition in_int (z : Z) : Prop := - two31 <= z < two31.

Lemma to_int_small (z : Z) : in_int z -> to_int z = z.
Proof.
  unfold in_int, to_int, two31, two32. intros H.
  rewrite Z.mod_small; lia.
Qed.

Lemma to_int_to_uint (z : Z) : to_int (to_uint z) = to_int z.
Proof.
  unfold to_int, to_uint, two31, two32.
  rewrite Zplus_mod_idemp_l. reflexivity.
Qed.

Lemma to_int_uint_sub (a b : Z) : to_int (to_uint (to_uint a - b)) = to_int (a - b).
Proof.
  rewrite to_int_to_uint. unfold to_int, to_uint, two31, two32.
  replace (a mod 2 ^ 32 - b + 2 ^ 31) with (a mod 2 ^ 32 + (2 ^ 31 - b)) by lia.
  rewrite Zplus_mod_idemp_l. f_equal. f_equal. lia.
Qed.

End CInt.

(** ** Geometry: [QPointF], [QPoint] and [QPointF::toPoint]

    A [qreal] coordinate is idealised as a rational: the sums,
    differences and quotients of coordinates are exact here, where the
    code rounds each of them to a [double].  [qRound] is Qt's
    [d >= 0 ? int(d + 0.5) : int(d - int(d-1) + 0.5) + int(d-1)], which on
    exact numbers is the floor of [d + 1/2].  It departs from the code
    where [d + 0.5] is rounded up in [double] (the largest [double]
    below 0.5 goes to 1 in the code, to 0 here) and where the result
    leaves the range of [int], which the conversion does not define.
    So what is stated of snapping is stated of [toPoint pos], the
    integer point the code snaps, within the range of [int]; and what
    is stated of a computed coordinate keeps the operations the code
    performs, in their order, and uses no law of exact arithmetic to
    simplify them. *)

Record QPointF : Type := mkQPointF { xf : Q; yf : Q }.
Record QPoint : Type := mkQPoint { xi : Z; yi : Z }.

Definition qRound (d : Q) : Z := Qfloor (d + (1 # 2))%Q.

Definition toPoint (p : QPointF) : QPoint :=
  {| xi := qRound (xf p); yi := qRound (yf p) |}.

(** [QPointF(x, y)] from two [int]s. *)
Definition QPointF_of_ints (x y : Z) : QPointF :=
  {| xf := inject_Z x; yf := inject_Z y |}.


Lemma qRound_inject_Z (z : Z) : qRound (inject_Z z) = z.
Proof.
  unfold qRound, Qfloor, inject_Z, Qplus. simpl.
  replace (z * 2 + 1) with (1 + z * 2) by lia.
  rewrite Z.div_add by lia. reflexivity.
Qed.

Lemma toPoint_of_ints (x y : Z) : toPoint (QPointF_of_ints x y) = mkQPoint x y.
Proof.
  unfold toPoint, QPointF_of_ints. simpl. now rewrite !qRound_inject_Z.
Qed.



(** ** Grid snapping: [SchematicScene::nearingGridPoint] *)

Module Grid.

Import CInt.

(** The members [m_gridWidth] and [m_gridHeight] are declared in
    [schematicscene.h], which is not among the sources.  [setGridSize]
    takes them as [uint] and [DEFAULT_GRID_SPACE] is a [uint]; the
    declared type is kept as a parameter so that both readings are
    covered: with [GridUInt] every mixed expression is evaluated in
    unsigned arithmetic (the usual arithmetic conversions), with
    [GridInt] in signed arithmetic with truncating division. *)
Inductive GridType : Type := GridUInt | GridInt.

Record GridConf : Type := mkGrid {
  m_gridType : GridType;
  m_gridWidth : Z;
  m_gridHeight : Z
}.

(** [static const uint DEFAULT_GRID_SPACE = 10;] *)
Definition DEFAULT_GRID_SPACE : Z := 10.

(** One axis of [nearingGridPoint]:
<<
    if(x<0) { x -= (m_gridWidth / 2) - 1; }
    else    { x += m_gridWidth / 2; }
    x -= x % m_gridWidth;
>>
    [x] is an [int]; the remainder by zero has no defined result. *)
Definition snapAxis (ty : GridType) (w x : Z) : option Z :=
  if w =? 0 then None
  else
    match ty with
    | GridUInt =>
        let x1 :=
          if x <? 0
          then to_int (to_uint (to_uint x - to_uint (w / 2 - 1)))
          else to_int (to_uint (to_uint x + w / 2)) in
        Some (to_int (to_uint (to_uint x1 - to_uint x1 mod w)))
    | GridInt =>
        let x1 :=
          if x <? 0
          then to_int (x - (Z.quot w 2 - 1))
          else to_int (x + Z.quot w 2) in
        Some (to_int (x1 - Z.rem x1 w))
    end.

Definition nearingGridPoint (g : GridConf) (pos : QPointF) : option QPointF :=
  let point := toPoint pos in
  match snapAxis (m_gridType g) (m_gridWidth g) (xi point),
        snapAxis (m_gridType g) (m_gridHeight g) (yi point) with
  | Some x, Some y => Some (QPointF_of_ints x y)
  | _, _ => None
  end.

(** Snapping twice, as [nearingGridPoint(nearingGridPoint(p))]. *)
Definition snapTwice (g : GridConf) (pos : QPointF) : option QPointF :=
  match nearingGridPoint g pos with
  | Some q => nearingGridPoint g q
  | None => None
  end.

(** *** What the two branches compute, away from wrap-around *)

Lemma to_uint_small (z : Z) : 0 <= z < two32 -> to_uint z = z.
Proof. intros H. unfold to_uint. now apply Z.mod_small. Qed.

Definition two30 : Z := 2 ^ 30.

(** A non-negative coordinate: the same result under both readings. *)
Lemma snapAxis_nonneg (ty : GridType) (w x : Z) :
  0 < w < two30 -> 0 <= x < two30 ->
  snapAxis ty w x = Some (w * ((x + w / 2) / w)).
Proof.
  intros Hw Hx. unfold two30 in *.
  assert (Hh : 0 <= w / 2 < 2 ^ 30).
  { split; [apply Z.div_pos; lia | apply Z.div_lt_upper_bound; lia]. }
  assert (Hm : 0 <= (x + w / 2) mod w < w) by (apply Z.mod_pos_bound; lia).
  assert (Hd : w * ((x + w / 2) / w) = (x + w / 2) - (x + w / 2) mod w).
  { pose proof (Z.div_mod (x + w / 2) w). lia. }
  unfold snapAxis.
  destruct (Z.eqb_spec w 0) as [?|_]; [lia|].
  destruct (Z.ltb_spec x 0) as [?|_]; [lia|].
  rewrite Hd. clear Hd.
  assert (Hle : (x + w / 2) mod w <= x + w / 2) by (apply Z.mod_le; lia).
  set (h := w / 2) in *. set (r := (x + h) mod w) in *.
  destruct ty.
  - rewrite (to_uint_small x) by (unfold two32; lia).
    rewrite (to_uint_small (x + h)) by (unfold two32; lia).
    rewrite (to_int_small (x + h)) by (unfold in_int, two31; lia).
    rewrite (to_uint_small (x + h)) by (unfold two32; lia).
    fold r.
    rewrite to_uint_small by (unfold two32; lia).
    rewrite to_int_small by (unfold in_int, two31; lia).
    reflexivity.
  - rewrite Z.quot_div_nonneg by lia. fold h.
    rewrite (to_int_small (x + h)) by (unfold in_int, two31; lia).
    rewrite Z.rem_mod_nonneg by lia. fold r.
    rewrite to_int_small by (unfold in_int, two31; lia).
    reflexivity.
Qed.

Lemma rem_nonpos (a w : Z) : a <= 0 -> 0 < w -> Z.rem a w = - ((- a) mod w).
Proof.
  intros Ha Hw. replace a with (- - a) at 1 by lia.
  rewrite Z.rem_opp_l by lia. now rewrite Z.rem_mod_nonneg by lia.
Qed.

(** A negative coordinate under the signed reading: [(w/2) - 1] is
    subtracted and the remainder, which has the sign of the dividend, is
    removed, so the value moves toward zero. *)
Lemma snapAxis_neg_int (w x : Z) :
  0 < w < two30 -> - two30 < x < 0 ->
  snapAxis GridInt w x = Some (w * Z.quot (x - (w / 2 - 1)) w).
Proof.
  intros Hw Hx. unfold two30 in *.
  assert (Hh : 0 <= w / 2 < 2 ^ 30).
  { split; [apply Z.div_pos; lia | apply Z.div_lt_upper_bound; lia]. }
  unfold snapAxis.
  destruct (Z.eqb_spec w 0) as [?|_]; [lia|].
  destruct (Z.ltb_spec x 0) as [_|?]; [|lia].
  rewrite Z.quot_div_nonneg by lia.
  rewrite (to_int_small (x - (w / 2 - 1))) by (unfold in_int, two31; lia).
  assert (Hx1 : x - (w / 2 - 1) <= 0).
  { assert (w = 1 \/ 2 <= w) as [->|H2] by lia; [simpl; lia|].
    assert (1 <= w / 2) by (apply Z.div_le_lower_bound; lia). lia. }
  set (a := x - (w / 2 - 1)) in *.
  pose proof (Z.quot_rem a w ltac:(lia)) as Hq.
  rewrite (rem_nonpos a w) in * by lia.
  pose proof (Z.mod_pos_bound (- a) w ltac:(lia)) as Hb.
  pose proof (Z.mod_le (- a) w ltac:(lia) ltac:(lia)) as Hle.
  set (r := (- a) mod w) in *. set (q := Z.quot a w) in *.
  assert (Ha : - 2 ^ 31 < a) by (unfold a; lia).
  rewrite to_int_small by (unfold in_int, two31; lia).
  f_equal. lia.
Qed.

(** In terms of the mirrored coordinate. *)
Lemma snapAxis_neg_int_abs (w x : Z) :
  0 < w < two30 -> - two30 < x < 0 ->
  snapAxis GridInt w x = Some (- (w * ((- x + w / 2 - 1) / w))).
Proof.
  intros Hw Hx. rewrite snapAxis_neg_int by assumption. f_equal.
  assert (Hh : 0 <= w / 2) by (apply Z.div_pos; lia).
  assert (Hx1 : x - (w / 2 - 1) <= 0).
  { assert (w = 1 \/ 2 <= w) as [->|H2] by lia; [simpl; lia|].
    assert (1 <= w / 2) by (apply Z.div_le_lower_bound; lia). lia. }
  replace (x - (w / 2 - 1)) with (- (- x + w / 2 - 1)) by lia.
  rewrite Z.quot_opp_l by lia.
  rewrite Z.quot_div_nonneg by lia. lia.
Qed.




(** A non-negative coordinate goes to a nearest grid line. *)
Lemma snapAxis_nonneg_nearest (ty : GridType) (w x sx : Z) :
  0 < w < two30 -> 0 <= x < two30 ->
  snapAxis ty w x = Some sx ->
  (w | sx) /\ 2 * Z.abs (sx - x) <= w.
Proof.
  intros Hw Hx Hs. rewrite snapAxis_nonneg in Hs by assumption.
  injection Hs as <-. split.
  - exists ((x + w / 2) / w). lia.
  - pose proof (Z.div_mod (x + w / 2) w ltac:(lia)) as Hd.
    pose proof (Z.mod_pos_bound (x + w / 2) w ltac:(lia)) as Hm.
    pose proof (Z.div_mod w 2 ltac:(lia)) as Hd2.
    pose proof (Z.mod_pos_bound w 2 ltac:(lia)) as Hm2.
    lia.
Qed.

(** A point already on the grid, with non-negative coordinates, stays. *)
Lemma snapAxis_nonneg_fixed (ty : GridType) (w k : Z) :
  0 < w < two30 -> 0 <= w * k < two30 ->
  snapAxis ty w (w * k) = Some (w * k).
Proof.
  intros Hw Hk. rewrite snapAxis_nonneg by assumption. f_equal. f_equal.
  assert (Hh : 0 <= w / 2 < w).
  { split; [apply Z.div_pos; lia | apply Z.div_lt_upper_bound; lia]. }
  symmetry. apply (Z.div_unique (w * k + w / 2) w k (w / 2)); lia.
Qed.








End Grid.

(** ** Points, rectangles and items *)

Definition addF (a b : QPointF) : QPointF :=
  {| xf := (xf a + xf b)%Q; yf := (yf a + yf b)%Q |}.
Definition subF (a b : QPointF) : QPointF :=
  {| xf := (xf a - xf b)%Q; yf := (yf a - yf b)%Q |}.


(** [QRectF]: left and top edge, width and height. *)
Record QRectF : Type := mkQRectF { rx : Q; ry : Q; rw : Q; rh : Q }.

Definition rleft (r : QRectF) : Q := rx r.
Definition rright (r : QRectF) : Q := (rx r + rw r)%Q.
Definition rtop (r : QRectF) : Q := ry r.
Definition rbottom (r : QRectF) : Q := (ry r + rh r)%Q.
Definition rcenter (r : QRectF) : QPointF :=
  {| xf := (rx r + rw r / 2)%Q; yf := (ry r + rh r / 2)%Q |}.

(** A [WireLine] is a start and an end point; [WireLines] is their list. *)
Record WireLine : Type := mkWireLine { p1 : QPointF; p2 : QPointF }.
Definition WireLines : Type := list WireLine.

(** What [Wire::currentState] and [Wire::storedState] hand out and
    [Wire::setState] takes back.

    Modelled from the spec: the wire class is not among the sources; its
    state is the "snapshot of segment sequence" of the data model,
    together with the positions of the two ports. *)
Record WireData : Type := mkWireData {
  wLines : WireLines;
  port1Pos : QPointF;
  port2Pos : QPointF
}.

(** Items live on a heap; an [ItemPtr] is the address of one.  A port is
    named by its owner and its index in the owner's [ports()] (a wire has
    port 0 = [port1()] and port 1 = [port2()]). *)
Definition ItemPtr : Type := nat.
Definition PortRef : Type := (ItemPtr * nat)%type.

Inductive ItemBody : Type :=
| Component (labelPrefix label : string) (nports : nat)
| Wire (state store : WireData)
| Painting (name : string)
| Graphics.  (* a QGraphicsItem that is no QucsItem, e.g. the zoom band *)

Record QucsItem : Type := mkItem {
  body : ItemBody;
  pos : QPointF;
  selected : bool;
  visible : bool;
  onScene : bool   (* item->scene() == this *)
}.

Definition isComponent (it : QucsItem) : bool :=
  match body it with Component _ _ _ => true | _ => false end.
Definition isWire (it : QucsItem) : bool :=
  match body it with Wire _ _ => true | _ => false end.
Definition isPainting (it : QucsItem) : bool :=
  match body it with Painting _ => true | _ => false end.
(** [qucsitem_cast<QucsItem*>] succeeds on components, wires and paintings. *)
Definition isQucsItem (it : QucsItem) : bool :=
  match body it with Graphics => false | _ => true end.

Definition set_body (b : ItemBody) (it : QucsItem) : QucsItem :=
  {| body := b; pos := pos it; selected := selected it;
     visible := visible it; onScene := onScene it |}.
Definition setPos (p : QPointF) (it : QucsItem) : QucsItem :=
  {| body := body it; pos := p; selected := selected it;
     visible := visible it; onScene := onScene it |}.
Definition setSelected (b : bool) (it : QucsItem) : QucsItem :=
  {| body := body it; pos := pos it; selected := b;
     visible := visible it; onScene := onScene it |}.
Definition setVisible (b : bool) (it : QucsItem) : QucsItem :=
  {| body := body it; pos := pos it; selected := selected it;
     visible := b; onScene := onScene it |}.
Definition set_onScene (b : bool) (it : QucsItem) : QucsItem :=
  {| body := body it; pos := pos it; selected := selected it;
     visible := visible it; onScene := b |}.

(** [QGraphicsItem::mapFromScene] of an item that is neither rotated nor
    scaled: the offset from its position. *)
Definition mapFromScene (it : QucsItem) (p : QPointF) : QPointF :=
  subF p (pos it).

(** *** The heap of items *)

Module Heap.

Definition t : Type := list (ItemPtr * QucsItem).

Fixpoint lookup (p : ItemPtr) (h : t) : option QucsItem :=
  match h with
  | [] => None
  | (q, it) :: h' => if Nat.eqb p q then Some it else lookup p h'
  end.

Fixpoint update (p : ItemPtr) (f : QucsItem -> QucsItem) (h : t) : t :=
  match h with
  | [] => []
  | (q, it) :: h' =>
      if Nat.eqb p q then (q, f it) :: h' else (q, it) :: update p f h'
  end.

(** [delete item;] *)
Definition remove (p : ItemPtr) (h : t) : t :=
  filter (fun e => negb (Nat.eqb p (fst e))) h.

(** The address handed out by the next [new]. *)
Definition fresh (h : t) : ItemPtr :=
  S (fold_right (fun e m => Nat.max (fst e) m) O h).

Definition alloc (it : QucsItem) (h : t) : ItemPtr * t :=
  (fresh h, h ++ [(fresh h, it)]).

Definition mapAll (f : QucsItem -> QucsItem) (h : t) : t :=
  map (fun e => (fst e, f (snd e))) h.

Lemma lookup_update_same (p : ItemPtr) (f : QucsItem -> QucsItem) (h : t) (it : QucsItem) :
  lookup p h = Some it -> lookup p (update p f h) = Some (f it).
Proof.
  induction h as [|[q i] h IH]; simpl; [discriminate|].
  destruct (Nat.eqb p q) eqn:E; simpl; rewrite E.
  - now intros [= ->].
  - exact IH.
Qed.

Lemma lookup_update_other (p q : ItemPtr) (f : QucsItem -> QucsItem) (h : t) :
  p <> q -> lookup q (update p f h) = lookup q h.
Proof.
  intros Hne. induction h as [|[r i] h IH]; simpl; [reflexivity|].
  destruct (Nat.eqb p r) eqn:E; simpl.
  - apply Nat.eqb_eq in E. subst r.
    destruct (Nat.eqb q p) eqn:E'; [apply Nat.eqb_eq in E'; congruence | reflexivity].
  - destruct (Nat.eqb q r); [reflexivity | exact IH].
Qed.

Lemma lookup_update_none (p q : ItemPtr) (f : QucsItem -> QucsItem) (h : t) :
  lookup q h = None -> lookup q (update p f h) = None.
Proof.
  induction h as [|[r i] h IH]; simpl; [reflexivity|].
  destruct (Nat.eqb q r) eqn:E; [discriminate|].
  intros H. destruct (Nat.eqb p r); simpl; rewrite E; auto.
Qed.

Lemma lookup_remove_same (p : ItemPtr) (h : t) : lookup p (remove p h) = None.
Proof.
  unfold remove. induction h as [|[q i] h IH]; simpl; [reflexivity|].
  destruct (Nat.eqb p q) eqn:E; simpl; [exact IH|].
  rewrite E. exact IH.
Qed.

Lemma lookup_remove_other (p q : ItemPtr) (h : t) :
  p <> q -> lookup q (remove p h) = lookup q h.
Proof.
  intros Hne. unfold remove. induction h as [|[r i] h IH]; simpl; [reflexivity|].
  destruct (Nat.eqb p r) eqn:E; simpl.
  - apply Nat.eqb_eq in E. subst r.
    destruct (Nat.eqb q p) eqn:E'; [apply Nat.eqb_eq in E'; congruence | exact IH].
  - destruct (Nat.eqb q r); [reflexivity | exact IH].
Qed.

Lemma fresh_bound (h : t) (p : ItemPtr) (it : QucsItem) :
  lookup p h = Some it -> (p < fresh h)%nat.
Proof.
  unfold fresh. induction h as [|[q i] h IH]; simpl; [discriminate|].
  destruct (Nat.eqb p q) eqn:E.
  - apply Nat.eqb_eq in E. subst q. intros _. lia.
  - intros H. specialize (IH H). lia.
Qed.

Lemma lookup_fresh (h : t) : lookup (fresh h) h = None.
Proof.
  destruct (lookup (fresh h) h) eqn:E; [|reflexivity].
  apply fresh_bound in E. lia.
Qed.

Lemma lookup_alloc_new (it : QucsItem) (h : t) :
  lookup (fst (alloc it h)) (snd (alloc it h)) = Some it.
Proof.
  unfold alloc. simpl. pose proof (lookup_fresh h) as Hf.
  generalize dependent (fresh h). intros p Hp.
  induction h as [|[q i] h IH]; simpl in *.
  - now rewrite Nat.eqb_refl.
  - destruct (Nat.eqb p q); [discriminate | auto].
Qed.


Lemma lookup_alloc_other (it : QucsItem) (h : t) (q : ItemPtr) :
  q <> fresh h -> lookup q (snd (alloc it h)) = lookup q h.
Proof.
  unfold alloc. simpl. generalize (fresh h). intros p Hne.
  induction h as [|[r j] h IH]; simpl.
  - destruct (Nat.eqb q p) eqn:E; [apply Nat.eqb_eq in E; congruence | reflexivity].
  - destruct (Nat.eqb q r); auto.
Qed.

End Heap.

(** ** The undo stack: [QUndoStack] and the commands of [undocommands.h] *)

Inductive Axis : Type := XAxis | YAxis.
Inductive UndoOption : Type := PushUndoCmd | DontPushUndoCmd.

Inductive QUndoCommand : Type :=
| ConnectCmd (p q : PortRef)
| DisconnectCmd (p q : PortRef)
| MoveCmd (item : ItemPtr) (init final : QPointF)
| AddWireCmd (wire : ItemPtr)
| WireStateChangeCmd (wire : ItemPtr) (init final : WireData)
| MirrorItemsCmd (its : list ItemPtr) (axis : Axis)
| InsertItemCmd (item : ItemPtr) (at_pos : QPointF)
| RemoveItemsCmd (its : list ItemPtr).

(** The stack is kept as the sequence of calls made on it, oldest first;
    what is open and what is recorded are functions of that sequence. *)
Inductive StackCall : Type :=
| BeginMacro (text : string)
| EndMacro
| Push (cmd : QUndoCommand).

Definition QUndoStack : Type := list StackCall.

Module Undo.

(** Number of macros open after one more call.  [endMacro] without a
    matching [beginMacro] is ignored by Qt. *)
Definition depthStep (d : nat) (c : StackCall) : nat :=
  match c with
  | BeginMacro _ => S d
  | EndMacro => Nat.pred d
  | Push _ => d
  end.

Definition depthFrom (d : nat) (calls : QUndoStack) : nat :=
  fold_left depthStep calls d.

Definition macroDepth (st : QUndoStack) : nat := depthFrom O st.

(** [beginMacro] is called while a macro is already open, somewhere in
    [calls], when [d] macros are open at their start. *)
Fixpoint nestedBeginFrom (d : nat) (calls : QUndoStack) : bool :=
  match calls with
  | [] => false
  | c :: rest =>
      match c, d with
      | BeginMacro _, S _ => true
      | _, _ => nestedBeginFrom (depthStep d c) rest
      end
  end.

Definition nestedBegin (st : QUndoStack) : bool := nestedBeginFrom O st.

(** The largest number of macros open at any point of [calls]. *)
Fixpoint maxDepthFrom (d : nat) (calls : QUndoStack) : nat :=
  match calls with
  | [] => d
  | c :: rest => Nat.max d (maxDepthFrom (depthStep d c) rest)
  end.

(** Every [endMacro] of [calls] closes a macro opened in [calls], and
    all of them are closed at the end. *)
Fixpoint balancedFrom (open : nat) (calls : QUndoStack) : bool :=
  match calls with
  | [] => Nat.eqb open O
  | BeginMacro _ :: rest => balancedFrom (S open) rest
  | EndMacro :: rest =>
      match open with O => false | S o => balancedFrom o rest end
  | Push _ :: rest => balancedFrom open rest
  end.

Definition balanced (calls : QUndoStack) : bool := balancedFrom O calls.

Definition isPush (c : StackCall) : bool :=
  match c with Push _ => true | _ => false end.

End Undo.

(** ** The scene *)

Inductive MouseAction : Type :=
| Wiring | Deleting | Marking | Rotating | MirroringX | MirroringY
| ChangingActiveStatus | SettingOnGrid | ZoomingAtPoint | ZoomingOutAtPoint
| PaintingDrawEvent | InsertingItems | InsertingWireLabel | Normal.

Definition MouseAction_eqb (a b : MouseAction) : bool :=
  match a, b with
  | Wiring, Wiring | Deleting, Deleting | Marking, Marking
  | Rotating, Rotating | MirroringX, MirroringX | MirroringY, MirroringY
  | ChangingActiveStatus, ChangingActiveStatus
  | SettingOnGrid, SettingOnGrid | ZoomingAtPoint, ZoomingAtPoint
  | ZoomingOutAtPoint, ZoomingOutAtPoint
  | PaintingDrawEvent, PaintingDrawEvent | InsertingItems, InsertingItems
  | InsertingWireLabel, InsertingWireLabel | Normal, Normal => true
  | _, _ => false
  end.

Lemma MouseAction_eqb_spec (a b : MouseAction) :
  reflect (a = b) (MouseAction_eqb a b).
Proof. destruct a, b; simpl; constructor; congruence. Qed.

Inductive WiringState : Type := NO_WIRE | SINGLETON_WIRE | COMPLEX_WIRE.

Inductive DragMode : Type := NoDrag | ScrollHandDrag | RubberBandDrag.

(** A view of the scene: its drag mode, and where the cursor is for it
    ([viewport()->rect().contains(mapFromGlobal(QCursor::pos()))] and
    [mapToScene] of that point). *)
Record SchematicView : Type := mkView {
  isSchematicView : bool;   (* qobject_cast<SchematicView*> succeeds *)
  dragMode : DragMode;
  cursorOnViewport : bool;
  cursorScenePos : QPointF
}.

Definition setDragMode (m : DragMode) (v : SchematicView) : SchematicView :=
  {| isSchematicView := isSchematicView v; dragMode := m;
     cursorOnViewport := cursorOnViewport v;
     cursorScenePos := cursorScenePos v |}.
Record SchematicScene : Type := mkScene {
  items : Heap.t;   (* every item that is allocated; [onScene] tells which are on the scene *)
  connections : list (PortRef * PortRef);   (* the port connection relation, one entry per connected pair *)
  m_undoStack : QUndoStack;
  m_grid : Grid.GridConf;
  m_snapToGrid : bool;
  m_currentMouseAction : MouseAction;
  m_areItemsMoving : bool;
  m_shortcutsBlocked : bool;
  appEventFilter : bool;   (* qApp has this scene installed as event filter *)
  views : list SchematicView;   (* views(); the first is the active one *)
  focusItem : option ItemPtr;   (* QGraphicsScene::focusItem() *)
  m_insertibles : list ItemPtr;
  m_insertActionMousePos : QPointF;
  m_wiringState : WiringState;
  m_currentWiringWire : option ItemPtr;
  m_paintingDrawItem : option ItemPtr;
  m_paintingDrawClicks : Z;
  m_zoomBand : option ItemPtr
}.

Definition set_items (v : Heap.t) (s : SchematicScene) : SchematicScene :=
  {| items := v; connections := connections s; m_undoStack := m_undoStack s;
     m_grid := m_grid s; m_snapToGrid := m_snapToGrid s;
     m_currentMouseAction := m_currentMouseAction s;
     m_areItemsMoving := m_areItemsMoving s;
     m_shortcutsBlocked := m_shortcutsBlocked s;
     appEventFilter := appEventFilter s; views := views s;
     focusItem := focusItem s; m_insertibles := m_insertibles s;
     m_insertActionMousePos := m_insertActionMousePos s;
     m_wiringState := m_wiringState s;
     m_currentWiringWire := m_currentWiringWire s;
     m_paintingDrawItem := m_paintingDrawItem s;
     m_paintingDrawClicks := m_paintingDrawClicks s;
     m_zoomBand := m_zoomBand s |}.
Definition set_connections (v : list (PortRef * PortRef)) (s : SchematicScene) : SchematicScene :=
  {| items := items s; connections := v; m_undoStack := m_undoStack s;
     m_grid := m_grid s; m_snapToGrid := m_snapToGrid s;
     m_currentMouseAction := m_currentMouseAction s;
     m_areItemsMoving := m_areItemsMoving s;
     m_shortcutsBlocked := m_shortcutsBlocked s;
     appEventFilter := appEventFilter s; views := views s;
     focusItem := focusItem s; m_insertibles := m_insertibles s;
     m_insertActionMousePos := m_insertActionMousePos s;
     m_wiringState := m_wiringState s;
     m_currentWiringWire := m_currentWiringWire s;
     m_paintingDrawItem := m_paintingDrawItem s;
     m_paintingDrawClicks := m_paintingDrawClicks s;
     m_zoomBand := m_zoomBand s |}.
Definition set_m_undoStack (v : QUndoStack) (s : SchematicScene) : SchematicScene :=
  {| items := items s; connections := connections s; m_undoStack := v;
     m_grid := m_grid s; m_snapToGrid := m_snapToGrid s;
     m_currentMouseAction := m_currentMouseAction s;
     m_areItemsMoving := m_areItemsMoving s;
     m_shortcutsBlocked := m_shortcutsBlocked s;
     appEventFilter := appEventFilter s; views := views s;
     focusItem := focusItem s; m_insertibles := m_insertibles s;
     m_insertActionMousePos := m_insertActionMousePos s;
     m_wiringState := m_wiringState s;
     m_currentWiringWire := m_currentWiringWire s;
     m_paintingDrawItem := m_paintingDrawItem s;
     m_paintingDrawClicks := m_paintingDrawClicks s;
     m_zoomBand := m_zoomBand s |}.
Definition set_m_grid (v : Grid.GridConf) (s : SchematicScene) : SchematicScene :=
  {| items := items s; connections := connections s;
     m_undoStack := m_undoStack s; m_grid := v;
     m_snapToGrid := m_snapToGrid s;
     m_currentMouseAction := m_currentMouseAction s;
     m_areItemsMoving := m_areItemsMoving s;
     m_shortcutsBlocked := m_shortcutsBlocked s;
     appEventFilter := appEventFilter s; views := views s;
     focusItem := focusItem s; m_insertibles := m_insertibles s;
     m_insertActionMousePos := m_insertActionMousePos s;
     m_wiringState := m_wiringState s;
     m_currentWiringWire := m_currentWiringWire s;
     m_paintingDrawItem := m_paintingDrawItem s;
     m_paintingDrawClicks := m_paintingDrawClicks s;
     m_zoomBand := m_zoomBand s |}.
Definition set_m_snapToGrid (v : bool) (s : SchematicScene) : SchematicScene :=
  {| items := items s; connections := connections s;
     m_undoStack := m_undoStack s; m_grid := m_grid s; m_snapToGrid := v;
     m_currentMouseAction := m_currentMouseAction s;
     m_areItemsMoving := m_areItemsMoving s;
     m_shortcutsBlocked := m_shortcutsBlocked s;
     appEventFilter := appEventFilter s; views := views s;
     focusItem := focusItem s; m_insertibles := m_insertibles s;
     m_insertActionMousePos := m_insertActionMousePos s;
     m_wiringState := m_wiringState s;
     m_currentWiringWire := m_currentWiringWire s;
     m_paintingDrawItem := m_paintingDrawItem s;
     m_paintingDrawClicks := m_paintingDrawClicks s;
     m_zoomBand := m_zoomBand s |}.
Definition set_m_currentMouseAction (v : MouseAction) (s : SchematicScene) : SchematicScene :=
  {| items := items s; connections := connections s;
     m_undoStack := m_undoStack s; m_grid := m_grid s;
     m_snapToGrid := m_snapToGrid s; m_currentMouseAction := v;
     m_areItemsMoving := m_areItemsMoving s;
     m_shortcutsBlocked := m_shortcutsBlocked s;
     appEventFilter := appEventFilter s; views := views s;
     focusItem := focusItem s; m_insertibles := m_insertibles s;
     m_insertActionMousePos := m_insertActionMousePos s;
     m_wiringState := m_wiringState s;
     m_currentWiringWire := m_currentWiringWire s;
     m_paintingDrawItem := m_paintingDrawItem s;
     m_paintingDrawClicks := m_paintingDrawClicks s;
     m_zoomBand := m_zoomBand s |}.
Definition set_m_areItemsMoving (v : bool) (s : SchematicScene) : SchematicScene :=
  {| items := items s; connections := connections s;
     m_undoStack := m_undoStack s; m_grid := m_grid s;
     m_snapToGrid := m_snapToGrid s;
     m_currentMouseAction := m_currentMouseAction s; m_areItemsMoving := v;
     m_shortcutsBlocked := m_shortcutsBlocked s;
     appEventFilter := appEventFilter s; views := views s;
     focusItem := focusItem s; m_insertibles := m_insertibles s;
     m_insertActionMousePos := m_insertActionMousePos s;
     m_wiringState := m_wiringState s;
     m_currentWiringWire := m_currentWiringWire s;
     m_paintingDrawItem := m_paintingDrawItem s;
     m_paintingDrawClicks := m_paintingDrawClicks s;
     m_zoomBand := m_zoomBand s |}.
Definition set_m_shortcutsBlocked (v : bool) (s : SchematicScene) : SchematicScene :=
  {| items := items s; connections := connections s;
     m_undoStack := m_undoStack s; m_grid := m_grid s;
     m_snapToGrid := m_snapToGrid s;
     m_currentMouseAction := m_currentMouseAction s;
     m_areItemsMoving := m_areItemsMoving s; m_shortcutsBlocked := v;
     appEventFilter := appEventFilter s; views := views s;
     focusItem := focusItem s; m_insertibles := m_insertibles s;
     m_insertActionMousePos := m_insertActionMousePos s;
     m_wiringState := m_wiringState s;
     m_currentWiringWire := m_currentWiringWire s;
     m_paintingDrawItem := m_paintingDrawItem s;
     m_paintingDrawClicks := m_paintingDrawClicks s;
     m_zoomBand := m_zoomBand s |}.
Definition set_appEventFilter (v : bool) (s : SchematicScene) : SchematicScene :=
  {| items := items s; connections := connections s;
     m_undoStack := m_undoStack s; m_grid := m_grid s;
     m_snapToGrid := m_snapToGrid s;
     m_currentMouseAction := m_currentMouseAction s;
     m_areItemsMoving := m_areItemsMoving s;
     m_shortcutsBlocked := m_shortcutsBlocked s; appEventFilter := v;
     views := views s; focusItem := focusItem s;
     m_insertibles := m_insertibles s;
     m_insertActionMousePos := m_insertActionMousePos s;
     m_wiringState := m_wiringState s;
     m_currentWiringWire := m_currentWiringWire s;
     m_paintingDrawItem := m_paintingDrawItem s;
     m_paintingDrawClicks := m_paintingDrawClicks s;
     m_zoomBand := m_zoomBand s |}.
Definition set_views (v : list SchematicView) (s : SchematicScene) : SchematicScene :=
  {| items := items s; connections := connections s;
     m_undoStack := m_undoStack s; m_grid := m_grid s;
     m_snapToGrid := m_snapToGrid s;
     m_currentMouseAction := m_currentMouseAction s;
     m_areItemsMoving := m_areItemsMoving s;
     m_shortcutsBlocked := m_shortcutsBlocked s;
     appEventFilter := appEventFilter s; views := v;
     focusItem := focusItem s; m_insertibles := m_insertibles s;
     m_insertActionMousePos := m_insertActionMousePos s;
     m_wiringState := m_wiringState s;
     m_currentWiringWire := m_currentWiringWire s;
     m_paintingDrawItem := m_paintingDrawItem s;
     m_paintingDrawClicks := m_paintingDrawClicks s;
     m_zoomBand := m_zoomBand s |}.
Definition set_focusItem (v : option ItemPtr) (s : SchematicScene) : SchematicScene :=
  {| items := items s; connections := connections s;
     m_undoStack := m_undoStack s; m_grid := m_grid s;
     m_snapToGrid := m_snapToGrid s;
     m_currentMouseAction := m_currentMouseAction s;
     m_areItemsMoving := m_areItemsMoving s;
     m_shortcutsBlocked := m_shortcutsBlocked s;
     appEventFilter := appEventFilter s; views := views s; focusItem := v;
     m_insertibles := m_insertibles s;
     m_insertActionMousePos := m_insertActionMousePos s;
     m_wiringState := m_wiringState s;
     m_currentWiringWire := m_currentWiringWire s;
     m_paintingDrawItem := m_paintingDrawItem s;
     m_paintingDrawClicks := m_paintingDrawClicks s;
     m_zoomBand := m_zoomBand s |}.
Definition set_m_insertibles (v : list ItemPtr) (s : SchematicScene) : SchematicScene :=
  {| items := items s; connections := connections s;
     m_undoStack := m_undoStack s; m_grid := m_grid s;
     m_snapToGrid := m_snapToGrid s;
     m_currentMouseAction := m_currentMouseAction s;
     m_areItemsMoving := m_areItemsMoving s;
     m_shortcutsBlocked := m_shortcutsBlocked s;
     appEventFilter := appEventFilter s; views := views s;
     focusItem := focusItem s; m_insertibles := v;
     m_insertActionMousePos := m_insertActionMousePos s;
     m_wiringState := m_wiringState s;
     m_currentWiringWire := m_currentWiringWire s;
     m_paintingDrawItem := m_paintingDrawItem s;
     m_paintingDrawClicks := m_paintingDrawClicks s;
     m_zoomBand := m_zoomBand s |}.
Definition set_m_insertActionMousePos (v : QPointF) (s : SchematicScene) : SchematicScene :=
  {| items := items s; connections := connections s;
     m_undoStack := m_undoStack s; m_grid := m_grid s;
     m_snapToGrid := m_snapToGrid s;
     m_currentMouseAction := m_currentMouseAction s;
     m_areItemsMoving := m_areItemsMoving s;
     m_shortcutsBlocked := m_shortcutsBlocked s;
     appEventFilter := appEventFilter s; views := views s;
     focusItem := focusItem s; m_insertibles := m_insertibles s;
     m_insertActionMousePos := v; m_wiringState := m_wiringState s;
     m_currentWiringWire := m_currentWiringWire s;
     m_paintingDrawItem := m_paintingDrawItem s;
     m_paintingDrawClicks := m_paintingDrawClicks s;
     m_zoomBand := m_zoomBand s |}.
Definition set_m_wiringState (v : WiringState) (s : SchematicScene) : SchematicScene :=
  {| items := items s; connections := connections s;
     m_undoStack := m_undoStack s; m_grid := m_grid s;
     m_snapToGrid := m_snapToGrid s;
     m_currentMouseAction := m_currentMouseAction s;
     m_areItemsMoving := m_areItemsMoving s;
     m_shortcutsBlocked := m_shortcutsBlocked s;
     appEventFilter := appEventFilter s; views := views s;
     focusItem := focusItem s; m_insertibles := m_insertibles s;
     m_insertActionMousePos := m_insertActionMousePos s; m_wiringState := v;
     m_currentWiringWire := m_currentWiringWire s;
     m_paintingDrawItem := m_paintingDrawItem s;
     m_paintingDrawClicks := m_paintingDrawClicks s;
     m_zoomBand := m_zoomBand s |}.
Definition set_m_currentWiringWire (v : option ItemPtr) (s : SchematicScene) : SchematicScene :=
  {| items := items s; connections := connections s;
     m_undoStack := m_undoStack s; m_grid := m_grid s;
     m_snapToGrid := m_snapToGrid s;
     m_currentMouseAction := m_currentMouseAction s;
     m_areItemsMoving := m_areItemsMoving s;
     m_shortcutsBlocked := m_shortcutsBlocked s;
     appEventFilter := appEventFilter s; views := views s;
     focusItem := focusItem s; m_insertibles := m_insertibles s;
     m_insertActionMousePos := m_insertActionMousePos s;
     m_wiringState := m_wiringState s; m_currentWiringWire := v;
     m_paintingDrawItem := m_paintingDrawItem s;
     m_paintingDrawClicks := m_paintingDrawClicks s;
     m_zoomBand := m_zoomBand s |}.
Definition set_m_paintingDrawItem (v : option ItemPtr) (s : SchematicScene) : SchematicScene :=
  {| items := items s; connections := connections s;
     m_undoStack := m_undoStack s; m_grid := m_grid s;
     m_snapToGrid := m_snapToGrid s;
     m_currentMouseAction := m_currentMouseAction s;
     m_areItemsMoving := m_areItemsMoving s;
     m_shortcutsBlocked := m_shortcutsBlocked s;
     appEventFilter := appEventFilter s; views := views s;
     focusItem := focusItem s; m_insertibles := m_insertibles s;
     m_insertActionMousePos := m_insertActionMousePos s;
     m_wiringState := m_wiringState s;
     m_currentWiringWire := m_currentWiringWire s; m_paintingDrawItem := v;
     m_paintingDrawClicks := m_paintingDrawClicks s;
     m_zoomBand := m_zoomBand s |}.
Definition set_m_paintingDrawClicks (v : Z) (s : SchematicScene) : SchematicScene :=
  {| items := items s; connections := connections s;
     m_undoStack := m_undoStack s; m_grid := m_grid s;
     m_snapToGrid := m_snapToGrid s;
     m_currentMouseAction := m_currentMouseAction s;
     m_areItemsMoving := m_areItemsMoving s;
     m_shortcutsBlocked := m_shortcutsBlocked s;
     appEventFilter := appEventFilter s; views := views s;
     focusItem := focusItem s; m_insertibles := m_insertibles s;
     m_insertActionMousePos := m_insertActionMousePos s;
     m_wiringState := m_wiringState s;
     m_currentWiringWire := m_currentWiringWire s;
     m_paintingDrawItem := m_paintingDrawItem s; m_paintingDrawClicks := v;
     m_zoomBand := m_zoomBand s |}.
Definition set_m_zoomBand (v : option ItemPtr) (s : SchematicScene) : SchematicScene :=
  {| items := items s; connections := connections s;
     m_undoStack := m_undoStack s; m_grid := m_grid s;
     m_snapToGrid := m_snapToGrid s;
     m_currentMouseAction := m_currentMouseAction s;
     m_areItemsMoving := m_areItemsMoving s;
     m_shortcutsBlocked := m_shortcutsBlocked s;
     appEventFilter := appEventFilter s; views := views s;
     focusItem := focusItem s; m_insertibles := m_insertibles s;
     m_insertActionMousePos := m_insertActionMousePos s;
     m_wiringState := m_wiringState s;
     m_currentWiringWire := m_currentWiringWire s;
     m_paintingDrawItem := m_paintingDrawItem s;
     m_paintingDrawClicks := m_paintingDrawClicks s; m_zoomBand := v |}.

(** ** The clipboard text as [QXmlStreamReader] hands it out

    The reader is a current token and the tokens still to come.  Reading
    past the last token is a premature end of the document: the reader
    turns [Invalid], which is what [hasError] reports. *)

Inductive XmlToken : Type :=
| NoToken | Invalid | StartDocument | EndDocument
| StartElement (name : string) (attributes : list (string * string))
| EndElement (name : string)
| Characters (text : string)
| Comment | DTD.

Record XmlReader : Type := mkReader {
  token : XmlToken;
  pending : list XmlToken
}.

Definition atEnd (tok : XmlToken) : bool :=
  match tok with EndDocument | Invalid => true | _ => false end.
Definition hasError (tok : XmlToken) : bool :=
  match tok with Invalid => true | _ => false end.
Definition isStartElement (tok : XmlToken) : bool :=
  match tok with StartElement _ _ => true | _ => false end.
Definition isEndElement (tok : XmlToken) : bool :=
  match tok with EndElement _ => true | _ => false end.
Definition tokenName (tok : XmlToken) : string :=
  match tok with
  | StartElement n _ | EndElement n => n
  | _ => EmptyString
  end.
Definition tokenAttributes (tok : XmlToken) : list (string * string) :=
  match tok with StartElement _ a => a | _ => [] end.

(** [attributes().value(key).toString()]: empty when there is none. *)
Fixpoint attributeValue (key : string) (attrs : list (string * string)) : string :=
  match attrs with
  | [] => EmptyString
  | (k, v) :: rest => if String.eqb k key then v else attributeValue key rest
  end.

(** ** Collaborators

    What the scene calls but the sources do not contain: the wire's
    geometry ([wire.cpp]), the search for coinciding ports behind
    [checkAndConnect] ([port.cpp], [component.cpp]), item geometry, and
    [QString]'s number conversions.  They are taken as parameters. *)

Class Collaborators : Type := {
  (** [Wire(start, end, false, scene)]: the state and the position of a
      new wire. *)
  Wire_init : QPointF -> QPointF -> WireData;
  Wire_initPos : QPointF -> QPointF -> QPointF;
  Wire_overlap : WireData -> bool;
  Wire_movePort1 : QPointF -> WireData -> WireData;
  Wire_movePort2 : QPointF -> WireData -> WireData;
  Wire_removeNullLines : WireData -> WireData;
  (** The pairs of ports [checkAndConnect] joins for an item, found from
      the items and the connections there are. *)
  coincidingPorts :
    Heap.t -> list (PortRef * PortRef) -> ItemPtr -> list (PortRef * PortRef);
  (** Whether [checkAndConnect] brackets its pushes in a macro of its own. *)
  checkAndConnect_macro : bool;
  sceneBoundingRect : QucsItem -> QRectF;
  QRectF_united : QRectF -> QRectF -> QRectF;
  (** What [MirrorItemsCmd::redo] does to one of its items, given all of
      them. *)
  mirrorAbout : Axis -> list QucsItem -> QucsItem -> QucsItem;
  (** [QString::toInt(&ok)]: [None] when [ok] is false. *)
  QString_toInt : string -> option Z;
  (** [QString::arg(int)]: the decimal notation of a number. *)
  QString_number : Z -> string;
  (** [Qucs::checkVersion] of the root element's version attribute. *)
  checkVersion : string -> bool;
  (** [Component::loadComponentData], [Wire::loadWireData] and
      [Painting::loadPainting], called on a start element: from its
      attributes and the tokens after it, the item read (or null) and
      how many of those tokens the call has read. *)
  loadComponentData :
    list (string * string) -> list XmlToken -> option QucsItem * nat;
  loadWireData :
    list (string * string) -> list XmlToken -> option QucsItem * nat;
  loadPainting :
    list (string * string) -> list XmlToken -> option QucsItem * nat
}.

Notation "'let*' x ':=' e 'in' k" :=
  (match e with Some x => k | None => None end)
  (at level 10, x pattern, e at level 100, k at level 200).

(** [foreach(x, l) { ... }] over a state that may be lost. *)
Fixpoint foreach {A S : Type} (l : list A) (f : A -> S -> option S) (s : S)
  : option S :=
  match l with
  | [] => Some s
  | a :: l' => let* s' := f a s in foreach l' f s'
  end.

Definition PortRef_eqb (a b : PortRef) : bool :=
  Nat.eqb (fst a) (fst b) && Nat.eqb (snd a) (snd b).

Lemma PortRef_eqb_refl (a : PortRef) : PortRef_eqb a a = true.
Proof. unfold PortRef_eqb. now rewrite !Nat.eqb_refl. Qed.

(** *** Ports

    Modelled from the spec: the port class is not among the sources.  The
    connection relation is symmetric ("if A connects to B, B connects to
    A"); it is kept as a list of pairs read in both directions. *)

Definition portsOf (p : ItemPtr) (it : QucsItem) : list PortRef :=
  match body it with
  | Component _ _ n => map (fun k => (p, k)) (seq 0 n)
  | Wire _ _ => [(p, 0%nat); (p, 1%nat)]
  | _ => []
  end.

Fixpoint getAnyConnectedPort (p : PortRef) (cs : list (PortRef * PortRef))
  : option PortRef :=
  match cs with
  | [] => None
  | (a, b) :: cs' =>
      if PortRef_eqb p a then Some b
      else if PortRef_eqb p b then Some a
      else getAnyConnectedPort p cs'
  end.

Definition hasConnection (p : PortRef) (cs : list (PortRef * PortRef)) : bool :=
  match getAnyConnectedPort p cs with Some _ => true | None => false end.

Definition connectTo (p q : PortRef) (cs : list (PortRef * PortRef))
  : list (PortRef * PortRef) := cs ++ [(p, q)].

Definition disconnectFrom (p q : PortRef) (cs : list (PortRef * PortRef))
  : list (PortRef * PortRef) :=
  filter (fun e =>
            negb ((PortRef_eqb p (fst e) && PortRef_eqb q (snd e))
                  || (PortRef_eqb q (fst e) && PortRef_eqb p (snd e)))) cs.

(** Deleting an item takes its ports, and so their connections, with it. *)
Definition dropConnectionsOf (p : ItemPtr) (cs : list (PortRef * PortRef))
  : list (PortRef * PortRef) :=
  filter (fun e => negb (Nat.eqb p (fst (fst e)) || Nat.eqb p (fst (snd e)))) cs.

Section SceneOperations.

Context {C : Collaborators}.

(** *** Items of the scene *)

(** [delete item;] *)
Definition deleteItem (p : ItemPtr) (s : SchematicScene) : SchematicScene :=
  set_connections (dropConnectionsOf p (connections s))
    (set_items (Heap.remove p (items s)) s).

(** [delete p;] of a pointer that may be null. *)
Definition deleteOpt (p : option ItemPtr) (s : SchematicScene) : SchematicScene :=
  match p with Some q => deleteItem q s | None => s end.

(** A method of one item, called through a pointer. *)
Definition onItem (p : ItemPtr) (f : QucsItem -> QucsItem) (s : SchematicScene)
  : option SchematicScene :=
  let* _ := Heap.lookup p (items s) in
  Some (set_items (Heap.update p f (items s)) s).

(** [QGraphicsScene::items()] and [selectedItems()]. *)
Definition sceneItems (s : SchematicScene) : list (ItemPtr * QucsItem) :=
  filter (fun e => onScene (snd e)) (items s).

Definition selectedItems (s : SchematicScene) : list (ItemPtr * QucsItem) :=
  filter (fun e => selected (snd e)) (sceneItems s).

(** [filterItems<QucsItem>]: the items the cast succeeds on. *)
Definition filterQucsItems (l : list (ItemPtr * QucsItem)) : list ItemPtr :=
  map fst (filter (fun e => isQucsItem (snd e)) l).

Definition clearSelection (s : SchematicScene) : SchematicScene :=
  set_items (Heap.mapAll (fun it => if onScene it then setSelected false it else it)
                         (items s)) s.

(** *** The undo stack of the scene *)

Definition beginMacro (text : string) (s : SchematicScene) : SchematicScene :=
  set_m_undoStack (m_undoStack s ++ [BeginMacro text]) s.

Definition endMacro (s : SchematicScene) : SchematicScene :=
  set_m_undoStack (m_undoStack s ++ [EndMacro]) s.

(** The wire behind a pointer: its item, current and stored state. *)
Definition derefWire (p : ItemPtr) (s : SchematicScene)
  : option (QucsItem * WireData * WireData) :=
  let* it := Heap.lookup p (items s) in
  match body it with
  | Wire st store => Some (it, st, store)
  | _ => None
  end.

(** A method of a wire that rewrites its current and stored state. *)
Definition onWire (p : ItemPtr) (f : WireData -> WireData -> WireData * WireData)
    (s : SchematicScene) : option SchematicScene :=
  let* (_, st, store) := derefWire p s in
  let '(st', store') := f st store in
  onItem p (set_body (Wire st' store')) s.

Definition Wire_setState (d : WireData) (p : ItemPtr) :=
  onWire p (fun _ store => (d, store)).
Definition Wire_storeState (p : ItemPtr) :=
  onWire p (fun st _ => (st, st)).
Definition Wire_show (p : ItemPtr) := onItem p (setVisible true).

(** [QUndoCommand::redo] of each command.

    Modelled from the spec: [undocommands.cpp] is not among the sources.
    A move stores "absolute before/after points", the wire commands are
    "add wire" and "wire state changed (before/after segment-sequence
    snapshot)", connect and disconnect update "both sides" of the
    relation; insertion and removal put an item on the scene and take it
    off. *)
Definition redo (cmd : QUndoCommand) (s : SchematicScene) : option SchematicScene :=
  match cmd with
  | ConnectCmd p q => Some (set_connections (connectTo p q (connections s)) s)
  | DisconnectCmd p q => Some (set_connections (disconnectFrom p q (connections s)) s)
  | MoveCmd item _ final => onItem item (setPos final) s
  | AddWireCmd wire => onItem wire (set_onScene true) s
  | WireStateChangeCmd wire _ final => Wire_setState final wire s
  | MirrorItemsCmd its axis =>
      let* targets :=
        foreach its (fun p acc => let* it := Heap.lookup p (items s) in
                                  Some (acc ++ [it])) [] in
      foreach its (fun p s' => onItem p (mirrorAbout axis targets) s') s
  | InsertItemCmd item at_pos =>
      onItem item (fun it => setPos at_pos (set_onScene true it)) s
  | RemoveItemsCmd its =>
      foreach its (fun p s' => onItem p (set_onScene false) s') s
  end.

(** [QUndoStack::push]: the command is recorded and done at once. *)
Definition push (cmd : QUndoCommand) (s : SchematicScene) : option SchematicScene :=
  redo cmd (set_m_undoStack (m_undoStack s ++ [Push cmd]) s).

(** *** [connectItems], [disconnectItems], [mirrorItems] *)

(** [Component::checkAndConnect] and [Wire::checkAndConnect].

    Modelled from the spec: "attempt to auto-connect overlapping
    ports/wire endpoints.  Each successful connection is one undoable
    step"; without the undo option the connection is made directly.
    Which ports overlap is [coincidingPorts]; whether the pushes are
    bracketed in a macro of their own is [checkAndConnect_macro]. *)
Definition checkAndConnect (opt : UndoOption) (item : ItemPtr)
    (s : SchematicScene) : option SchematicScene :=
  let pairs := coincidingPorts (items s) (connections s) item in
  match opt with
  | PushUndoCmd =>
      let s0 := if checkAndConnect_macro then beginMacro "" s else s in
      let* s1 := foreach pairs (fun pq => push (ConnectCmd (fst pq) (snd pq))) s0 in
      Some (if checkAndConnect_macro then endMacro s1 else s1)
  | DontPushUndoCmd =>
      foreach pairs
        (fun pq s' =>
           Some (set_connections (connectTo (fst pq) (snd pq) (connections s')) s'))
        s
  end.

Definition connectItems (qItems : list ItemPtr) (opt : UndoOption)
    (s : SchematicScene) : option SchematicScene :=
  let s0 := match opt with
            | PushUndoCmd => beginMacro "Connect items" s
            | DontPushUndoCmd => s
            end in
  let* s1 :=
    foreach qItems
      (fun qItem s' =>
         let* it := Heap.lookup qItem (items s') in
         if isComponent it then checkAndConnect opt qItem s'
         else if isWire it then checkAndConnect opt qItem s'
         else Some s')
      s0 in
  Some (match opt with
        | PushUndoCmd => endMacro s1
        | DontPushUndoCmd => s1
        end).

Definition disconnectItems (qItems : list ItemPtr) (opt : UndoOption)
    (s : SchematicScene) : option SchematicScene :=
  let s0 := match opt with
            | PushUndoCmd => beginMacro "Disconnect items" s
            | DontPushUndoCmd => s
            end in
  let* s1 :=
    foreach qItems
      (fun item s' =>
         let* it := Heap.lookup item (items s') in
         let ports := if isComponent it then portsOf item it
                      else if isWire it then portsOf item it
                      else [] in
         foreach ports
           (fun p s'' =>
              match getAnyConnectedPort p (connections s'') with
              | None => Some s''
              | Some other =>
                  match opt with
                  | PushUndoCmd => push (DisconnectCmd p other) s''
                  | DontPushUndoCmd =>
                      Some (set_connections
                              (disconnectFrom p other (connections s'')) s'')
                  end
              end)
           s')
      s0 in
  Some (match opt with
        | PushUndoCmd => endMacro s1
        | DontPushUndoCmd => s1
        end).

Definition mirrorItems (its : list ItemPtr) (opt : UndoOption) (axis : Axis)
    (s : SchematicScene) : option SchematicScene :=
  let s0 := match opt with
            | PushUndoCmd =>
                match axis with
                | XAxis => beginMacro "Mirror X" s
                | YAxis => beginMacro "Mirror Y" s
                end
            | DontPushUndoCmd => s
            end in
  let* s1 := disconnectItems its opt s0 in
  let cmd := MirrorItemsCmd its axis in
  let* s2 := match opt with
             | PushUndoCmd => push cmd s1
             | DontPushUndoCmd => redo cmd s1
             end in
  let* s3 := connectItems its opt s2 in
  Some (match opt with
        | PushUndoCmd => endMacro s3
        | DontPushUndoCmd => s3
        end).

(** *** Mouse events *)

Inductive EventType : Type :=
| GraphicsSceneMousePress | GraphicsSceneMouseMove
| GraphicsSceneMouseRelease | GraphicsSceneMouseDoubleClick.

(** [Qt::MouseButtons] is a set of flags. *)
Definition LeftButton : Z := 1.
Definition RightButton : Z := 2.
Definition MidButton : Z := 4.

Record MouseActionEvent : Type := mkEvent {
  ev_type : EventType;
  buttons : Z;
  scenePos : QPointF
}.

(** [smartNearingGridPoint].

    Modelled from the spec: its definition is not among the sources; it
    is "the same as [nearingGridPoint] but bypassed when snap-to-grid is
    disabled: returns the input unchanged". *)
Definition smartNearingGridPoint (pos : QPointF) (s : SchematicScene)
  : option QPointF :=
  if m_snapToGrid s then Grid.nearingGridPoint (m_grid s) pos else Some pos.

(** *** The wiring state machine *)

Definition Wire_movePort1_at (p : ItemPtr) (to : QPointF) :=
  onWire p (fun st store => (Wire_movePort1 to st, store)).
Definition Wire_movePort2_at (p : ItemPtr) (to : QPointF) :=
  onWire p (fun st store => (Wire_movePort2 to st, store)).
Definition Wire_removeNullLines_at (p : ItemPtr) :=
  onWire p (fun st store => (Wire_removeNullLines st, store)).

(** [new Wire(pos, pos, false, this)]: the wire is on the scene from its
    construction on. *)
Definition newWire (a b : QPointF) : QucsItem :=
  {| body := Wire (Wire_init a b) (Wire_init a b);
     pos := Wire_initPos a b; selected := false; visible := true;
     onScene := true |}.

Definition wiringEventMouseClickFinalize (s : SchematicScene)
  : option SchematicScene :=
  let* w := m_currentWiringWire s in
  let* s1 := Wire_show w s in
  let* (_, st, _) := derefWire w s1 in
  let* s2 := Wire_movePort1_at w (port1Pos st) s1 in
  let* s3 := Wire_removeNullLines_at w s2 in
  (* updateGeometry() recomputes the bounding rectangle only *)
  Some (set_m_currentWiringWire None s3).

Definition wiringEventLeftMouseClickAddSegment (s : SchematicScene)
  : option SchematicScene :=
  let* w := m_currentWiringWire s in
  let* s1 := Wire_storeState w s in
  let* (_, st, _) := derefWire w s1 in
  match rev (wLines st) with
  | [] => None   (* last() of an empty list *)
  | lastLine :: _ =>
      let toAppend := mkWireLine (p2 lastLine) (p2 lastLine) in
      onWire w
        (fun st' store =>
           ({| wLines := wLines st' ++ [toAppend; toAppend];
               port1Pos := port1Pos st'; port2Pos := port2Pos st' |}, store))
        s1
  end.

Definition wiringEventLeftMouseClickCommonComplexSingletonWire
    (cmd : QUndoCommand) (s : SchematicScene) : option SchematicScene :=
  let s0 := beginMacro "Add wiring control point" s in
  let* w := m_currentWiringWire s0 in
  let* s1 := Wire_removeNullLines_at w s0 in
  let* s2 := push cmd s1 in
  let* s3 := checkAndConnect PushUndoCmd w s2 in
  Some (endMacro s3).

(** [m_currentWiringWire->port2()->hasConnection()] *)
Definition currentPort2HasConnection (s : SchematicScene) : option bool :=
  let* w := m_currentWiringWire s in
  let* _ := derefWire w s in
  Some (hasConnection (w, 1%nat) (connections s)).

Definition wiringEventLeftMouseClick (pos : QPointF) (s : SchematicScene)
  : option SchematicScene :=
  match m_wiringState s with
  | NO_WIRE =>
      let (w, h) := Heap.alloc (newWire pos pos) (items s) in
      Some (set_m_wiringState SINGLETON_WIRE
              (set_m_currentWiringWire (Some w) (set_items h s)))
  | SINGLETON_WIRE =>
      let* w := m_currentWiringWire s in
      let* (_, st, _) := derefWire w s in
      if Wire_overlap st then Some s
      else
        let singleton_wire := AddWireCmd w in
        let* s1 := wiringEventLeftMouseClickCommonComplexSingletonWire singleton_wire s in
        let* conn := currentPort2HasConnection s1 in
        if conn then
          let* s2 := wiringEventMouseClickFinalize s1 in
          Some (set_m_wiringState NO_WIRE s2)
        else
          let* s2 := wiringEventLeftMouseClickAddSegment s1 in
          Some (set_m_wiringState COMPLEX_WIRE s2)
  | COMPLEX_WIRE =>
      let* w := m_currentWiringWire s in
      let* (_, st, store) := derefWire w s in
      if Wire_overlap st then Some s
      else
        let complex_wire := WireStateChangeCmd w store st in
        let* s1 := wiringEventLeftMouseClickCommonComplexSingletonWire complex_wire s in
        let* conn := currentPort2HasConnection s1 in
        if conn then
          let* s2 := wiringEventMouseClickFinalize s1 in
          Some (set_m_wiringState NO_WIRE s2)
        else
          let* s2 := wiringEventLeftMouseClickAddSegment s1 in
          Some (set_m_wiringState COMPLEX_WIRE s2)
  end.

Definition wiringEventRightMouseClick (s : SchematicScene)
  : option SchematicScene :=
  match m_wiringState s with
  | NO_WIRE => Some (set_m_wiringState NO_WIRE s)
  | SINGLETON_WIRE =>
      let* w := m_currentWiringWire s in
      let* (_, st, _) := derefWire w s in
      if Wire_overlap st then Some s
      else
        let singleton_wire := AddWireCmd w in
        let* s1 := wiringEventLeftMouseClickCommonComplexSingletonWire singleton_wire s in
        let* s2 := wiringEventMouseClickFinalize s1 in
        Some (set_m_wiringState NO_WIRE s2)
  | COMPLEX_WIRE =>
      let* w := m_currentWiringWire s in
      let* (_, st, store) := derefWire w s in
      if Wire_overlap st then Some s
      else
        let complex_wire := WireStateChangeCmd w store st in
        let* s1 := wiringEventLeftMouseClickCommonComplexSingletonWire complex_wire s in
        let* s2 := wiringEventMouseClickFinalize s1 in
        Some (set_m_wiringState NO_WIRE s2)
  end.

Definition hasButton (b : Z) (event : MouseActionEvent) : bool :=
  Z.land (buttons event) b =? b.

Definition wiringEventMouseClick (event : MouseActionEvent) (pos : QPointF)
    (s : SchematicScene) : option SchematicScene :=
  if hasButton LeftButton event then wiringEventLeftMouseClick pos s
  else if hasButton RightButton event then wiringEventRightMouseClick s
  else Some s.

Definition wiringEventMouseMove (pos : QPointF) (s : SchematicScene)
  : option SchematicScene :=
  match m_wiringState s with
  | NO_WIRE => Some s
  | _ =>
      let* w := m_currentWiringWire s in
      let* it := Heap.lookup w (items s) in
      let newPos := mapFromScene it pos in
      Wire_movePort2_at w newPos s
  end.

Definition wiringEvent (event : MouseActionEvent) (s : SchematicScene)
  : option SchematicScene :=
  let* pos := smartNearingGridPoint (scenePos event) s in
  match ev_type event with
  | GraphicsSceneMousePress => wiringEventMouseClick event pos s
  | GraphicsSceneMouseMove => wiringEventMouseMove pos s
  | _ => Some s
  end.

(** *** Reset *)

(** [Q_ASSERT(m_currentWiringWire != NULL)] guards the two branches that
    use the wire; an assertion that fails, or a pointer to no wire, has
    no result. *)
Definition resetStateWiring (s : SchematicScene) : option SchematicScene :=
  match m_wiringState s with
  | NO_WIRE => Some (set_m_wiringState NO_WIRE s)
  | SINGLETON_WIRE =>
      let* w := m_currentWiringWire s in
      let* _ := derefWire w s in
      Some (set_m_wiringState NO_WIRE (deleteItem w s))
  | COMPLEX_WIRE =>
      let* w := m_currentWiringWire s in
      let* s1 := Wire_show w s in
      let* (_, _, store) := derefWire w s1 in
      let* s2 := Wire_setState store w s1 in
      let* (_, st, _) := derefWire w s2 in
      let* s3 := Wire_movePort1_at w (port1Pos st) s2 in
      Some (set_m_wiringState NO_WIRE (deleteItem w s3))
  end.

Definition resetState (s : SchematicScene) : option SchematicScene :=
  let s1 := set_focusItem None s in
  let s2 := clearSelection s1 in
  (* qDeleteAll(m_insertibles); m_insertibles.clear(); *)
  let s3 := set_m_insertibles []
              (fold_left (fun s' p => deleteItem p s') (m_insertibles s2) s2) in
  let* s4 := resetStateWiring s3 in
  let s5 := set_m_paintingDrawClicks 0
              (set_m_paintingDrawItem None (deleteOpt (m_paintingDrawItem s4) s4)) in
  Some (set_m_zoomBand None (deleteOpt (m_zoomBand s5) s5)).

(** *** The current mouse action *)

Definition activeView (s : SchematicScene) : option SchematicView :=
  match views s with
  | [] => None
  | v :: _ => if isSchematicView v then Some v else None
  end.

Definition blockShortcuts (block : bool) (s : SchematicScene) : SchematicScene :=
  match activeView s with
  | None => s
  | Some _ =>
      if block then
        if negb (m_shortcutsBlocked s)
        then set_m_shortcutsBlocked true (set_appEventFilter true s)
        else s
      else
        if m_shortcutsBlocked s
        then set_m_shortcutsBlocked false (set_appEventFilter false s)
        else s
  end.

Definition setCurrentMouseAction (action : MouseAction) (s : SchematicScene)
  : option SchematicScene :=
  if MouseAction_eqb (m_currentMouseAction s) action then Some s
  else
    let s1 := if MouseAction_eqb (m_currentMouseAction s) InsertingItems
              then blockShortcuts false s else s in
    let s2 := if MouseAction_eqb action InsertingItems
              then blockShortcuts true s1 else s1 in
    let s3 := set_m_currentMouseAction action (set_m_areItemsMoving false s2) in
    let mode := if MouseAction_eqb action Normal then RubberBandDrag else NoDrag in
    let s4 := set_views (map (setDragMode mode) (views s3)) s3 in
    resetState s4.

(** *** Labels: [componentLabelSuffix] and [placeItem] *)

(** [Component::labelSuffix].

    Modelled from the spec: the component class is not among the
    sources; a label is "prefix + numeric suffix, e.g. R1", so the
    suffix is the label without the prefix. *)
Definition labelSuffix (prefix label : string) : string :=
  substring (String.length prefix) (String.length label - String.length prefix) label.

(** [suffix+1] is an [int] addition. *)
Definition componentLabelSuffix (prefix : string) (s : SchematicScene) : Z :=
  fold_left
    (fun _max e =>
       match body (snd e) with
       | Component pre label _ =>
           if String.eqb pre prefix then
             match QString_toInt (labelSuffix pre label) with
             | Some suffix => Z.max _max (CInt.to_int (suffix + 1))
             | None => _max
             end
           else _max
       | _ => _max
       end)
    (sceneItems s) 1.

(** [QString("%1%2").arg(prefix).arg(suffix)], for a prefix without
    place markers. *)
Definition makeLabel (prefix : string) (suffix : Z) : string :=
  (prefix ++ QString_number suffix)%string.

Definition setLabel (label : string) (it : QucsItem) : QucsItem :=
  match body it with
  | Component pre _ n => set_body (Component pre label n) it
  | _ => it
  end.

Definition placeItem (item : ItemPtr) (at_pos : QPointF) (opt : UndoOption)
    (s : SchematicScene) : option SchematicScene :=
  let* it := Heap.lookup item (items s) in
  let* s1 := if onScene it then onItem item (set_onScene false) s else Some s in
  let* s2 :=
    match body it with
    | Component labelPrefix _ _ =>
        let labelSuffix := componentLabelSuffix labelPrefix s1 in
        let label := makeLabel labelPrefix labelSuffix in
        onItem item (setLabel label) s1
    | _ => Some s1
    end in
  match opt with
  | DontPushUndoCmd =>
      let* s3 := onItem item (fun i => setPos at_pos (set_onScene true i)) s2 in
      if isComponent it then checkAndConnect opt item s3
      else if isWire it then checkAndConnect opt item s3
      else Some s3
  | PushUndoCmd =>
      let s3 := beginMacro "Use Paint Tool" s2 in
      let* s4 := push (InsertItemCmd item at_pos) s3 in
      let* s5 := if isComponent it then checkAndConnect opt item s4
                 else if isWire it then checkAndConnect opt item s4
                 else Some s4 in
      Some (endMacro s5)
  end.

(** *** Distribute and align *)





(** The items behind a list of pointers. *)
Definition derefAll (l : list ItemPtr) (s : SchematicScene)
  : option (list (ItemPtr * QucsItem)) :=
  foreach l (fun p acc => let* it := Heap.lookup p (items s) in
                          Some (acc ++ [(p, it)])) [].









(** *** Paste *)

(** [centerOfItems]: the centre of the united bounding rectangles. *)
Definition centerOfItems (l : list QucsItem) : QPointF :=
  let rect := match l with
              | [] => mkQRectF 0 0 0 0
              | first :: _ => sceneBoundingRect first
              end in
  rcenter (fold_left (fun r it => QRectF_united r (sceneBoundingRect it)) l rect).

Definition moveBy (d : QPointF) (it : QucsItem) : QucsItem :=
  setPos (addF (pos it) d) it.

(** Hiding the property group of a component changes what is drawn, not
    the scene as it is kept here. *)
Definition beginInsertingItems (its : list ItemPtr) (s : SchematicScene)
  : option SchematicScene :=
  match activeView s with
  | None => Some s
  | Some active =>
      let* s1 := resetState s in
      let s2 := set_m_insertibles its s1 in
      let cursorOnScene := cursorOnViewport active in
      let* mousePos := smartNearingGridPoint (cursorScenePos active) s2 in
      let s3 := set_m_insertActionMousePos mousePos s2 in
      let* s4 :=
        foreach (m_insertibles s3)
          (fun item s' =>
             onItem item (fun it => setVisible cursorOnScene (setSelected true it)) s')
          s3 in
      let* resolved := derefAll (m_insertibles s4) s4 in
      let* delta :=
        smartNearingGridPoint
          (subF (cursorScenePos active) (centerOfItems (map snd resolved))) s4 in
      foreach (m_insertibles s4) (fun item s' => onItem item (moveBy delta) s') s4
  end.

(** The first loop of [paste]: read on until the root element or the end. *)
Fixpoint seekRoot (tok : XmlToken) (rest : list XmlToken) : XmlReader :=
  if atEnd tok then mkReader tok rest
  else
    match rest with
    | [] => mkReader Invalid []
    | t :: ts =>
        if isStartElement t && String.eqb (tokenName t) "qucs"
        then mkReader t ts
        else seekRoot t ts
    end.

Definition loadByName (t : XmlToken) (rest : list XmlToken) : option QucsItem * nat :=
  if String.eqb (tokenName t) "component" then loadComponentData (tokenAttributes t) rest
  else if String.eqb (tokenName t) "wire" then loadWireData (tokenAttributes t) rest
  else if String.eqb (tokenName t) "painting" then loadPainting (tokenAttributes t) rest
  else (None, O).

(** The second loop of [paste]; [skip] counts the tokens a loader is
    still reading. *)
Fixpoint readItems (skip : nat) (tok : XmlToken) (rest : list XmlToken)
  : list QucsItem :=
  match skip with
  | S k =>
      match rest with
      | [] => []
      | t :: ts => readItems k t ts
      end
  | O =>
      if atEnd tok then []
      else
        match rest with
        | [] => []
        | t :: ts =>
            if isEndElement t then []
            else if isStartElement t then
              let (readItem, n) := loadByName t ts in
              match readItem with
              | Some it => it :: readItems n t ts
              | None => readItems n t ts
              end
            else readItems O t ts
        end
  end.

Fixpoint allocAll (l : list QucsItem) (h : Heap.t) : list ItemPtr * Heap.t :=
  match l with
  | [] => ([], h)
  | it :: l' =>
      let (p, h1) := Heap.alloc it h in
      let (ps, h2) := allocAll l' h1 in
      (p :: ps, h2)
  end.

(** [paste], on the tokens of the clipboard text. *)
Definition paste (clipboard : list XmlToken) (s : SchematicScene)
  : option SchematicScene :=
  let reader := seekRoot NoToken clipboard in
  if hasError (token reader)
     || negb (isStartElement (token reader) && String.eqb (tokenName (token reader)) "qucs")
  then Some s
  else if negb (checkVersion (attributeValue "version" (tokenAttributes (token reader))))
  then Some s
  else
    let loaded := readItems O (token reader) (pending reader) in
    let (_items, h) := allocAll loaded (items s) in
    beginInsertingItems _items (set_items h s).

End SceneOperations.

(** ** A stand-in for the collaborators

    One simple choice of the missing parts, on which the model can be
    run: a wire is a chain of lines whose last end follows the cursor, a
    port coincides with another when they sit on the same point, and
    numbers are read and written in decimal. *)

Module Sample.

Definition QPointF_eqb (a b : QPointF) : bool :=
  Qeq_bool (xf a) (xf b) && Qeq_bool (yf a) (yf b).

Definition isNullLine (l : WireLine) : bool := QPointF_eqb (p1 l) (p2 l).

Definition init (a b : QPointF) : WireData :=
  {| wLines := [mkWireLine a b]; port1Pos := a; port2Pos := b |}.

Fixpoint setLastP2 (to : QPointF) (ls : WireLines) : WireLines :=
  match ls with
  | [] => []
  | [l] => [mkWireLine (p1 l) to]
  | l :: ls' => l :: setLastP2 to ls'
  end.

Definition setFirstP1 (to : QPointF) (ls : WireLines) : WireLines :=
  match ls with
  | [] => []
  | l :: ls' => mkWireLine to (p2 l) :: ls'
  end.

Definition movePort1 (to : QPointF) (d : WireData) : WireData :=
  {| wLines := setFirstP1 to (wLines d); port1Pos := to; port2Pos := port2Pos d |}.

Definition movePort2 (to : QPointF) (d : WireData) : WireData :=
  {| wLines := setLastP2 to (wLines d); port1Pos := port1Pos d; port2Pos := to |}.

(** Null lines are pruned, but a wire keeps one line. *)
Definition removeNullLines (d : WireData) : WireData :=
  let kept := filter (fun l => negb (isNullLine l)) (wLines d) in
  {| wLines := match kept with
               | [] => firstn 1 (wLines d)
               | _ => kept
               end;
     port1Pos := port1Pos d; port2Pos := port2Pos d |}.

(** The wire is degenerate when its last line has no length. *)
Definition overlap (d : WireData) : bool :=
  match rev (wLines d) with
  | [] => true
  | l :: _ => isNullLine l
  end.

(** Where a port is on the scene: a component has its ports on its own
    position, a wire at its two ends. *)
Definition portScenePos (it : QucsItem) (k : nat) : option QPointF :=
  match body it with
  | Component _ _ n => if (k <? n)%nat then Some (pos it) else None
  | Wire st _ =>
      match k with
      | O => Some (addF (pos it) (port1Pos st))
      | S O => Some (addF (pos it) (port2Pos st))
      | _ => None
      end
  | _ => None
  end.

Definition portsWithPos (e : ItemPtr * QucsItem) : list (PortRef * QPointF) :=
  flat_map (fun p => match portScenePos (snd e) (snd p) with
                     | Some q => [(p, q)]
                     | None => []
                     end)
           (portsOf (fst e) (snd e)).

Definition connected (p q : PortRef) (cs : list (PortRef * PortRef)) : bool :=
  existsb (fun e => (PortRef_eqb p (fst e) && PortRef_eqb q (snd e))
                    || (PortRef_eqb q (fst e) && PortRef_eqb p (snd e))) cs.

Definition coinciding (h : Heap.t) (cs : list (PortRef * PortRef)) (item : ItemPtr)
  : list (PortRef * PortRef) :=
  match Heap.lookup item h with
  | None => []
  | Some it =>
      let others :=
        flat_map portsWithPos
                 (filter (fun e => onScene (snd e) && negb (Nat.eqb (fst e) item)) h) in
      flat_map
        (fun pp =>
           match find (fun oq => QPointF_eqb (snd pp) (snd oq)
                                 && negb (connected (fst pp) (fst oq) cs)) others with
           | Some oq => [(fst pp, fst oq)]
           | None => []
           end)
        (portsWithPos (item, it))
  end.

Definition boundingRect (it : QucsItem) : QRectF :=
  mkQRectF (xf (pos it) - 10) (yf (pos it) - 10) 20 20.

Definition Qmin (a b : Q) : Q := if Qle_bool a b then a else b.
Definition Qmax (a b : Q) : Q := if Qle_bool a b then b else a.

Definition united (a b : QRectF) : QRectF :=
  let l := Qmin (rleft a) (rleft b) in
  let t := Qmin (rtop a) (rtop b) in
  mkQRectF l t (Qmax (rright a) (rright b) - l) (Qmax (rbottom a) (rbottom b) - t).

Definition mirror (axis : Axis) (all : list QucsItem) (it : QucsItem) : QucsItem :=
  match axis with
  | XAxis => setPos (mkQPointF (xf (pos it)) (- yf (pos it))) it
  | YAxis => setPos (mkQPointF (- xf (pos it)) (yf (pos it))) it
  end.

Definition toInt (s : string) : option Z :=
  match NilZero.int_of_string s with
  | Some d =>
      let z := Z.of_int d in
      if (- CInt.two31 <=? z) && (z <? CInt.two31) then Some z else None
  | None => None
  end.

Definition number (z : Z) : string := NilZero.string_of_int (Z.to_int z).

(** How many tokens there are up to and including the first end element. *)
Fixpoint toEndElement (rest : list XmlToken) : nat :=
  match rest with
  | [] => O
  | t :: ts => if isEndElement t then 1%nat else S (toEndElement ts)
  end.

Definition loadComponent (attrs : list (string * string)) (rest : list XmlToken)
  : option QucsItem * nat :=
  (Some {| body := Component (attributeValue "name" attrs)
                             (attributeValue "name" attrs) 2;
           pos := mkQPointF 0 0; selected := false; visible := true;
           onScene := true |},
   toEndElement rest).

Definition loadWire (attrs : list (string * string)) (rest : list XmlToken)
  : option QucsItem * nat :=
  (Some {| body := Wire (init (mkQPointF 0 0) (mkQPointF 10 0))
                        (init (mkQPointF 0 0) (mkQPointF 10 0));
           pos := mkQPointF 0 0; selected := false; visible := true;
           onScene := true |},
   toEndElement rest).

Definition loadPaint (attrs : list (string * string)) (rest : list XmlToken)
  : option QucsItem * nat :=
  (Some {| body := Painting (attributeValue "name" attrs);
           pos := mkQPointF 0 0; selected := false; visible := true;
           onScene := true |},
   toEndElement rest).

#[export] Instance collaborators : Collaborators := {|
  Wire_init := init;
  Wire_initPos := fun _ _ => mkQPointF 0 0;
  Wire_overlap := overlap;
  Wire_movePort1 := movePort1;
  Wire_movePort2 := movePort2;
  Wire_removeNullLines := removeNullLines;
  coincidingPorts := coinciding;
  checkAndConnect_macro := true;
  sceneBoundingRect := boundingRect;
  QRectF_united := united;
  mirrorAbout := mirror;
  QString_toInt := toInt;
  QString_number := number;
  checkVersion := fun v => String.eqb v "0.1.0";
  loadComponentData := loadComponent;
  loadWireData := loadWire;
  loadPainting := loadPaint
|}.

(** The scene as [init()] leaves it, with one view and nothing on it. *)
Definition emptyScene : SchematicScene :=
  {| items := []; connections := []; m_undoStack := [];
     m_grid := Grid.mkGrid Grid.GridUInt Grid.DEFAULT_GRID_SPACE Grid.DEFAULT_GRID_SPACE;
     m_snapToGrid := true; m_currentMouseAction := Normal;
     m_areItemsMoving := false; m_shortcutsBlocked := false;
     appEventFilter := false;
     views := [mkView true RubberBandDrag true (mkQPointF 0 0)];
     focusItem := None; m_insertibles := [];
     m_insertActionMousePos := mkQPointF 0 0;
     m_wiringState := NO_WIRE; m_currentWiringWire := None;
     m_paintingDrawItem := None; m_paintingDrawClicks := 0;
     m_zoomBand := None |}.

Definition component (prefix label : string) (x y : Z) (sel : bool) : QucsItem :=
  {| body := Component prefix label 2; pos := QPointF_of_ints x y;
     selected := sel; visible := true; onScene := true |}.

Definition withItems (l : list QucsItem) (s : SchematicScene) : SchematicScene :=
  set_items (snd (allocAll l (items s))) s.

End Sample.

(** * Properties *)

(** ** Grid snapping *)

Module GridProperties.

Import CInt Grid.

Lemma nearingGridPoint_of_axes (g : GridConf) (x y sx sy : Z) :
  snapAxis (m_gridType g) (m_gridWidth g) x = Some sx ->
  snapAxis (m_gridType g) (m_gridHeight g) y = Some sy ->
  nearingGridPoint g (QPointF_of_ints x y) = Some (QPointF_of_ints sx sy).
Proof.
  intros Hx Hy. unfold nearingGridPoint. rewrite toPoint_of_ints.
  simpl xi. simpl yi. now rewrite Hx, Hy.
Qed.

(** Snapping a point with non-negative coordinates twice is snapping it
    once, whatever the type of the grid members. *)
Lemma snapTwice_nonneg (g : GridConf) (x y : Z) :
  0 < m_gridWidth g < two30 -> 0 < m_gridHeight g < two30 ->
  0 <= x -> x + m_gridWidth g < two30 ->
  0 <= y -> y + m_gridHeight g < two30 ->
  snapTwice g (QPointF_of_ints x y) = nearingGridPoint g (QPointF_of_ints x y)
  /\ nearingGridPoint g (QPointF_of_ints x y) <> None.
Proof.
  intros Hw Hh Hx Hx' Hy Hy'.
  assert (Hb : forall w v, 0 < w < two30 -> 0 <= v -> v + w < two30 ->
                           0 <= w * ((v + w / 2) / w) < two30).
  { intros w v Hw0 Hv Hvw.
    assert (0 <= w / 2 < w).
    { split; [apply Z.div_pos; lia | apply Z.div_lt_upper_bound; lia]. }
    pose proof (Z.mul_div_le (v + w / 2) w ltac:(lia)).
    assert (0 <= (v + w / 2) / w) by (apply Z.div_pos; lia).
    split; [apply Z.mul_nonneg_nonneg; lia | lia]. }
  assert (Hx2 : 0 <= x < two30) by lia.
  assert (Hy2 : 0 <= y < two30) by lia.
  unfold snapTwice.
  rewrite (nearingGridPoint_of_axes g x y _ _
             (snapAxis_nonneg _ _ _ Hw Hx2) (snapAxis_nonneg _ _ _ Hh Hy2)).
  split; [|discriminate].
  apply nearingGridPoint_of_axes; apply snapAxis_nonneg_fixed;
    try assumption; apply Hb; assumption.
Qed.

(** C5, on the code.  [nearingGridPoint] is not idempotent.  With a grid
    spacing of 1 the point (-3,-3) goes to (-2,-2) and that to (-1,-1),
    under either type of the grid members: the half-step is 0 and the
    negative branch subtracts 0 - 1.  With unsigned grid members and the
    default spacing of 10, the grid point (-10,-10) goes to (-16,-16)
    and that to (-26,-26): the remainder is taken of the coordinate
    converted to unsigned. *)
Theorem nearingGridPoint_snaps_grid_points_away :
  (forall ty : GridType,
      nearingGridPoint (mkGrid ty 1 1) (QPointF_of_ints (-3) (-3))
        = Some (QPointF_of_ints (-2) (-2))
      /\ snapTwice (mkGrid ty 1 1) (QPointF_of_ints (-3) (-3))
        = Some (QPointF_of_ints (-1) (-1)))
  /\ nearingGridPoint (mkGrid GridUInt DEFAULT_GRID_SPACE DEFAULT_GRID_SPACE)
       (QPointF_of_ints (-10) (-10)) = Some (QPointF_of_ints (-16) (-16))
  /\ snapTwice (mkGrid GridUInt DEFAULT_GRID_SPACE DEFAULT_GRID_SPACE)
       (QPointF_of_ints (-10) (-10)) = Some (QPointF_of_ints (-26) (-26)).
Proof.
  split; [intros []; split; vm_compute; reflexivity|].
  split; vm_compute; reflexivity.
Qed.





End GridProperties.

(** ** The scene: frame lemmas *)

Section SceneFacts.

Context {C : Collaborators}.

Lemma onItem_spec (p : ItemPtr) (f : QucsItem -> QucsItem) (s : SchematicScene)
    (it : QucsItem) :
  Heap.lookup p (items s) = Some it ->
  onItem p f s = Some (set_items (Heap.update p f (items s)) s).
Proof. intros H. unfold onItem. now rewrite H. Qed.

Lemma derefWire_spec (p : ItemPtr) (s : SchematicScene) (it : QucsItem)
    (st store : WireData) :
  derefWire p s = Some (it, st, store) <->
  Heap.lookup p (items s) = Some it /\ body it = Wire st store.
Proof.
  unfold derefWire. destruct (Heap.lookup p (items s)) as [i|].
  - split.
    + intros H. destruct (body i) eqn:Hb; try discriminate.
      injection H as <- <- <-. auto.
    + intros [[= <-] Hb]. now rewrite Hb.
  - split; [discriminate | intros [H _]; discriminate].
Qed.

(** A wire method keeps the item a wire, behind the same pointer. *)
Lemma onWire_spec (p : ItemPtr) (f : WireData -> WireData -> WireData * WireData)
    (s : SchematicScene) (it : QucsItem) (st store : WireData) :
  derefWire p s = Some (it, st, store) ->
  exists s',
    onWire p f s = Some s'
    /\ s' = set_items (Heap.update p (set_body (Wire (fst (f st store)) (snd (f st store))))
                                   (items s)) s
    /\ derefWire p s'
       = Some (set_body (Wire (fst (f st store)) (snd (f st store))) it,
               fst (f st store), snd (f st store)).
Proof.
  intros H. unfold onWire. rewrite H.
  destruct (f st store) as [st' store'] eqn:Hf. simpl fst. simpl snd.
  apply derefWire_spec in H. destruct H as [Hl Hb].
  rewrite (onItem_spec _ _ _ _ Hl). eexists. split; [reflexivity|].
  split; [reflexivity|].
  apply derefWire_spec. split; [|reflexivity].
  simpl. now apply Heap.lookup_update_same.
Qed.

(** What a method of an item leaves alone: all but the heap. *)
Lemma onItem_items (p : ItemPtr) (f : QucsItem -> QucsItem) (s s' : SchematicScene) :
  onItem p f s = Some s' -> exists h, s' = set_items h s.
Proof.
  unfold onItem. destruct (Heap.lookup p (items s)); [|discriminate].
  intros [= <-]. eexists. reflexivity.
Qed.

Lemma onWire_items (p : ItemPtr) (f : WireData -> WireData -> WireData * WireData)
    (s s' : SchematicScene) :
  onWire p f s = Some s' -> exists h, s' = set_items h s.
Proof.
  unfold onWire. destruct (derefWire p s) as [[[it st] store]|]; [|discriminate].
  destruct (f st store). apply onItem_items.
Qed.

(** Deleting items changes the heap and the connections only. *)
Lemma deleteAll_world (l : list ItemPtr) (s : SchematicScene) :
  exists h c,
    fold_left (fun s' p => deleteItem p s') l s = set_connections c (set_items h s).
Proof.
  assert (G : forall l h c,
             exists h' c',
               fold_left (fun s' p => deleteItem p s') l (set_connections c (set_items h s))
               = set_connections c' (set_items h' s)).
  { clear l. induction l as [|p l IH]; intros h c; simpl.
    - now exists h, c.
    - apply (IH (Heap.remove p h) (dropConnectionsOf p c)). }
  destruct l as [|p l]; simpl.
  - exists (items s), (connections s). now destruct s.
  - apply (G l (Heap.remove p (items s)) (dropConnectionsOf p (connections s))).
Qed.

Lemma deleteOpt_world (p : option ItemPtr) (s : SchematicScene) :
  exists h c, deleteOpt p s = set_connections c (set_items h s).
Proof.
  destruct p as [q|]; simpl.
  - eexists _, _. reflexivity.
  - exists (items s), (connections s). now destruct s.
Qed.

(** The wiring reset ends in [NO_WIRE] and, that apart, changes the heap
    and the connections only. *)
Lemma resetStateWiring_world (s s' : SchematicScene) :
  resetStateWiring s = Some s' ->
  exists h c, s' = set_m_wiringState NO_WIRE (set_connections c (set_items h s)).
Proof.
  unfold resetStateWiring. destruct (m_wiringState s).
  - intros [= <-]. now exists (items s), (connections s).
  - destruct (m_currentWiringWire s) as [w|]; [|discriminate].
    destruct (derefWire w s); [|discriminate].
    intros [= <-]. eexists _, _. reflexivity.
  - destruct (m_currentWiringWire s) as [w|]; [|discriminate].
    destruct (Wire_show w s) as [s1|] eqn:E1; [|discriminate].
    destruct (derefWire w s1) as [[[i1 st1] store1]|]; [|discriminate].
    destruct (Wire_setState store1 w s1) as [s2|] eqn:E2; [|discriminate].
    destruct (derefWire w s2) as [[[i2 st2] store2]|]; [|discriminate].
    destruct (Wire_movePort1_at w (port1Pos st2) s2) as [s3|] eqn:E3; [|discriminate].
    intros [= <-].
    apply onItem_items in E1. apply onWire_items in E2. apply onWire_items in E3.
    destruct E1 as [h1 ->], E2 as [h2 ->], E3 as [h3 ->].
    eexists _, _. reflexivity.
Qed.

(** The full reset, field by field. *)
Lemma resetState_world (s s' : SchematicScene) :
  resetState s = Some s' ->
  exists h c,
    s' = set_m_zoomBand None
           (set_m_paintingDrawClicks 0
              (set_m_paintingDrawItem None
                 (set_m_wiringState NO_WIRE
                    (set_m_insertibles []
                       (set_focusItem None (set_connections c (set_items h s))))))).
Proof.
  unfold resetState.
  set (s2 := clearSelection (set_focusItem None s)).
  destruct (deleteAll_world (m_insertibles s2) s2) as (h1 & c1 & E1). rewrite E1.
  destruct (resetStateWiring _) as [s4|] eqn:E4; [|discriminate].
  apply resetStateWiring_world in E4. destruct E4 as (h4 & c4 & ->).
  set (s4 := set_m_wiringState NO_WIRE _).
  destruct (deleteOpt_world (m_paintingDrawItem s4) s4) as (h5 & c5 & E5). rewrite E5.
  set (s5 := set_m_paintingDrawClicks 0 _).
  destruct (deleteOpt_world (m_zoomBand s5) s5) as (h6 & c6 & E6). rewrite E6.
  intros [= <-]. exists h6, c6. reflexivity.
Qed.

End SceneFacts.

(** ** The current mouse action *)

Section MouseActionProperties.

Context {C : Collaborators}.

(** C10.  [setCurrentMouseAction] with the action that is already
    current returns at once: the scene is left as it is, with its
    selection, focus item, insertibles, wiring state and wire, painting
    item, zoom band, shortcut blocking and the drag mode of its views. *)
Theorem setCurrentMouseAction_same_action_is_noop (s : SchematicScene) :
  setCurrentMouseAction (m_currentMouseAction s) s = Some s.
Proof.
  unfold setCurrentMouseAction.
  now destruct (MouseAction_eqb_spec (m_currentMouseAction s) (m_currentMouseAction s)).
Qed.

(** When the action does change, the transition is the full reset of
    the scene with the new action, drag modes and shortcut blocking. *)
Lemma setCurrentMouseAction_other_action (action : MouseAction) (s s' : SchematicScene) :
  m_currentMouseAction s <> action ->
  setCurrentMouseAction action s = Some s' ->
  m_currentMouseAction s' = action
  /\ m_areItemsMoving s' = false
  /\ focusItem s' = None
  /\ m_insertibles s' = []
  /\ m_wiringState s' = NO_WIRE
  /\ m_paintingDrawItem s' = None
  /\ m_paintingDrawClicks s' = 0
  /\ m_zoomBand s' = None
  /\ Forall (fun v => dragMode v = if MouseAction_eqb action Normal
                                   then RubberBandDrag else NoDrag) (views s').
Proof.
  intros Hne. unfold setCurrentMouseAction.
  destruct (MouseAction_eqb_spec (m_currentMouseAction s) action) as [?|_]; [contradiction|].
  intros Hr. apply resetState_world in Hr. destruct Hr as (h & c & ->).
  cbn. repeat split.
  apply Forall_forall. intros v Hin.
  apply in_map_iff in Hin. destruct Hin as (v0 & <- & _). reflexivity.
Qed.

End MouseActionProperties.

(** ** The wiring state machine *)

(** Sample scenes of the wiring machine, for the stand-in collaborators. *)
Module WiringSamples.

Import Sample.

Definition press (b : Z) (x y : Z) : MouseActionEvent :=
  mkEvent GraphicsSceneMousePress b (QPointF_of_ints x y).
Definition move (x y : Z) : MouseActionEvent :=
  mkEvent GraphicsSceneMouseMove 0 (QPointF_of_ints x y).

Definition after (evs : list MouseActionEvent) (s : SchematicScene) : SchematicScene :=
  match foreach evs wiringEvent s with
  | Some s' => s'
  | None => s
  end.

(** One left click: a wire without length is in progress. *)
Definition singleton : SchematicScene :=
  after [press LeftButton 0 0] emptyScene.

(** Two left clicks: the first leg is committed, the second in progress. *)
Definition complex : SchematicScene :=
  after [press LeftButton 0 0; move 20 0; press LeftButton 20 0; move 20 20]
        emptyScene.

End WiringSamples.

Section WiringProperties.

Context {C : Collaborators}.

Definition wired (s : SchematicScene) : Prop :=
  m_wiringState s = SINGLETON_WIRE \/ m_wiringState s = COMPLEX_WIRE.

(** C3.  A left or right click while a wire is in progress whose
    geometry overlaps is rejected: the handlers return the scene as it
    was, so the wiring state, the wire and its segments and the undo
    stack are unchanged; the same goes for the press event that carries
    the click. *)
Theorem wiring_click_on_overlap_is_rejected
    (s : SchematicScene) (w : ItemPtr) (it : QucsItem) (st store : WireData) :
  wired s ->
  m_currentWiringWire s = Some w ->
  derefWire w s = Some (it, st, store) ->
  Wire_overlap st = true ->
  (forall pos : QPointF, wiringEventLeftMouseClick pos s = Some s)
  /\ wiringEventRightMouseClick s = Some s
  /\ (forall event : MouseActionEvent,
         ev_type event = GraphicsSceneMousePress ->
         smartNearingGridPoint (scenePos event) s <> None ->
         wiringEvent event s = Some s).
Proof.
  intros Hw Hc Hd Ho.
  assert (HL : forall pos, wiringEventLeftMouseClick pos s = Some s).
  { intros pos. unfold wiringEventLeftMouseClick.
    destruct Hw as [-> | ->]; rewrite Hc, Hd, Ho; reflexivity. }
  assert (HR : wiringEventRightMouseClick s = Some s).
  { unfold wiringEventRightMouseClick.
    destruct Hw as [-> | ->]; rewrite Hc, Hd, Ho; reflexivity. }
  split; [exact HL|]. split; [exact HR|].
  intros event Hty Hpos. unfold wiringEvent.
  destruct (smartNearingGridPoint (scenePos event) s) as [pos|]; [|congruence].
  rewrite Hty. unfold wiringEventMouseClick.
  destruct (hasButton LeftButton event); [apply HL|].
  destruct (hasButton RightButton event); [apply HR | reflexivity].
Qed.

(** C2, on the code.  A wiring reset with a wire in progress, in
    [SINGLETON_WIRE] as in [COMPLEX_WIRE], ends in [NO_WIRE] and deletes
    the wire as a whole: no item is behind its pointer any more, the
    other items are as before, the commands that committed its segments
    stay on the undo stack, and [m_currentWiringWire] keeps pointing to
    the deleted wire. *)
Theorem resetStateWiring_deletes_the_whole_wire
    (s : SchematicScene) (w : ItemPtr) (it : QucsItem) (st store : WireData) :
  wired s ->
  m_currentWiringWire s = Some w ->
  derefWire w s = Some (it, st, store) ->
  exists s',
    resetStateWiring s = Some s'
    /\ m_wiringState s' = NO_WIRE
    /\ Heap.lookup w (items s') = None
    /\ (forall q, q <> w -> Heap.lookup q (items s') = Heap.lookup q (items s))
    /\ m_undoStack s' = m_undoStack s
    /\ m_currentWiringWire s' = Some w.
Proof.
  intros Hw Hc Hd. unfold resetStateWiring.
  destruct Hw as [-> | ->]; rewrite Hc.
  - rewrite Hd. eexists. split; [reflexivity|]. simpl.
    split; [reflexivity|]. split; [apply Heap.lookup_remove_same|].
    split; [intros q Hq; now apply Heap.lookup_remove_other|].
    split; [reflexivity | exact Hc].
  - pose proof Hd as Hd0. apply derefWire_spec in Hd0. destruct Hd0 as [Hl Hb].
    unfold Wire_show. rewrite (onItem_spec _ _ _ _ Hl).
    set (s1 := set_items _ s).
    assert (Hd1 : derefWire w s1 = Some (setVisible true it, st, store)).
    { apply derefWire_spec. split; [|exact Hb].
      subst s1. simpl. now apply Heap.lookup_update_same. }
    rewrite Hd1.
    destruct (onWire_spec w (fun _ store0 => (store, store0)) s1 _ _ _ Hd1)
      as (s2 & E2 & Hs2 & Hd2).
    unfold Wire_setState. rewrite E2. simpl fst in Hd2. simpl snd in Hd2. rewrite Hd2.
    destruct (onWire_spec w (fun st0 store0 => (Wire_movePort1 (port1Pos store) st0, store0))
                          s2 _ _ _ Hd2) as (s3 & E3 & Hs3 & Hd3).
    unfold Wire_movePort1_at. rewrite E3.
    eexists. split; [reflexivity|]. simpl.
    split; [reflexivity|]. split; [apply Heap.lookup_remove_same|].
    split.
    + intros q Hq. rewrite Heap.lookup_remove_other by auto.
      rewrite Hs3. simpl. rewrite Heap.lookup_update_other by auto.
      rewrite Hs2. simpl. rewrite Heap.lookup_update_other by auto.
      subst s1. simpl. now rewrite Heap.lookup_update_other by auto.
    + rewrite Hs3, Hs2. subst s1. simpl. split; [reflexivity | exact Hc].
Qed.

End WiringProperties.

Module WiringWitnesses.

Import Sample.

(** The rejection at work: the wire of [singleton] has no length, and a
    click leaves the scene as it is. *)
Lemma wiring_click_on_overlap_is_rejected_witness :
  wiringEventLeftMouseClick (QPointF_of_ints 5 5) WiringSamples.singleton
    = Some WiringSamples.singleton
  /\ wiringEventRightMouseClick WiringSamples.singleton
    = Some WiringSamples.singleton.
Proof.
  destruct (wiring_click_on_overlap_is_rejected
              WiringSamples.singleton 1%nat
              (newWire (QPointF_of_ints 0 0) (QPointF_of_ints 0 0))
              (Sample.init (QPointF_of_ints 0 0) (QPointF_of_ints 0 0))
              (Sample.init (QPointF_of_ints 0 0) (QPointF_of_ints 0 0)))
    as (HL & HR & _).
  - left. reflexivity.
  - reflexivity.
  - reflexivity.
  - reflexivity.
  - split; [apply HL | exact HR].
Defined.

(** The reset at work on [complex]: wire 1, whose first leg is committed
    by an [AddWireCmd] on the undo stack, is gone after the reset. *)
Lemma resetStateWiring_deletes_the_whole_wire_witness :
  m_wiringState WiringSamples.complex = COMPLEX_WIRE
  /\ In (Push (AddWireCmd 1%nat)) (m_undoStack WiringSamples.complex)
  /\ exists s',
      resetStateWiring WiringSamples.complex = Some s'
      /\ m_wiringState s' = NO_WIRE
      /\ Heap.lookup 1%nat (items s') = None
      /\ In (Push (AddWireCmd 1%nat)) (m_undoStack s').
Proof.
  split; [reflexivity|].
  split; [vm_compute; tauto|].
  destruct (derefWire 1%nat WiringSamples.complex) as [[[it st] store]|] eqn:Hd;
    [|vm_compute in Hd; discriminate Hd].
  destruct (resetStateWiring_deletes_the_whole_wire
              WiringSamples.complex 1%nat it st store)
    as (s' & Hr & Hs & Hl & _ & Hu & _).
  - right. reflexivity.
  - reflexivity.
  - exact Hd.
  - exists s'. split; [exact Hr|]. split; [exact Hs|]. split; [exact Hl|].
    rewrite Hu. vm_compute. tauto.
Defined.

End WiringWitnesses.

(** ** Connecting and disconnecting: what reaches the undo stack *)

Section ConnectFacts.

Context {C : Collaborators}.

(** The heap, the connections and the undo stack replaced at once. *)
Definition withWorld (h : Heap.t) (c : list (PortRef * PortRef)) (u : QUndoStack)
    (s : SchematicScene) : SchematicScene :=
  set_m_undoStack u (set_connections c (set_items h s)).

Lemma withWorld_id (s : SchematicScene) :
  withWorld (items s) (connections s) (m_undoStack s) s = s.
Proof. now destruct s. Qed.

Lemma beginMacro_withWorld (text : string) (h : Heap.t) (c : list (PortRef * PortRef))
    (u : QUndoStack) (s : SchematicScene) :
  beginMacro text (withWorld h c u s) = withWorld h c (u ++ [BeginMacro text]) s.
Proof. reflexivity. Qed.

Lemma endMacro_withWorld (h : Heap.t) (c : list (PortRef * PortRef))
    (u : QUndoStack) (s : SchematicScene) :
  endMacro (withWorld h c u s) = withWorld h c (u ++ [EndMacro]) s.
Proof. reflexivity. Qed.

Lemma push_withWorld (cmd : QUndoCommand) (h : Heap.t) (c : list (PortRef * PortRef))
    (u : QUndoStack) (s : SchematicScene) :
  push cmd (withWorld h c u s) = redo cmd (withWorld h c (u ++ [Push cmd]) s).
Proof. reflexivity. Qed.

Definition connectPush (pq : PortRef * PortRef) : StackCall :=
  Push (ConnectCmd (fst pq) (snd pq)).

Lemma push_connects (pairs : list (PortRef * PortRef)) (h : Heap.t)
    (c : list (PortRef * PortRef)) (u : QUndoStack) (s : SchematicScene) :
  foreach pairs (fun pq => push (ConnectCmd (fst pq) (snd pq))) (withWorld h c u s)
  = Some (withWorld h (c ++ pairs) (u ++ map connectPush pairs) s).
Proof.
  revert c u. induction pairs as [|[p q] pairs IH]; intros c u; simpl.
  - now rewrite !app_nil_r.
  - unfold push at 1. simpl.
    change (set_connections (connectTo p q c)
              (set_m_undoStack (u ++ [Push (ConnectCmd p q)]) (withWorld h c u s)))
      with (withWorld h (c ++ [(p, q)]) (u ++ [connectPush (p, q)]) s).
    rewrite IH. rewrite <- !app_assoc. reflexivity.
Qed.

Lemma direct_connects (pairs : list (PortRef * PortRef)) (h : Heap.t)
    (c : list (PortRef * PortRef)) (u : QUndoStack) (s : SchematicScene) :
  foreach pairs
    (fun pq s' =>
       Some (set_connections (connectTo (fst pq) (snd pq) (connections s')) s'))
    (withWorld h c u s)
  = Some (withWorld h (c ++ pairs) u s).
Proof.
  revert c. induction pairs as [|[p q] pairs IH]; intros c; simpl.
  - now rewrite app_nil_r.
  - change (set_connections (connectTo p q c) (withWorld h c u s))
      with (withWorld h (c ++ [(p, q)]) u s).
    rewrite IH. now rewrite <- app_assoc.
Qed.

(** The calls one [checkAndConnect] makes on the undo stack. *)
Definition checkAndConnectCalls (opt : UndoOption) (pairs : list (PortRef * PortRef))
  : QUndoStack :=
  match opt with
  | PushUndoCmd =>
      if checkAndConnect_macro
      then BeginMacro "" :: map connectPush pairs ++ [EndMacro]
      else map connectPush pairs
  | DontPushUndoCmd => []
  end.

Lemma checkAndConnect_spec (opt : UndoOption) (item : ItemPtr) (h : Heap.t)
    (c : list (PortRef * PortRef)) (u : QUndoStack) (s : SchematicScene) :
  checkAndConnect opt item (withWorld h c u s)
  = Some (withWorld h (c ++ coincidingPorts h c item)
                    (u ++ checkAndConnectCalls opt (coincidingPorts h c item)) s).
Proof.
  unfold checkAndConnect, checkAndConnectCalls.
  change (items (withWorld h c u s)) with h.
  change (connections (withWorld h c u s)) with c.
  set (pairs := coincidingPorts h c item).
  destruct opt.
  - destruct checkAndConnect_macro.
    + rewrite beginMacro_withWorld, push_connects, endMacro_withWorld.
      rewrite <- !app_assoc. reflexivity.
    + now rewrite push_connects.
  - rewrite direct_connects. now rewrite app_nil_r.
Qed.

(** An operation with the undo option brackets its calls in a macro. *)
Definition bracket (opt : UndoOption) (text : string) (calls : QUndoStack)
  : QUndoStack :=
  match opt with
  | PushUndoCmd => BeginMacro text :: calls ++ [EndMacro]
  | DontPushUndoCmd => calls
  end.

Definition valid (h : Heap.t) (p : ItemPtr) : Prop := Heap.lookup p h <> None.

(** The connections and the calls of the loop of [connectItems]. *)
Fixpoint connectAll (opt : UndoOption) (qItems : list ItemPtr) (h : Heap.t)
    (c : list (PortRef * PortRef)) : list (PortRef * PortRef) * QUndoStack :=
  match qItems with
  | [] => (c, [])
  | q :: rest =>
      match Heap.lookup q h with
      | Some it =>
          if isComponent it || isWire it then
            let pairs := coincidingPorts h c q in
            let (c', u') := connectAll opt rest h (c ++ pairs) in
            (c', checkAndConnectCalls opt pairs ++ u')
          else connectAll opt rest h c
      | None => (c, [])
      end
  end.

Lemma connectLoop_spec (opt : UndoOption) (qItems : list ItemPtr) (h : Heap.t)
    (c : list (PortRef * PortRef)) (u : QUndoStack) (s : SchematicScene) :
  Forall (valid h) qItems ->
  foreach qItems
    (fun qItem s' =>
       let* it := Heap.lookup qItem (items s') in
       if isComponent it then checkAndConnect opt qItem s'
       else if isWire it then checkAndConnect opt qItem s'
       else Some s')
    (withWorld h c u s)
  = Some (withWorld h (fst (connectAll opt qItems h c))
                    (u ++ snd (connectAll opt qItems h c)) s).
Proof.
  intros Hv. revert c u. induction Hv as [|q rest Hq Hv IH]; intros c u; simpl.
  - now rewrite app_nil_r.
  - change (items (withWorld h c u s)) with h.
    unfold valid in Hq. destruct (Heap.lookup q h) as [it|]; [|congruence].
    destruct (isComponent it) eqn:Ec; simpl.
    + rewrite checkAndConnect_spec, IH.
      destruct (connectAll opt rest h (c ++ coincidingPorts h c q)) as [c' u'].
      simpl. now rewrite <- app_assoc.
    + destruct (isWire it) eqn:Ew.
      * rewrite checkAndConnect_spec, IH.
        destruct (connectAll opt rest h (c ++ coincidingPorts h c q)) as [c' u'].
        simpl. now rewrite <- app_assoc.
      * apply IH.
Qed.

Lemma connectItems_spec (opt : UndoOption) (qItems : list ItemPtr) (h : Heap.t)
    (c : list (PortRef * PortRef)) (u : QUndoStack) (s : SchematicScene) :
  Forall (valid h) qItems ->
  connectItems qItems opt (withWorld h c u s)
  = Some (withWorld h (fst (connectAll opt qItems h c))
                    (u ++ bracket opt "Connect items" (snd (connectAll opt qItems h c))) s).
Proof.
  intros Hv. unfold connectItems, bracket. destruct opt.
  - change (beginMacro "Connect items" (withWorld h c u s))
      with (withWorld h c (u ++ [BeginMacro "Connect items"]) s).
    rewrite (connectLoop_spec _ _ _ _ _ _ Hv).
    rewrite endMacro_withWorld, <- !app_assoc. reflexivity.
  - now rewrite (connectLoop_spec _ _ _ _ _ _ Hv).
Qed.

(** The connections and the calls of the loops of [disconnectItems]:
    first over the ports of one item, then over the items. *)
Fixpoint disconnectPorts (opt : UndoOption) (ports : list PortRef)
    (c : list (PortRef * PortRef)) : list (PortRef * PortRef) * QUndoStack :=
  match ports with
  | [] => (c, [])
  | p :: rest =>
      match getAnyConnectedPort p c with
      | None => disconnectPorts opt rest c
      | Some other =>
          let (c', u') := disconnectPorts opt rest (disconnectFrom p other c) in
          (c', match opt with
               | PushUndoCmd => Push (DisconnectCmd p other) :: u'
               | DontPushUndoCmd => u'
               end)
      end
  end.

Fixpoint disconnectAll (opt : UndoOption) (qItems : list ItemPtr) (h : Heap.t)
    (c : list (PortRef * PortRef)) : list (PortRef * PortRef) * QUndoStack :=
  match qItems with
  | [] => (c, [])
  | q :: rest =>
      match Heap.lookup q h with
      | Some it =>
          let ports := if isComponent it || isWire it then portsOf q it else [] in
          let (c1, u1) := disconnectPorts opt ports c in
          let (c2, u2) := disconnectAll opt rest h c1 in
          (c2, u1 ++ u2)
      | None => (c, [])
      end
  end.

Lemma disconnectPorts_spec (opt : UndoOption) (ports : list PortRef) (h : Heap.t)
    (c : list (PortRef * PortRef)) (u : QUndoStack) (s : SchematicScene) :
  foreach ports
    (fun p s'' =>
       match getAnyConnectedPort p (connections s'') with
       | None => Some s''
       | Some other =>
           match opt with
           | PushUndoCmd => push (DisconnectCmd p other) s''
           | DontPushUndoCmd =>
               Some (set_connections (disconnectFrom p other (connections s'')) s'')
           end
       end)
    (withWorld h c u s)
  = Some (withWorld h (fst (disconnectPorts opt ports c))
                    (u ++ snd (disconnectPorts opt ports c)) s).
Proof.
  revert c u. induction ports as [|p rest IH]; intros c u; simpl.
  - now rewrite app_nil_r.
  - change (connections (withWorld h c u s)) with c.
    destruct (getAnyConnectedPort p c) as [other|]; [|apply IH].
    destruct opt.
    + unfold push. simpl.
      change (set_connections (disconnectFrom p other c)
                (set_m_undoStack (u ++ [Push (DisconnectCmd p other)]) (withWorld h c u s)))
        with (withWorld h (disconnectFrom p other c)
                        (u ++ [Push (DisconnectCmd p other)]) s).
      rewrite IH.
      destruct (disconnectPorts PushUndoCmd rest (disconnectFrom p other c)) as [c' u'].
      simpl. now rewrite <- app_assoc.
    + change (set_connections (disconnectFrom p other c) (withWorld h c u s))
        with (withWorld h (disconnectFrom p other c) u s).
      rewrite IH.
      now destruct (disconnectPorts DontPushUndoCmd rest (disconnectFrom p other c)).
Qed.

Lemma disconnectItems_spec (opt : UndoOption) (qItems : list ItemPtr) (h : Heap.t)
    (c : list (PortRef * PortRef)) (u : QUndoStack) (s : SchematicScene) :
  Forall (valid h) qItems ->
  disconnectItems qItems opt (withWorld h c u s)
  = Some (withWorld h (fst (disconnectAll opt qItems h c))
                    (u ++ bracket opt "Disconnect items"
                                  (snd (disconnectAll opt qItems h c))) s).
Proof.
  intros Hv.
  assert (L : forall c u,
             foreach qItems
               (fun item s' =>
                  let* it := Heap.lookup item (items s') in
                  let ports := if isComponent it then portsOf item it
                               else if isWire it then portsOf item it
                               else [] in
                  foreach ports
                    (fun p s'' =>
                       match getAnyConnectedPort p (connections s'') with
                       | None => Some s''
                       | Some other =>
                           match opt with
                           | PushUndoCmd => push (DisconnectCmd p other) s''
                           | DontPushUndoCmd =>
                               Some (set_connections
                                       (disconnectFrom p other (connections s'')) s'')
                           end
                       end)
                    s')
               (withWorld h c u s)
             = Some (withWorld h (fst (disconnectAll opt qItems h c))
                               (u ++ snd (disconnectAll opt qItems h c)) s)).
  { induction Hv as [|q rest Hq Hv IH]; intros c0 u0; simpl.
    - now rewrite app_nil_r.
    - change (items (withWorld h c0 u0 s)) with h.
      unfold valid in Hq. destruct (Heap.lookup q h) as [it|]; [|congruence].
      assert (E : (if isComponent it then portsOf q it
                   else if isWire it then portsOf q it else [])
                  = (if isComponent it || isWire it then portsOf q it else []))
        by (destruct (isComponent it), (isWire it); reflexivity).
      simpl. rewrite E. rewrite disconnectPorts_spec.
      destruct (disconnectPorts opt _ c0) as [c1 u1]. simpl.
      rewrite IH. destruct (disconnectAll opt rest h c1) as [c2 u2].
      simpl. now rewrite <- app_assoc. }
  unfold disconnectItems, bracket. destruct opt.
  - change (beginMacro "Disconnect items" (withWorld h c u s))
      with (withWorld h c (u ++ [BeginMacro "Disconnect items"]) s).
    rewrite L. rewrite endMacro_withWorld, <- !app_assoc. reflexivity.
  - now rewrite L.
Qed.

End ConnectFacts.

(** ** Undo macros *)

Module UndoFacts.

Import Undo.

Lemma depthFrom_app (d : nat) (a b : QUndoStack) :
  depthFrom d (a ++ b) = depthFrom (depthFrom d a) b.
Proof. unfold depthFrom. apply fold_left_app. Qed.

Lemma balancedFrom_app (a b : QUndoStack) (n m : nat) :
  balancedFrom n a = true -> balancedFrom m b = true ->
  balancedFrom (n + m) (a ++ b) = true.
Proof.
  revert n. induction a as [|c a IH]; intros n Ha Hb; simpl in *.
  - apply Nat.eqb_eq in Ha. now subst n.
  - destruct c.
    + apply (IH (S n)); assumption.
    + destruct n as [|o]; [discriminate|]. simpl. now apply IH.
    + now apply IH.
Qed.

Lemma balanced_app (a b : QUndoStack) :
  balanced a = true -> balanced b = true -> balanced (a ++ b) = true.
Proof. intros Ha Hb. exact (balancedFrom_app a b 0 0 Ha Hb). Qed.

Lemma balancedFrom_depth (a : QUndoStack) (n d : nat) :
  balancedFrom n a = true -> depthFrom (n + d) a = d.
Proof.
  revert n. induction a as [|c a IH]; intros n Ha; simpl in *.
  - apply Nat.eqb_eq in Ha. now subst n.
  - destruct c; simpl.
    + apply (IH (S n) Ha).
    + destruct n as [|o]; [discriminate|]. simpl. now apply IH.
    + now apply IH.
Qed.

Lemma balanced_depth (a : QUndoStack) (d : nat) :
  balanced a = true -> depthFrom d a = d.
Proof. intros Ha. exact (balancedFrom_depth a 0 d Ha). Qed.

Lemma balanced_pushes (a : QUndoStack) :
  Forall (fun c => isPush c = true) a -> balanced a = true.
Proof.
  unfold balanced. induction 1 as [|c a Hc _ IH]; simpl; [reflexivity|].
  destruct c; try discriminate. exact IH.
Qed.

Lemma balanced_bracket (text : string) (a : QUndoStack) :
  balanced a = true -> balanced (BeginMacro text :: a ++ [EndMacro]) = true.
Proof.
  intros Ha. unfold balanced. simpl.
  exact (balancedFrom_app a [EndMacro] 0 1 Ha eq_refl).
Qed.

End UndoFacts.

Section MacroProperties.

Context {C : Collaborators}.

Import Undo UndoFacts.

Lemma valid_update (h : Heap.t) (p q : ItemPtr) (f : QucsItem -> QucsItem) :
  valid h p -> valid (Heap.update q f h) p.
Proof.
  unfold valid. intros Hp. destruct (Nat.eq_dec q p) as [->|Hne].
  - destruct (Heap.lookup p h) as [it|] eqn:E; [|congruence].
    now rewrite (Heap.lookup_update_same _ _ _ _ E).
  - now rewrite Heap.lookup_update_other.
Qed.

Lemma onItem_all (f : QucsItem -> QucsItem) (its : list ItemPtr) (h : Heap.t)
    (c : list (PortRef * PortRef)) (u : QUndoStack) (s : SchematicScene) :
  Forall (valid h) its ->
  foreach its (fun p s' => onItem p f s') (withWorld h c u s)
  = Some (withWorld (fold_left (fun h' p => Heap.update p f h') its h) c u s).
Proof.
  revert h. induction its as [|p its IH]; intros h Hv; simpl; [reflexivity|].
  inversion Hv as [|? ? Hp Hv']; subst.
  unfold onItem at 1. change (items (withWorld h c u s)) with h.
  unfold valid in Hp. destruct (Heap.lookup p h); [|congruence].
  change (set_items (Heap.update p f h) (withWorld h c u s))
    with (withWorld (Heap.update p f h) c u s).
  apply IH. eapply Forall_impl; [|exact Hv']. intros r. apply valid_update.
Qed.

Lemma valid_updates (f : QucsItem -> QucsItem) (its : list ItemPtr) (h : Heap.t)
    (p : ItemPtr) :
  valid h p -> valid (fold_left (fun h' q => Heap.update q f h') its h) p.
Proof.
  revert h. induction its as [|q its IH]; intros h Hp; simpl; [exact Hp|].
  apply IH. now apply valid_update.
Qed.

Lemma gather_all (its : list ItemPtr) (h : Heap.t) (acc : list QucsItem) :
  Forall (valid h) its ->
  exists l,
    foreach its (fun p acc' => let* it := Heap.lookup p h in Some (acc' ++ [it])) acc
    = Some l.
Proof.
  revert acc. induction its as [|p its IH]; intros acc Hv; simpl.
  - now exists acc.
  - inversion Hv as [|? ? Hp Hv']; subst. unfold valid in Hp.
    destruct (Heap.lookup p h); [|congruence]. now apply IH.
Qed.

Lemma redo_mirror (its : list ItemPtr) (axis : Axis) (h : Heap.t)
    (c : list (PortRef * PortRef)) (u : QUndoStack) (s : SchematicScene) :
  Forall (valid h) its ->
  exists h',
    redo (MirrorItemsCmd its axis) (withWorld h c u s) = Some (withWorld h' c u s)
    /\ (forall p, valid h p -> valid h' p).
Proof.
  intros Hv. unfold redo. change (items (withWorld h c u s)) with h.
  destruct (gather_all its h [] Hv) as [targets ->].
  rewrite (onItem_all _ _ _ _ _ _ Hv).
  eexists. split; [reflexivity|]. intros p. apply valid_updates.
Qed.

Definition mirrorText (axis : Axis) : string :=
  match axis with XAxis => "Mirror X" | YAxis => "Mirror Y" end.

Lemma disconnectPorts_pushes (opt : UndoOption) (ports : list PortRef)
    (c : list (PortRef * PortRef)) :
  Forall (fun x => isPush x = true) (snd (disconnectPorts opt ports c)).
Proof.
  revert c. induction ports as [|p rest IH]; intros c; simpl; [constructor|].
  destruct (getAnyConnectedPort p c) as [other|]; [|apply IH].
  specialize (IH (disconnectFrom p other c)).
  destruct (disconnectPorts opt rest (disconnectFrom p other c)) as [c' u'].
  simpl in *. destruct opt; [constructor; [reflexivity | exact IH] | exact IH].
Qed.

Lemma disconnectAll_pushes (opt : UndoOption) (qItems : list ItemPtr) (h : Heap.t)
    (c : list (PortRef * PortRef)) :
  Forall (fun x => isPush x = true) (snd (disconnectAll opt qItems h c)).
Proof.
  revert c. induction qItems as [|q rest IH]; intros c; simpl; [constructor|].
  destruct (Heap.lookup q h) as [it|]; [|constructor].
  pose proof (disconnectPorts_pushes opt
                (if isComponent it || isWire it then portsOf q it else []) c) as H1.
  destruct (disconnectPorts opt _ c) as [c1 u1].
  specialize (IH c1). destruct (disconnectAll opt rest h c1) as [c2 u2].
  simpl in *. apply Forall_app. now split.
Qed.

Lemma checkAndConnectCalls_balanced (opt : UndoOption) (pairs : list (PortRef * PortRef)) :
  balanced (checkAndConnectCalls opt pairs) = true.
Proof.
  assert (Hp : balanced (map connectPush pairs) = true).
  { apply balanced_pushes. apply Forall_forall. intros x Hx.
    apply in_map_iff in Hx. now destruct Hx as (pq & <- & _). }
  unfold checkAndConnectCalls. destruct opt; [|reflexivity].
  destruct checkAndConnect_macro; [now apply balanced_bracket | exact Hp].
Qed.

Lemma connectAll_balanced (opt : UndoOption) (qItems : list ItemPtr) (h : Heap.t)
    (c : list (PortRef * PortRef)) :
  balanced (snd (connectAll opt qItems h c)) = true.
Proof.
  revert c. induction qItems as [|q rest IH]; intros c; simpl; [reflexivity|].
  destruct (Heap.lookup q h) as [it|]; [|reflexivity].
  destruct (isComponent it || isWire it); [|apply IH].
  specialize (IH (c ++ coincidingPorts h c q)).
  destruct (connectAll opt rest h (c ++ coincidingPorts h c q)) as [c' u'].
  simpl in *. apply balanced_app; [apply checkAndConnectCalls_balanced | exact IH].
Qed.

Lemma connectAll_silent (qItems : list ItemPtr) (h : Heap.t)
    (c : list (PortRef * PortRef)) :
  snd (connectAll DontPushUndoCmd qItems h c) = [].
Proof.
  revert c. induction qItems as [|q rest IH]; intros c; simpl; [reflexivity|].
  destruct (Heap.lookup q h) as [it|]; [|reflexivity].
  destruct (isComponent it || isWire it); [|apply IH].
  specialize (IH (c ++ coincidingPorts h c q)).
  now destruct (connectAll DontPushUndoCmd rest h (c ++ coincidingPorts h c q)).
Qed.

Lemma disconnectPorts_silent (ports : list PortRef) (c : list (PortRef * PortRef)) :
  snd (disconnectPorts DontPushUndoCmd ports c) = [].
Proof.
  revert c. induction ports as [|p rest IH]; intros c; simpl; [reflexivity|].
  destruct (getAnyConnectedPort p c) as [other|]; [|apply IH].
  specialize (IH (disconnectFrom p other c)).
  now destruct (disconnectPorts DontPushUndoCmd rest (disconnectFrom p other c)).
Qed.

Lemma disconnectAll_silent (qItems : list ItemPtr) (h : Heap.t)
    (c : list (PortRef * PortRef)) :
  snd (disconnectAll DontPushUndoCmd qItems h c) = [].
Proof.
  revert c. induction qItems as [|q rest IH]; intros c; simpl; [reflexivity|].
  destruct (Heap.lookup q h) as [it|]; [|reflexivity].
  pose proof (disconnectPorts_silent
                (if isComponent it || isWire it then portsOf q it else []) c) as H1.
  destruct (disconnectPorts DontPushUndoCmd _ c) as [c1 u1].
  specialize (IH c1). destruct (disconnectAll DontPushUndoCmd rest h c1) as [c2 u2].
  simpl in *. now subst.
Qed.

Lemma mirrorItems_calls (its : list ItemPtr) (axis : Axis) (h : Heap.t)
    (c : list (PortRef * PortRef)) (u : QUndoStack) (s : SchematicScene) :
  Forall (valid h) its ->
  (exists s' dcalls ccalls,
      mirrorItems its PushUndoCmd axis (withWorld h c u s) = Some s'
      /\ m_undoStack s'
         = u
           ++ BeginMacro (mirrorText axis)
              :: (BeginMacro "Disconnect items" :: dcalls ++ [EndMacro])
              ++ Push (MirrorItemsCmd its axis)
              :: (BeginMacro "Connect items" :: ccalls ++ [EndMacro])
              ++ [EndMacro]
      /\ Forall (fun c => isPush c = true) dcalls
      /\ balanced ccalls = true
      /\ macroDepth (m_undoStack s') = macroDepth u)
  /\ (exists s',
         mirrorItems its DontPushUndoCmd axis (withWorld h c u s) = Some s'
         /\ m_undoStack s' = u).
Proof.
  intros Hv. split.
  - unfold mirrorItems.
    assert (E0 : match axis with
                 | XAxis => beginMacro "Mirror X" (withWorld h c u s)
                 | YAxis => beginMacro "Mirror Y" (withWorld h c u s)
                 end = withWorld h c (u ++ [BeginMacro (mirrorText axis)]) s)
      by (destruct axis; reflexivity).
    rewrite E0. rewrite (disconnectItems_spec _ _ _ _ _ _ Hv).
    set (d := disconnectAll PushUndoCmd its h c).
    rewrite push_withWorld.
    match goal with
    | |- context [redo _ (withWorld h ?c1 ?u1 s)] =>
        destruct (redo_mirror its axis h c1 u1 s Hv) as (h' & -> & Hv')
    end.
    assert (Hv2 : Forall (valid h') its)
      by (eapply Forall_impl; [|exact Hv]; exact Hv').
    rewrite (connectItems_spec _ _ _ _ _ _ Hv2).
    set (cc := connectAll PushUndoCmd its h' (fst d)).
    rewrite endMacro_withWorld.
    eexists _, (snd d), (snd cc).
    split; [reflexivity|].
    assert (Hd : Forall (fun x => isPush x = true) (snd d))
      by apply disconnectAll_pushes.
    assert (Hc : balanced (snd cc) = true) by apply connectAll_balanced.
    change (m_undoStack (withWorld ?a ?b ?x s)) with x.
    set (calls := BeginMacro (mirrorText axis)
                    :: (BeginMacro "Disconnect items" :: snd d ++ [EndMacro])
                    ++ Push (MirrorItemsCmd its axis)
                    :: (BeginMacro "Connect items" :: snd cc ++ [EndMacro])
                    ++ [EndMacro]).
    assert (Heq : (((u ++ [BeginMacro (mirrorText axis)])
                     ++ bracket PushUndoCmd "Disconnect items" (snd d))
                    ++ [Push (MirrorItemsCmd its axis)])
                   ++ bracket PushUndoCmd "Connect items" (snd cc) ++ [EndMacro]
                  = u ++ calls).
    { subst calls. unfold bracket. simpl. rewrite <- !app_assoc. simpl.
      rewrite <- !app_assoc. reflexivity. }
    rewrite <- !app_assoc in Heq. rewrite <- !app_assoc. rewrite Heq.
    split; [reflexivity|]. split; [exact Hd|]. split; [exact Hc|].
    unfold macroDepth. rewrite depthFrom_app. apply balanced_depth.
    subst calls.
    assert (Hb : balanced
                   (BeginMacro (mirrorText axis)
                      :: ((BeginMacro "Disconnect items" :: snd d ++ [EndMacro])
                            ++ Push (MirrorItemsCmd its axis)
                            :: (BeginMacro "Connect items" :: snd cc ++ [EndMacro]))
                      ++ [EndMacro]) = true).
    { apply balanced_bracket. apply balanced_app.
      - apply balanced_bracket. now apply balanced_pushes.
      - change (balanced ([Push (MirrorItemsCmd its axis)]
                            ++ BeginMacro "Connect items" :: snd cc ++ [EndMacro]) = true).
        apply balanced_app; [reflexivity|]. now apply balanced_bracket. }
    rewrite <- app_assoc in Hb. exact Hb.
  - unfold mirrorItems.
    rewrite (disconnectItems_spec _ _ _ _ _ _ Hv).
    match goal with
    | |- context [redo _ (withWorld h ?c1 ?u1 s)] =>
        destruct (redo_mirror its axis h c1 u1 s Hv) as (h' & -> & Hv')
    end.
    assert (Hv2 : Forall (valid h') its)
      by (eapply Forall_impl; [|exact Hv]; exact Hv').
    rewrite (connectItems_spec _ _ _ _ _ _ Hv2).
    eexists. split; [reflexivity|].
    change (m_undoStack (withWorld ?a ?b ?x s)) with x.
    unfold bracket. rewrite disconnectAll_silent, connectAll_silent.
    now rewrite !app_nil_r.
Qed.


(** C4, amended.  Undo macros nest.  With the undo option [mirrorItems]
    opens its "Mirror X" or "Mirror Y" macro and, while that is open,
    [disconnectItems] opens and closes "Disconnect items" around its
    pushes and [connectItems] opens and closes "Connect items" around
    what [checkAndConnect] does; every macro opened is closed before
    [mirrorItems] returns, so as many macros are open after it as
    before.  Without the undo option nothing reaches the undo stack. *)
Theorem mirrorItems_macros_nest_and_close
    (its : list ItemPtr) (axis : Axis) (s : SchematicScene) :
  Forall (valid (items s)) its ->
  (exists s' dcalls ccalls,
      mirrorItems its PushUndoCmd axis s = Some s'
      /\ m_undoStack s'
         = m_undoStack s
           ++ BeginMacro (mirrorText axis)
              :: (BeginMacro "Disconnect items" :: dcalls ++ [EndMacro])
              ++ Push (MirrorItemsCmd its axis)
              :: (BeginMacro "Connect items" :: ccalls ++ [EndMacro])
              ++ [EndMacro]
      /\ Forall (fun c => isPush c = true) dcalls
      /\ balanced ccalls = true
      /\ macroDepth (m_undoStack s') = macroDepth (m_undoStack s))
  /\ (exists s',
         mirrorItems its DontPushUndoCmd axis s = Some s'
         /\ m_undoStack s' = m_undoStack s).
Proof.
  intros Hv.
  pose proof (mirrorItems_calls its axis (items s) (connections s) (m_undoStack s) s Hv)
    as H.
  rewrite withWorld_id in H. exact H.
Qed.

End MacroProperties.

Module MacroWitnesses.

Import Sample.

(** One resistor on the scene, at address 1. *)
Definition oneResistor : SchematicScene :=
  withItems [component "R" "R1" 0 0 false] emptyScene.

(** C4 as stated fails: mirroring one item with the undo option calls
    [beginMacro("Disconnect items")] while "Mirror X" is open, and
    [beginMacro("Connect items")] again. *)
Lemma mirrorItems_begins_macro_inside_macro :
  exists s',
    mirrorItems [1%nat] PushUndoCmd XAxis oneResistor = Some s'
    /\ firstn 2 (m_undoStack s')
       = [BeginMacro "Mirror X"; BeginMacro "Disconnect items"]
    /\ Undo.nestedBegin (m_undoStack s') = true
    /\ (2 <= Undo.maxDepthFrom 0 (m_undoStack s'))%nat.
Proof.
  eexists. split; [vm_compute; reflexivity|].
  split; [reflexivity|]. split; [reflexivity|]. vm_compute. lia.
Qed.

(** The amended statement at work on the same scene. *)
Lemma mirrorItems_macros_nest_and_close_witness :
  exists s',
    mirrorItems [1%nat] PushUndoCmd XAxis oneResistor = Some s'
    /\ Undo.macroDepth (m_undoStack s') = Undo.macroDepth (m_undoStack oneResistor).
Proof.
  destruct (mirrorItems_macros_nest_and_close [1%nat] XAxis oneResistor)
    as [(s' & dcalls & ccalls & Hm & _ & _ & _ & Hd) _].
  - constructor; [|constructor]. vm_compute. discriminate.
  - exists s'. split; [exact Hm | exact Hd].
Defined.

End MacroWitnesses.

(** ** Runs of the wiring state machine *)

Section WiringRuns.

Context {C : Collaborators}.

(** A wire segment is committed by the command a click pushes: "add
    wire" for the first, "wire state changed" for the following ones. *)
Definition isCommit (c : StackCall) : bool :=
  match c with
  | Push (AddWireCmd _) | Push (WireStateChangeCmd _ _ _) => true
  | _ => false
  end.

Definition committedSegments (u : QUndoStack) : nat :=
  List.length (filter isCommit u).

Definition isPress (e : MouseActionEvent) : bool :=
  match ev_type e with GraphicsSceneMousePress => true | _ => false end.

(** The press [wiringEventMouseClick] takes for a left click, and for a
    right click. *)
Definition isLeftPress (e : MouseActionEvent) : bool :=
  isPress e && hasButton LeftButton e.
Definition isRightPress (e : MouseActionEvent) : bool :=
  isPress e && negb (hasButton LeftButton e) && hasButton RightButton e.

Definition inProgress (s : SchematicScene) : bool :=
  match m_wiringState s with NO_WIRE => false | _ => true end.

(** [m_currentWiringWire->overlap()] *)
Definition overlapping (s : SchematicScene) : bool :=
  match m_currentWiringWire s with
  | Some w =>
      match derefWire w s with
      | Some (_, st, _) => Wire_overlap st
      | None => false
      end
  | None => false
  end.

(** A click that finds the wire in progress overlapping. *)
Definition clickRejected (e : MouseActionEvent) (s : SchematicScene) : bool :=
  (isLeftPress e || isRightPress e) && inProgress s && overlapping s.

(** The command a click that is accepted pushes: [AddWireCmd] for a
    singleton wire, [WireStateChangeCmd] with the stored and the
    current state for a complex one. *)
Definition commitCommand (s : SchematicScene) : option QUndoCommand :=
  let* w := m_currentWiringWire s in
  let* (_, st, store) := derefWire w s in
  match m_wiringState s with
  | NO_WIRE => None
  | SINGLETON_WIRE => Some (AddWireCmd w)
  | COMPLEX_WIRE => Some (WireStateChangeCmd w store st)
  end.

(** What the test [port2()->hasConnection()] of an accepted left click
    finds: whether the free end of the wire has a connection once the
    segment is committed and [checkAndConnect] has been called. *)
Definition port2Connects (s : SchematicScene) : bool :=
  match (let* cmd := commitCommand s in
         let* s1 := wiringEventLeftMouseClickCommonComplexSingletonWire cmd s in
         currentPort2HasConnection s1) with
  | Some conn => conn
  | None => false
  end.

(** A left click on a wire in progress for which that test holds: it
    ends the wire. *)
Definition clickConnects (e : MouseActionEvent) (s : SchematicScene) : bool :=
  isLeftPress e && inProgress s && port2Connects s.

(** A run in which no click is rejected and no left click connects:
    the two tests, taken in the state each event of the run finds. *)
Fixpoint smoothRun (evs : list MouseActionEvent) (s : SchematicScene) : bool :=
  match evs with
  | [] => true
  | e :: rest =>
      negb (clickRejected e s) && negb (clickConnects e s)
      && match wiringEvent e s with
         | Some s' => smoothRun rest s'
         | None => true
         end
  end.

(** A run in which no click is rejected. *)
Fixpoint neverRejected (evs : list MouseActionEvent) (s : SchematicScene) : bool :=
  match evs with
  | [] => true
  | e :: rest =>
      negb (clickRejected e s)
      && match wiringEvent e s with
         | Some s' => neverRejected rest s'
         | None => true
         end
  end.

(** The lines of the wires that are on the scene. *)
Definition wireLinesOnScene (s : SchematicScene) : list WireLine :=
  flat_map (fun e => match body (snd e) with
                     | Wire st _ => wLines st
                     | _ => []
                     end)
           (sceneItems s).

(** What the wire class has to keep for [wLinesRef.last()] to be there:
    a wire is never without lines. *)
Definition wireKeepsLines : Prop :=
  (forall a b, wLines (Wire_init a b) <> [])
  /\ (forall p d, wLines d <> [] -> wLines (Wire_movePort2 p d) <> [])
  /\ (forall d, wLines d <> [] -> wLines (Wire_removeNullLines d) <> []).

(** The grid can be snapped to: no spacing is zero. *)
Definition gridUsable (s : SchematicScene) : Prop :=
  m_snapToGrid s = false
  \/ (Grid.m_gridWidth (m_grid s) <> 0 /\ Grid.m_gridHeight (m_grid s) <> 0).

Lemma snapAxis_defined (ty : Grid.GridType) (w x : Z) :
  w <> 0 -> exists sx, Grid.snapAxis ty w x = Some sx.
Proof.
  intros Hw. unfold Grid.snapAxis.
  destruct (Z.eqb_spec w 0); [contradiction|]. destruct ty; eexists; reflexivity.
Qed.

Lemma smartNearingGridPoint_defined (p : QPointF) (s : SchematicScene) :
  gridUsable s -> exists q, smartNearingGridPoint p s = Some q.
Proof.
  unfold gridUsable, smartNearingGridPoint. intros [-> | [Hw Hh]].
  - now exists p.
  - destruct (m_snapToGrid s); [|now exists p].
    unfold Grid.nearingGridPoint.
    destruct (snapAxis_defined (Grid.m_gridType (m_grid s)) _ (xi (toPoint p)) Hw) as [sx ->].
    destruct (snapAxis_defined (Grid.m_gridType (m_grid s)) _ (yi (toPoint p)) Hh) as [sy ->].
    eexists. reflexivity.
Qed.

Lemma checkAndConnect_eq (opt : UndoOption) (item : ItemPtr) (s : SchematicScene) :
  checkAndConnect opt item s
  = Some (withWorld (items s)
            (connections s ++ coincidingPorts (items s) (connections s) item)
            (m_undoStack s
               ++ checkAndConnectCalls opt (coincidingPorts (items s) (connections s) item))
            s).
Proof.
  pose proof (checkAndConnect_spec opt item (items s) (connections s) (m_undoStack s) s)
    as H.
  now rewrite withWorld_id in H.
Qed.

Lemma committedSegments_app (a b : QUndoStack) :
  committedSegments (a ++ b) = (committedSegments a + committedSegments b)%nat.
Proof. unfold committedSegments. now rewrite filter_app, length_app. Qed.

Lemma checkAndConnectCalls_no_commit (opt : UndoOption) (pairs : list (PortRef * PortRef)) :
  committedSegments (checkAndConnectCalls opt pairs) = O.
Proof.
  assert (Hp : committedSegments (map connectPush pairs) = O).
  { unfold committedSegments. induction pairs as [|pq pairs IH]; simpl; auto. }
  unfold checkAndConnectCalls. destruct opt; [|reflexivity].
  destruct checkAndConnect_macro; [|exact Hp].
  change (BeginMacro "" :: map connectPush pairs ++ [EndMacro])
    with ([BeginMacro ""] ++ map connectPush pairs ++ [EndMacro]).
  rewrite !committedSegments_app, Hp. reflexivity.
Qed.

(** The wires the commits on an undo stack are of, in their order. *)
Definition commitsOf (u : QUndoStack) : list ItemPtr :=
  flat_map (fun c => match c with
                     | Push (AddWireCmd w) | Push (WireStateChangeCmd w _ _) => [w]
                     | _ => []
                     end) u.

Lemma commitsOf_app (a b : QUndoStack) :
  commitsOf (a ++ b) = (commitsOf a ++ commitsOf b)%list.
Proof. unfold commitsOf. apply flat_map_app. Qed.

Lemma checkAndConnectCalls_commitsOf (opt : UndoOption) (pairs : list (PortRef * PortRef)) :
  commitsOf (checkAndConnectCalls opt pairs) = [].
Proof.
  assert (Hp : commitsOf (map connectPush pairs) = []).
  { unfold commitsOf. induction pairs as [|pq pairs IH]; simpl; auto. }
  unfold checkAndConnectCalls. destruct opt; [|reflexivity].
  destruct checkAndConnect_macro; [|exact Hp].
  change (BeginMacro "" :: map connectPush pairs ++ [EndMacro])
    with ([BeginMacro ""] ++ map connectPush pairs ++ [EndMacro]).
  rewrite !commitsOf_app, Hp. reflexivity.
Qed.

(** A command that commits a segment of wire [w]. *)
Definition commitsWire (w : ItemPtr) (cmd : QUndoCommand) : Prop :=
  cmd = AddWireCmd w \/ exists a b, cmd = WireStateChangeCmd w a b.

(** The state of the wire once the command is done. *)
Definition stateAfter (cmd : QUndoCommand) (st : WireData) : WireData :=
  match cmd with
  | WireStateChangeCmd _ _ final => final
  | _ => Wire_removeNullLines st
  end.

(** The common part of a click that is accepted: one segment more is
    committed, to the wire, the macro is closed, the wire is on the
    scene and no other item is touched. *)
Lemma commit_spec (cmd : QUndoCommand) (s : SchematicScene) (w : ItemPtr)
    (it : QucsItem) (st store : WireData) :
  m_currentWiringWire s = Some w ->
  derefWire w s = Some (it, st, store) ->
  commitsWire w cmd ->
  onScene it = true ->
  exists h c u it',
    wiringEventLeftMouseClickCommonComplexSingletonWire cmd s
    = Some (withWorld h c (m_undoStack s ++ u) s)
    /\ c = (connections s ++ coincidingPorts h (connections s) w)%list
    /\ committedSegments u = 1%nat
    /\ commitsOf u = [w]
    /\ Heap.lookup w h = Some it'
    /\ body it' = Wire (stateAfter cmd st) store
    /\ onScene it' = true
    /\ (forall p, p <> w -> Heap.lookup p h = Heap.lookup p (items s)).
Proof.
  intros Hc Hd Hcmd Hon.
  unfold wiringEventLeftMouseClickCommonComplexSingletonWire.
  change (m_currentWiringWire (beginMacro "Add wiring control point" s))
    with (m_currentWiringWire s).
  rewrite Hc.
  set (s0 := beginMacro "Add wiring control point" s).
  assert (Hd0 : derefWire w s0 = Some (it, st, store)) by exact Hd.
  destruct (onWire_spec w (fun st0 store0 => (Wire_removeNullLines st0, store0))
                        s0 _ _ _ Hd0) as (s1 & E1 & Hs1 & Hd1).
  unfold Wire_removeNullLines_at. rewrite E1.
  simpl fst in *. simpl snd in *.
  assert (Hf1 : forall p, p <> w -> Heap.lookup p (items s1) = Heap.lookup p (items s)).
  { intros p Hp. rewrite Hs1. simpl. apply Heap.lookup_update_other. congruence. }
  assert (Hpush : exists h2 it2,
             push cmd s1 = Some (set_items h2 (set_m_undoStack (m_undoStack s1 ++ [Push cmd]) s1))
             /\ Heap.lookup w h2 = Some it2
             /\ body it2 = Wire (stateAfter cmd st) store
             /\ onScene it2 = true
             /\ (forall p, p <> w -> Heap.lookup p h2 = Heap.lookup p (items s))).
  { unfold push. set (s1' := set_m_undoStack _ s1).
    assert (Hd1' : derefWire w s1' = Some (set_body (Wire (Wire_removeNullLines st) store) it,
                                            Wire_removeNullLines st, store)) by exact Hd1.
    destruct Hcmd as [-> | (a & b & ->)].
    - apply derefWire_spec in Hd1'. destruct Hd1' as [Hl1 Hb1].
      simpl. rewrite (onItem_spec _ _ _ _ Hl1).
      eexists _, _. split; [reflexivity|].
      split; [eapply Heap.lookup_update_same; exact Hl1|].
      split; [exact Hb1|]. split; [reflexivity|].
      intros p Hp. rewrite Heap.lookup_update_other by congruence. now apply Hf1.
    - destruct (onWire_spec w (fun _ store0 => (b, store0)) s1' _ _ _ Hd1')
        as (s2 & E2 & Hs2 & Hd2).
      simpl. unfold Wire_setState. rewrite E2, Hs2.
      apply derefWire_spec in Hd2. destruct Hd2 as [Hl2 Hb2].
      eexists _, _. split; [reflexivity|].
      rewrite Hs2 in Hl2. split; [exact Hl2|]. split; [exact Hb2|].
      split; [exact Hon|].
      intros p Hp. rewrite Heap.lookup_update_other by congruence. now apply Hf1. }
  destruct Hpush as (h2 & it2 & -> & Hl2 & Hb2 & Hon2 & Hf2).
  rewrite checkAndConnect_eq.
  set (pairs := coincidingPorts _ _ w).
  eexists h2, _, _, it2.
  split.
  { rewrite endMacro_withWorld. rewrite Hs1. subst s0. simpl.
    unfold withWorld. simpl. rewrite <- !app_assoc. reflexivity. }
  split; [subst pairs; rewrite Hs1; reflexivity|].
  split.
  { rewrite !committedSegments_app.
    pose proof (checkAndConnectCalls_no_commit PushUndoCmd pairs) as Hn.
    unfold checkAndConnectCalls in Hn. rewrite Hn.
    destruct Hcmd as [-> | (a & b & ->)]; reflexivity. }
  split.
  { rewrite !commitsOf_app.
    pose proof (checkAndConnectCalls_commitsOf PushUndoCmd pairs) as Hn.
    unfold checkAndConnectCalls in Hn. rewrite Hn.
    destruct Hcmd as [-> | (a & b & ->)]; reflexivity. }
  repeat (split; [assumption|]). exact Hf2.
Qed.

(** Finalizing shows the wire and detaches it: it stays on the scene. *)
Lemma finalize_spec (s : SchematicScene) (w : ItemPtr) (it : QucsItem)
    (st store : WireData) :
  m_currentWiringWire s = Some w ->
  derefWire w s = Some (it, st, store) ->
  exists h it',
    wiringEventMouseClickFinalize s = Some (set_m_currentWiringWire None (set_items h s))
    /\ Heap.lookup w h = Some it'
    /\ isWire it' = true /\ visible it' = true /\ onScene it' = onScene it
    /\ (forall p, p <> w -> Heap.lookup p h = Heap.lookup p (items s)).
Proof.
  intros Hc Hd. unfold wiringEventMouseClickFinalize. rewrite Hc.
  pose proof Hd as Hd'. apply derefWire_spec in Hd'. destruct Hd' as [Hl Hb].
  unfold Wire_show. rewrite (onItem_spec _ _ _ _ Hl).
  set (s1 := set_items _ s).
  assert (Hd1 : derefWire w s1 = Some (setVisible true it, st, store)).
  { apply derefWire_spec. split; [|exact Hb].
    subst s1. simpl. now apply Heap.lookup_update_same. }
  rewrite Hd1.
  destruct (onWire_spec w (fun st0 store0 => (Wire_movePort1 (port1Pos st) st0, store0))
                        s1 _ _ _ Hd1) as (s2 & E2 & Hs2 & Hd2).
  unfold Wire_movePort1_at. rewrite E2. simpl fst in Hd2. simpl snd in Hd2.
  destruct (onWire_spec w (fun st0 store0 => (Wire_removeNullLines st0, store0))
                        s2 _ _ _ Hd2) as (s3 & E3 & Hs3 & Hd3).
  unfold Wire_removeNullLines_at. rewrite E3.
  simpl fst in Hd3. simpl snd in Hd3.
  apply derefWire_spec in Hd3. destruct Hd3 as [Hl3 Hb3].
  eexists _, _. split; [rewrite Hs3, Hs2; subst s1; reflexivity|].
  split; [rewrite Hs3, Hs2 in Hl3; subst s1; exact Hl3|].
  split; [unfold isWire; now rewrite Hb3|].
  split; [reflexivity|]. split; [reflexivity|].
  intros p Hp. simpl. rewrite !Heap.lookup_update_other by congruence. reflexivity.
Qed.

Lemma addSegment_spec (s : SchematicScene) (w : ItemPtr) (it : QucsItem)
    (st store : WireData) :
  m_currentWiringWire s = Some w ->
  derefWire w s = Some (it, st, store) ->
  wLines st <> [] ->
  exists h it' st',
    wiringEventLeftMouseClickAddSegment s = Some (set_items h s)
    /\ Heap.lookup w h = Some it'
    /\ body it' = Wire st' st
    /\ wLines st' <> []
    /\ onScene it' = onScene it
    /\ (forall p, p <> w -> Heap.lookup p h = Heap.lookup p (items s)).
Proof.
  intros Hc Hd Hne. unfold wiringEventLeftMouseClickAddSegment. rewrite Hc.
  destruct (onWire_spec w (fun st0 _ => (st0, st0)) s _ _ _ Hd) as (s1 & E1 & Hs1 & Hd1).
  unfold Wire_storeState. rewrite E1. simpl fst in Hd1. simpl snd in Hd1. rewrite Hd1.
  destruct (rev (wLines st)) as [|lastLine others] eqn:Er.
  { exfalso. apply Hne. rewrite <- (rev_involutive (wLines st)), Er. reflexivity. }
  match goal with
  | |- context [onWire w ?f s1] =>
      destruct (onWire_spec w f s1 _ _ _ Hd1) as (s2 & E2 & Hs2 & Hd2)
  end.
  rewrite E2. simpl fst in Hd2. simpl snd in Hd2.
  apply derefWire_spec in Hd2. destruct Hd2 as [Hl2 Hb2].
  subst s2. subst s1.
  eexists _, _, _. split; [reflexivity|].
  split; [exact Hl2|]. split; [exact Hb2|].
  split.
  { simpl. intros Hnil. apply app_eq_nil in Hnil. destruct Hnil as [_ Hnil]. discriminate. }
  split; [reflexivity|].
  intros p Hp. simpl. rewrite !Heap.lookup_update_other by congruence. reflexivity.
Qed.

Lemma derefWire_of_lookup (w : ItemPtr) (s : SchematicScene) (it : QucsItem)
    (st store : WireData) :
  Heap.lookup w (items s) = Some it -> body it = Wire st store ->
  derefWire w s = Some (it, st, store).
Proof. intros Hl Hb. apply derefWire_spec. now split. Qed.

(** The command of a click on a wire in progress. *)
Lemma commitCommand_inProgress (s : SchematicScene) (w : ItemPtr) (it : QucsItem)
    (st store : WireData) :
  inProgress s = true ->
  m_currentWiringWire s = Some w ->
  derefWire w s = Some (it, st, store) ->
  exists cmd,
    commitCommand s = Some cmd /\ commitsWire w cmd
    /\ (cmd = AddWireCmd w /\ m_wiringState s = SINGLETON_WIRE
        \/ cmd = WireStateChangeCmd w store st /\ m_wiringState s = COMPLEX_WIRE).
Proof.
  intros Hp Hc Hd. unfold commitCommand. rewrite Hc, Hd.
  unfold inProgress in Hp. destruct (m_wiringState s); [discriminate| |].
  - exists (AddWireCmd w). split; [reflexivity|]. split; [now left|]. now left.
  - exists (WireStateChangeCmd w store st). split; [reflexivity|].
    split; [right; now eexists _, _|]. now right.
Qed.

(** An accepted left click on a wire in progress: one segment more is
    committed to the wire, which is on the scene; the wire is ended
    exactly when its free end has found a connection, and goes on as a
    complex wire otherwise. *)
Lemma leftClick_inProgress (pos : QPointF) (s : SchematicScene)
    (w : ItemPtr) (it : QucsItem) (st store : WireData) :
  inProgress s = true ->
  m_currentWiringWire s = Some w ->
  derefWire w s = Some (it, st, store) ->
  onScene it = true ->
  Wire_overlap st = false ->
  (port2Connects s = true ->
   exists s' it',
     wiringEventLeftMouseClick pos s = Some s'
     /\ m_grid s' = m_grid s /\ m_snapToGrid s' = m_snapToGrid s
     /\ committedSegments (m_undoStack s') = S (committedSegments (m_undoStack s))
     /\ commitsOf (m_undoStack s') = (commitsOf (m_undoStack s) ++ [w])%list
     /\ (forall p, p <> w -> Heap.lookup p (items s') = Heap.lookup p (items s))
     /\ m_wiringState s' = NO_WIRE /\ m_currentWiringWire s' = None
     /\ Heap.lookup w (items s') = Some it'
     /\ isWire it' = true /\ onScene it' = true /\ visible it' = true)
  /\ (port2Connects s = false ->
      wireKeepsLines -> wLines st <> [] ->
      exists s' it' st' store',
        wiringEventLeftMouseClick pos s = Some s'
        /\ m_grid s' = m_grid s /\ m_snapToGrid s' = m_snapToGrid s
        /\ committedSegments (m_undoStack s') = S (committedSegments (m_undoStack s))
        /\ commitsOf (m_undoStack s') = (commitsOf (m_undoStack s) ++ [w])%list
        /\ (forall p, p <> w -> Heap.lookup p (items s') = Heap.lookup p (items s))
        /\ m_wiringState s' = COMPLEX_WIRE /\ m_currentWiringWire s' = Some w
        /\ derefWire w s' = Some (it', st', store')
        /\ wLines st' <> [] /\ onScene it' = true).
Proof.
  intros Hp Hc Hd Hon Ho.
  destruct (commitCommand_inProgress s w it st store Hp Hc Hd) as (cmd & Ecmd & Hcmd & Hkind).
  assert (Hclick : wiringEventLeftMouseClick pos s
                   = let* s1 := wiringEventLeftMouseClickCommonComplexSingletonWire cmd s in
                     let* conn := currentPort2HasConnection s1 in
                     if conn
                     then let* s2 := wiringEventMouseClickFinalize s1 in
                          Some (set_m_wiringState NO_WIRE s2)
                     else let* s2 := wiringEventLeftMouseClickAddSegment s1 in
                          Some (set_m_wiringState COMPLEX_WIRE s2)).
  { unfold wiringEventLeftMouseClick.
    destruct Hkind as [[-> ->] | [-> ->]]; now rewrite Hc, Hd, Ho. }
  rewrite Hclick. unfold port2Connects. rewrite Ecmd.
  destruct (commit_spec cmd s w it st store Hc Hd Hcmd Hon)
    as (h & c & u & it1 & -> & Ec & Hu & Hcu & Hl1 & Hb1 & Hon1 & Hf1).
  set (s1 := withWorld h c (m_undoStack s ++ u) s).
  assert (Hc1 : m_currentWiringWire s1 = Some w) by exact Hc.
  assert (Hd1 : derefWire w s1 = Some (it1, stateAfter cmd st, store))
    by (apply derefWire_of_lookup; assumption).
  unfold currentPort2HasConnection. rewrite Hc1, Hd1.
  split.
  - intros ->.
    destruct (finalize_spec s1 w _ _ _ Hc1 Hd1) as (h2 & it2 & -> & Hl2 & Hw2 & Hv2 & Hon2 & Hf2).
    eexists _, it2. split; [reflexivity|]. simpl.
    split; [reflexivity|]. split; [reflexivity|].
    split; [rewrite committedSegments_app, Hu; lia|].
    split; [now rewrite commitsOf_app, Hcu|].
    split; [intros p Hp'; rewrite Hf2 by exact Hp'; now apply Hf1|].
    split; [reflexivity|]. split; [reflexivity|].
    split; [exact Hl2|]. split; [exact Hw2|]. split; [congruence | exact Hv2].
  - intros -> (_ & _ & Hrm) Hne.
    assert (Hafter : wLines (stateAfter cmd st) <> []).
    { destruct Hkind as [[-> _] | [-> _]]; simpl; [now apply Hrm | exact Hne]. }
    destruct (addSegment_spec s1 w _ _ _ Hc1 Hd1 Hafter)
      as (h2 & it2 & st2 & -> & Hl2 & Hb2 & Hn2 & Hon2 & Hf2).
    eexists _, it2, st2, (stateAfter cmd st). split; [reflexivity|]. simpl.
    split; [reflexivity|]. split; [reflexivity|].
    split; [rewrite committedSegments_app, Hu; lia|].
    split; [now rewrite commitsOf_app, Hcu|].
    split; [intros p Hp'; rewrite Hf2 by exact Hp'; now apply Hf1|].
    split; [reflexivity|]. split; [exact Hc|].
    split; [apply derefWire_of_lookup; assumption|].
    split; [exact Hn2 | congruence].
Qed.

(** An accepted right click on a wire in progress. *)
Lemma rightClick_inProgress (s : SchematicScene)
    (w : ItemPtr) (it : QucsItem) (st store : WireData) :
  inProgress s = true ->
  m_currentWiringWire s = Some w ->
  derefWire w s = Some (it, st, store) ->
  onScene it = true ->
  Wire_overlap st = false ->
  exists s' it',
    wiringEventRightMouseClick s = Some s'
    /\ m_wiringState s' = NO_WIRE /\ m_currentWiringWire s' = None
    /\ committedSegments (m_undoStack s') = S (committedSegments (m_undoStack s))
    /\ commitsOf (m_undoStack s') = (commitsOf (m_undoStack s) ++ [w])%list
    /\ (forall p, p <> w -> Heap.lookup p (items s') = Heap.lookup p (items s))
    /\ Heap.lookup w (items s') = Some it'
    /\ isWire it' = true /\ onScene it' = true /\ visible it' = true.
Proof.
  intros Hp Hc Hd Hon Ho.
  destruct (commitCommand_inProgress s w it st store Hp Hc Hd) as (cmd & Ecmd & Hcmd & Hkind).
  assert (Hclick : wiringEventRightMouseClick s
                   = let* s1 := wiringEventLeftMouseClickCommonComplexSingletonWire cmd s in
                     let* s2 := wiringEventMouseClickFinalize s1 in
                     Some (set_m_wiringState NO_WIRE s2)).
  { unfold wiringEventRightMouseClick.
    destruct Hkind as [[-> ->] | [-> ->]]; now rewrite Hc, Hd, Ho. }
  rewrite Hclick.
  destruct (commit_spec cmd s w it st store Hc Hd Hcmd Hon)
    as (h & c & u & it1 & -> & Ec & Hu & Hcu & Hl1 & Hb1 & Hon1 & Hf1).
  set (s1 := withWorld h c (m_undoStack s ++ u) s).
  assert (Hc1 : m_currentWiringWire s1 = Some w) by exact Hc.
  assert (Hd1 : derefWire w s1 = Some (it1, stateAfter cmd st, store))
    by (apply derefWire_of_lookup; assumption).
  destruct (finalize_spec s1 w _ _ _ Hc1 Hd1) as (h2 & it2 & -> & Hl2 & Hw2 & Hv2 & Hon2 & Hf2).
  eexists _, it2. split; [reflexivity|]. simpl.
  split; [reflexivity|]. split; [reflexivity|].
  split; [rewrite committedSegments_app, Hu; lia|].
  split; [now rewrite commitsOf_app, Hcu|].
  split; [intros p Hp'; rewrite Hf2 by exact Hp'; now apply Hf1|].
  split; [exact Hl2|]. split; [exact Hw2|]. split; [congruence | exact Hv2].
Qed.

Lemma foreach_app {A S : Type} (f : A -> S -> option S) (a b : list A) (s : S) :
  foreach (a ++ b) f s = let* s' := foreach a f s in foreach b f s'.
Proof.
  revert s. induction a as [|x a IH]; intros s; simpl; [reflexivity|].
  destruct (f x s); [apply IH | reflexivity].
Qed.

(** What a run keeps track of.  Before the first left click the scene
    is as it was.  After [k] left clicks, [k] at least one: the wire
    the first click made, at the next free address of the starting
    scene, is in progress, on the scene and not without lines; no other
    item has changed; and [k - 1] segments are committed, all of them
    to this wire. *)
Definition runInv (s0 : SchematicScene) (k : nat) (s : SchematicScene) : Prop :=
  m_grid s = m_grid s0 /\ m_snapToGrid s = m_snapToGrid s0
  /\ match k with
     | O => s = s0
     | S k' =>
         inProgress s = true
         /\ m_currentWiringWire s = Some (Heap.fresh (items s0))
         /\ (exists it st store,
                derefWire (Heap.fresh (items s0)) s = Some (it, st, store)
                /\ wLines st <> [] /\ onScene it = true)
         /\ (forall p, p <> Heap.fresh (items s0) ->
                       Heap.lookup p (items s) = Heap.lookup p (items s0))
         /\ committedSegments (m_undoStack s)
            = (committedSegments (m_undoStack s0) + k')%nat
         /\ commitsOf (m_undoStack s)
            = (commitsOf (m_undoStack s0) ++ repeat (Heap.fresh (items s0)) k')%list
     end.

Lemma runInv_gridUsable (s0 s : SchematicScene) (k : nat) :
  gridUsable s0 -> runInv s0 k s -> gridUsable s.
Proof. unfold gridUsable. intros H (Hg & Hs & _). now rewrite Hg, Hs. Qed.

Lemma repeat_snoc {A : Type} (a : A) (k : nat) : (repeat a k ++ [a])%list = repeat a (S k).
Proof. induction k as [|k IH]; simpl; [reflexivity | now rewrite IH]. Qed.

(** One event of a smooth run. *)
Lemma run_step (Hk : wireKeepsLines) (s0 s : SchematicScene) (k : nat)
    (e : MouseActionEvent) :
  gridUsable s0 ->
  m_wiringState s0 = NO_WIRE ->
  runInv s0 k s ->
  (isPress e = true -> isLeftPress e = true) ->
  clickRejected e s = false ->
  clickConnects e s = false ->
  exists s',
    wiringEvent e s = Some s'
    /\ runInv s0 (if isLeftPress e then S k else k) s'.
Proof.
  intros Hgrid Hst0 Hinv Hleft Hrej Hconn.
  pose proof (runInv_gridUsable _ _ _ Hgrid Hinv) as Hg.
  destruct (smartNearingGridPoint_defined (scenePos e) s Hg) as [pos Hpos].
  unfold clickConnects in Hconn. unfold wiringEvent. rewrite Hpos.
  unfold clickRejected in Hrej. unfold isLeftPress, isRightPress, isPress in *.
  destruct Hinv as (Hig & His & Hinv).
  destruct (ev_type e) eqn:Hty.
  - (* press *)
    specialize (Hleft eq_refl). simpl in Hleft. rewrite Hleft in *.
    simpl in Hrej, Hconn. unfold wiringEventMouseClick. rewrite Hleft.
    destruct k as [|k'].
    + subst s. unfold wiringEventLeftMouseClick. rewrite Hst0.
      unfold Heap.alloc.
      eexists. split; [reflexivity|].
      split; [reflexivity|]. split; [reflexivity|].
      pose proof (Heap.lookup_alloc_new (newWire pos pos) (items s0)) as Hnew.
      unfold Heap.alloc in Hnew. simpl fst in Hnew. simpl snd in Hnew.
      split; [reflexivity|]. split; [reflexivity|].
      split.
      { exists (newWire pos pos), (Wire_init pos pos), (Wire_init pos pos).
        split; [apply derefWire_of_lookup; [exact Hnew | reflexivity]|].
        split; [apply Hk | reflexivity]. }
      split.
      { intros p Hp. simpl.
        exact (Heap.lookup_alloc_other (newWire pos pos) (items s0) p Hp). }
      simpl. split; [lia | now rewrite app_nil_r].
    + destruct Hinv as (Hp & Hcur & (it & st & store & Hd & Hne & Hon) & Hfr & Hcom & Hcs).
      rewrite Hp in Hrej, Hconn. simpl in Hrej, Hconn.
      unfold overlapping in Hrej. rewrite Hcur, Hd in Hrej.
      destruct (leftClick_inProgress pos s _ it st store Hp Hcur Hd Hon Hrej) as [_ Hgo].
      destruct (Hgo Hconn Hk Hne)
        as (s' & it' & st' & store' & Hs' & Hg' & Hsn' & Hc' & Hcs' & Hf' & Hst' & Hcur'
            & Hd' & Hne' & Hon').
      exists s'. split; [exact Hs'|].
      split; [congruence|]. split; [congruence|].
      split; [unfold inProgress; now rewrite Hst'|]. split; [exact Hcur'|].
      split; [now exists it', st', store'|].
      split; [intros p Hp'; rewrite Hf' by exact Hp'; now apply Hfr|].
      split; [rewrite Hc', Hcom; lia|].
      rewrite Hcs', Hcs, <- app_assoc, repeat_snoc. reflexivity.
  - (* move *)
    simpl. clear Hleft Hrej Hconn. unfold wiringEventMouseMove.
    destruct k as [|k'].
    + subst s. rewrite Hst0. exists s0. split; [reflexivity|]. now repeat split.
    + destruct Hinv as (Hp & Hcur & (it & st & store & Hd & Hne & Hon) & Hfr & Hcom & Hcs).
      remember (Heap.fresh (items s0)) as w eqn:Ew.
      unfold inProgress in Hp.
      assert (E : (let* w0 := m_currentWiringWire s in
                   let* it0 := Heap.lookup w0 (items s) in
                   Wire_movePort2_at w0 (mapFromScene it0 pos) s)
                  = Wire_movePort2_at w (mapFromScene it pos) s).
      { rewrite Hcur. apply derefWire_spec in Hd. destruct Hd as [Hl _]. now rewrite Hl. }
      destruct (onWire_spec w (fun st0 store0 =>
                                 (Wire_movePort2 (mapFromScene it pos) st0, store0))
                            s _ _ _ Hd) as (s' & E' & Hs' & Hd').
      unfold Wire_movePort2_at in E. rewrite E' in E.
      exists s'. split; [destruct (m_wiringState s); [discriminate | exact E | exact E]|].
      simpl fst in Hd'. simpl snd in Hd'. unfold runInv. rewrite <- Ew.
      assert (Hfields : m_grid s' = m_grid s /\ m_snapToGrid s' = m_snapToGrid s
                        /\ m_wiringState s' = m_wiringState s
                        /\ m_currentWiringWire s' = m_currentWiringWire s
                        /\ m_undoStack s' = m_undoStack s)
        by (rewrite Hs'; repeat split).
      destruct Hfields as (F1 & F2 & F3 & F4 & F5).
      split; [congruence|]. split; [congruence|].
      split; [unfold inProgress; now rewrite F3|]. split; [rewrite F4; exact Hcur|].
      split.
      { eexists _, _, _. split; [exact Hd'|]. split; [|exact Hon].
        destruct Hk as (_ & Hm & _). now apply Hm. }
      split.
      { intros p Hp'. rewrite Hs'. simpl.
        rewrite Heap.lookup_update_other by congruence. now apply Hfr. }
      split; [now rewrite F5 | now rewrite F5].
  - exists s. split; [reflexivity|]. now repeat split.
  - exists s. split; [reflexivity|]. now repeat split.
Qed.

(** What the test of a left click comes to: the free end of the wire,
    its second port, has a connection among those there were and those
    [checkAndConnect] has found for the wire once the segment is
    committed. *)
Lemma port2Connects_spec (s : SchematicScene) (w : ItemPtr) (it : QucsItem)
    (st store : WireData) :
  inProgress s = true ->
  m_currentWiringWire s = Some w ->
  derefWire w s = Some (it, st, store) ->
  onScene it = true ->
  exists h,
    (forall p, p <> w -> Heap.lookup p h = Heap.lookup p (items s))
    /\ port2Connects s
       = hasConnection (w, 1%nat)
           (connections s ++ coincidingPorts h (connections s) w).
Proof.
  intros Hp Hc Hd Hon.
  destruct (commitCommand_inProgress s w it st store Hp Hc Hd) as (cmd & Ecmd & Hcmd & _).
  destruct (commit_spec cmd s w it st store Hc Hd Hcmd Hon)
    as (h & c & u & it1 & E & Ec & _ & _ & Hl1 & Hb1 & _ & Hf1).
  exists h. split; [exact Hf1|].
  unfold port2Connects. rewrite Ecmd, E.
  set (s1 := withWorld h c (m_undoStack s ++ u) s).
  assert (Hc1 : m_currentWiringWire s1 = Some w) by exact Hc.
  assert (Hd1 : derefWire w s1 = Some (it1, stateAfter cmd st, store))
    by (apply derefWire_of_lookup; assumption).
  unfold currentPort2HasConnection. rewrite Hc1, Hd1. subst s1. simpl. now rewrite Ec.
Qed.

Lemma set_m_wiringState_same (s : SchematicScene) :
  set_m_wiringState (m_wiringState s) s = s.
Proof. now destruct s. Qed.

(** The events of a smooth run before the last. *)
Lemma run_events (Hk : wireKeepsLines) (s0 : SchematicScene)
    (finish : MouseActionEvent) (evs : list MouseActionEvent) :
  gridUsable s0 ->
  m_wiringState s0 = NO_WIRE ->
  forall (k : nat) (s : SchematicScene),
    runInv s0 k s ->
    Forall (fun e => isPress e = true -> isLeftPress e = true) evs ->
    smoothRun (evs ++ [finish]) s = true ->
    exists s1,
      foreach evs wiringEvent s = Some s1
      /\ runInv s0 (k + List.length (filter isLeftPress evs)) s1
      /\ smoothRun [finish] s1 = true.
Proof.
  intros Hgrid Hst0. induction evs as [|e evs IH]; intros k s Hinv Hev Hsm.
  - exists s. simpl. rewrite Nat.add_0_r. auto.
  - inversion Hev as [|? ? He Hev']; subst.
    simpl in Hsm. apply andb_prop in Hsm. destruct Hsm as [Hsm Hrest].
    apply andb_prop in Hsm. destruct Hsm as [Hrej Hconn].
    apply negb_true_iff in Hrej. apply negb_true_iff in Hconn.
    destruct (run_step Hk s0 s k e Hgrid Hst0 Hinv He Hrej Hconn) as (s' & Hs' & Hinv').
    rewrite Hs' in Hrest.
    destruct (IH _ _ Hinv' Hev' Hrest) as (s1 & Hrun & Hinv1 & Hfin).
    exists s1. simpl. rewrite Hs'. split; [exact Hrun|]. split; [|exact Hfin].
    destruct (isLeftPress e); simpl.
    + now rewrite Nat.add_succ_r.
    + exact Hinv1.
Qed.

(** A left click in [NO_WIRE] starts a wire and commits nothing. *)
Lemma leftClick_starts_a_wire (e : MouseActionEvent) (s : SchematicScene) :
  gridUsable s ->
  isLeftPress e = true ->
  m_wiringState s = NO_WIRE ->
  exists s' pos,
    smartNearingGridPoint (scenePos e) s = Some pos
    /\ wiringEvent e s = Some s'
    /\ m_wiringState s' = SINGLETON_WIRE
    /\ m_currentWiringWire s' = Some (Heap.fresh (items s))
    /\ Heap.lookup (Heap.fresh (items s)) (items s') = Some (newWire pos pos)
    /\ (forall p, p <> Heap.fresh (items s) ->
                  Heap.lookup p (items s') = Heap.lookup p (items s))
    /\ m_undoStack s' = m_undoStack s.
Proof.
  intros Hg Hl Hst.
  destruct (smartNearingGridPoint_defined (scenePos e) s Hg) as [pos Hpos].
  unfold isLeftPress, isPress in Hl.
  destruct (ev_type e) eqn:Hty; try discriminate. simpl in Hl.
  unfold wiringEvent. rewrite Hpos, Hty. unfold wiringEventMouseClick. rewrite Hl.
  unfold wiringEventLeftMouseClick. rewrite Hst. unfold Heap.alloc.
  eexists _, pos. split; [reflexivity|]. split; [reflexivity|].
  split; [reflexivity|]. split; [reflexivity|].
  split; [exact (Heap.lookup_alloc_new (newWire pos pos) (items s))|].
  split; [|reflexivity].
  intros p Hp. exact (Heap.lookup_alloc_other (newWire pos pos) (items s) p Hp).
Qed.

(** C1, amended.  Two parts.

    First, a run of the wiring state machine started in [NO_WIRE]: N
    left clicks with the cursor moving in between, then one right
    click, where no click is rejected for overlap and no left click
    finds the free end of the wire connected (the test
    [port2()->hasConnection()] of [wiringEventLeftMouseClick] fails at
    each of them).  The run ends in [NO_WIRE] with exactly N segments
    more committed to the undo stack, every one of them to the one wire
    the first click made; that wire is on the scene and shown, no
    other item of the scene has changed, and [m_currentWiringWire] is
    null (for N = 0 the scene is as it was, so the pointer is null if
    it was).  The wire's geometry is not among the sources: of the wire
    class the statement takes that a wire is never without lines.

    Second, a left click, not rejected, on a wire in progress for which
    that test holds: it commits its segment and ends the wire at once,
    on the scene, with [m_currentWiringWire] null; and any left click
    after it starts another wire and commits nothing.  This is why N
    left clicks need not commit N segments. *)
Theorem wiring_clicks_commit_one_segment_each :
  (forall (s0 : SchematicScene) (evs : list MouseActionEvent)
          (finish : MouseActionEvent),
      wireKeepsLines ->
      gridUsable s0 ->
      m_wiringState s0 = NO_WIRE ->
      Forall (fun e => isPress e = true -> isLeftPress e = true) evs ->
      isRightPress finish = true ->
      smoothRun (evs ++ [finish]) s0 = true ->
      exists s,
        foreach (evs ++ [finish]) wiringEvent s0 = Some s
        /\ m_wiringState s = NO_WIRE
        /\ committedSegments (m_undoStack s)
           = (committedSegments (m_undoStack s0)
              + List.length (filter isLeftPress evs))%nat
        /\ commitsOf (m_undoStack s)
           = (commitsOf (m_undoStack s0)
              ++ repeat (Heap.fresh (items s0))
                        (List.length (filter isLeftPress evs)))%list
        /\ (forall p, p <> Heap.fresh (items s0) ->
                      Heap.lookup p (items s) = Heap.lookup p (items s0))
        /\ (filter isLeftPress evs = [] -> s = s0)
        /\ (filter isLeftPress evs <> [] ->
            m_currentWiringWire s = None
            /\ exists it,
                Heap.lookup (Heap.fresh (items s0)) (items s) = Some it
                /\ isWire it = true /\ onScene it = true /\ visible it = true))
  /\ (forall (e : MouseActionEvent) (s : SchematicScene) (w : ItemPtr)
             (it : QucsItem) (st store : WireData),
         gridUsable s ->
         inProgress s = true ->
         m_currentWiringWire s = Some w ->
         derefWire w s = Some (it, st, store) ->
         onScene it = true ->
         clickRejected e s = false ->
         clickConnects e s = true ->
         exists s1 it1,
           wiringEvent e s = Some s1
           /\ m_wiringState s1 = NO_WIRE
           /\ m_currentWiringWire s1 = None
           /\ committedSegments (m_undoStack s1)
              = S (committedSegments (m_undoStack s))
           /\ commitsOf (m_undoStack s1) = (commitsOf (m_undoStack s) ++ [w])%list
           /\ Heap.lookup w (items s1) = Some it1
           /\ isWire it1 = true /\ onScene it1 = true /\ visible it1 = true
           /\ (forall p, p <> w -> Heap.lookup p (items s1) = Heap.lookup p (items s))
           /\ forall e', isLeftPress e' = true ->
                exists s2 pos,
                  smartNearingGridPoint (scenePos e') s1 = Some pos
                  /\ wiringEvent e' s1 = Some s2
                  /\ m_wiringState s2 = SINGLETON_WIRE
                  /\ m_currentWiringWire s2 = Some (Heap.fresh (items s1))
                  /\ Heap.lookup (Heap.fresh (items s1)) (items s2)
                     = Some (newWire pos pos)
                  /\ m_undoStack s2 = m_undoStack s1).
Proof.
  split.
  - intros s0 evs finish Hk Hgrid Hst Hev Hfin Hsm.
    assert (Hinv0 : runInv s0 0 s0) by (repeat split).
    destruct (run_events Hk s0 finish evs Hgrid Hst 0%nat s0 Hinv0 Hev Hsm)
      as (s1 & Hrun & Hinv1 & Hsm1).
    rewrite foreach_app, Hrun. simpl in *.
    pose proof (runInv_gridUsable _ _ _ Hgrid Hinv1) as Hg1.
    destruct (smartNearingGridPoint_defined (scenePos finish) s1 Hg1) as [pos Hpos].
    pose proof Hfin as Hrp.
    unfold isRightPress, isPress in Hfin.
    destruct (ev_type finish) eqn:Hty; try discriminate. simpl in Hfin.
    apply andb_prop in Hfin. destruct Hfin as [Hnl Hr]. apply negb_true_iff in Hnl.
    assert (Hev1 : wiringEvent finish s1 = wiringEventRightMouseClick s1).
    { unfold wiringEvent. rewrite Hpos, Hty. unfold wiringEventMouseClick.
      now rewrite Hnl, Hr. }
    rewrite Hev1 in *.
    destruct Hinv1 as (_ & _ & Hinv1).
    destruct (filter isLeftPress evs) as [|e0 pressed] eqn:Hpressed.
    + simpl in Hinv1. subst s1.
      assert (E : wiringEventRightMouseClick s0 = Some s0).
      { unfold wiringEventRightMouseClick.
        now rewrite Hst, <- Hst, set_m_wiringState_same. }
      rewrite E. exists s0. split; [reflexivity|]. split; [exact Hst|].
      split; [simpl; lia|]. split; [simpl; now rewrite app_nil_r|].
      split; [reflexivity|]. split; [reflexivity|]. intros H. now contradiction H.
    + simpl List.length in *.
      destruct Hinv1 as (Hp & Hcur1 & (it & st & store & Hd & Hne & Hon) & Hfr & Hcom1 & Hcs1).
      assert (Ho : Wire_overlap st = false).
      { apply andb_prop in Hsm1. destruct Hsm1 as [Hsm1 _].
        apply andb_prop in Hsm1. destruct Hsm1 as [Hrej _].
        apply negb_true_iff in Hrej. unfold clickRejected in Hrej.
        rewrite Hrp, Hp, orb_true_r in Hrej. simpl in Hrej.
        unfold overlapping in Hrej. now rewrite Hcur1, Hd in Hrej. }
      destruct (rightClick_inProgress s1 _ it st store Hp Hcur1 Hd Hon Ho)
        as (s' & it' & Hs' & Hst' & Hcur' & Hcom' & Hcs' & Hf' & Hl' & Hw' & Hon' & Hv').
      exists s'. rewrite Hs'. split; [reflexivity|]. split; [exact Hst'|].
      split; [rewrite Hcom', Hcom1; lia|].
      split; [rewrite Hcs', Hcs1, <- app_assoc, repeat_snoc; reflexivity|].
      split; [intros p Hp'; rewrite Hf' by exact Hp'; now apply Hfr|].
      split; [discriminate|]. intros _. split; [exact Hcur'|].
      exists it'. now repeat split.
  - intros e s w it st store Hg Hp Hc Hd Hon Hrej Hconn.
    unfold clickConnects in Hconn.
    apply andb_prop in Hconn. destruct Hconn as [Hl Hconn].
    apply andb_prop in Hl. destruct Hl as [Hl _].
    unfold clickRejected in Hrej. rewrite Hl, Hp in Hrej. simpl in Hrej.
    unfold overlapping in Hrej. rewrite Hc, Hd in Hrej.
    destruct (smartNearingGridPoint_defined (scenePos e) s Hg) as [pos Hpos].
    destruct (leftClick_inProgress pos s w it st store Hp Hc Hd Hon Hrej) as [Hend _].
    destruct (Hend Hconn)
      as (s1 & it1 & Hs1 & Hg1 & Hsn1 & Hcom1 & Hcs1 & Hf1 & Hst1 & Hcur1 & Hl1 & Hw1
          & Hon1 & Hv1).
    assert (Hev : wiringEvent e s = Some s1).
    { pose proof Hl as Hl'. unfold isLeftPress, isPress in Hl'.
      destruct (ev_type e) eqn:Hty; try discriminate. simpl in Hl'.
      unfold wiringEvent. rewrite Hpos, Hty. unfold wiringEventMouseClick.
      now rewrite Hl'. }
    exists s1, it1. split; [exact Hev|]. split; [exact Hst1|]. split; [exact Hcur1|].
    split; [exact Hcom1|]. split; [exact Hcs1|]. split; [exact Hl1|].
    split; [exact Hw1|]. split; [exact Hon1|]. split; [exact Hv1|].
    split; [exact Hf1|].
    intros e' Hl'.
    assert (Hgrid1 : gridUsable s1) by (unfold gridUsable in *; now rewrite Hg1, Hsn1).
    destruct (leftClick_starts_a_wire e' s1 Hgrid1 Hl' Hst1)
      as (s2 & pos' & Hpos' & Hev' & Hst2 & Hcur2 & Hl2 & _ & Hu2).
    exists s2, pos'. now repeat split.
Qed.

End WiringRuns.

Module WiringRunWitnesses.

Import Sample WiringSamples.

Lemma sample_wireKeepsLines : wireKeepsLines.
Proof.
  split; [discriminate|]. split.
  - intros p d Hne. simpl. destruct (wLines d) as [|l ls]; [contradiction|].
    clear Hne. revert l. induction ls as [|l' ls IH]; intros l; simpl.
    + discriminate.
    + discriminate.
  - intros d Hne. simpl.
    destruct (filter (fun l => negb (isNullLine l)) (wLines d)); [|discriminate].
    destruct (wLines d); [contradiction | discriminate].
Qed.

(** A resistor with a port on (20,0). *)
Definition resistorAt20 : SchematicScene :=
  withItems [component "R" "R1" 20 0 false] emptyScene.

Definition threeClicks : list MouseActionEvent :=
  [press LeftButton 0 0; move 20 0; press LeftButton 20 0;
   move 40 0; press LeftButton 40 0; move 60 0].

(** C1 as stated fails: three left clicks on the distinct points (0,0),
    (20,0), (40,0) and a right click on (60,0), none of them rejected,
    end in [NO_WIRE] with no wire in progress, but with two segments
    committed, not three: the second click lands on the port of the
    resistor, which ends the first wire, and the third starts another. *)
Lemma wiring_click_on_a_port_ends_the_wire :
  m_wiringState resistorAt20 = NO_WIRE
  /\ m_currentWiringWire resistorAt20 = None
  /\ List.length (filter isLeftPress threeClicks) = 3%nat
  /\ neverRejected (threeClicks ++ [press RightButton 60 0]) resistorAt20 = true
  /\ exists s,
      foreach (threeClicks ++ [press RightButton 60 0]) wiringEvent resistorAt20 = Some s
      /\ m_wiringState s = NO_WIRE
      /\ m_currentWiringWire s = None
      /\ committedSegments (m_undoStack s) = 2%nat
      /\ List.length (wireLinesOnScene s) = 2%nat.
Proof.
  split; [reflexivity|]. split; [reflexivity|]. split; [reflexivity|].
  split; [vm_compute; reflexivity|].
  eexists. split; [vm_compute; reflexivity|].
  repeat split.
Qed.

(** The wire is under way from (0,0), the cursor on the port of the
    resistor. *)
Definition towardsThePort : SchematicScene :=
  after [press LeftButton 0 0; move 20 0] resistorAt20.

(** The amended statement at work.  On the empty scene the same clicks
    commit three segments, all to the wire at address 1, which is on
    the scene.  With the resistor there, the second click finds the
    free end connected and ends the wire with one segment committed,
    and the third starts another wire and commits nothing. *)
Lemma wiring_clicks_commit_one_segment_each_witness :
  (exists s,
      foreach (threeClicks ++ [press RightButton 60 0]) wiringEvent emptyScene = Some s
      /\ m_wiringState s = NO_WIRE
      /\ m_currentWiringWire s = None
      /\ committedSegments (m_undoStack s) = 3%nat
      /\ commitsOf (m_undoStack s) = [1%nat; 1%nat; 1%nat]
      /\ exists it,
          Heap.lookup 1%nat (items s) = Some it
          /\ isWire it = true /\ onScene it = true /\ visible it = true)
  /\ (clickConnects (press LeftButton 20 0) towardsThePort = true
      /\ exists s1,
          wiringEvent (press LeftButton 20 0) towardsThePort = Some s1
          /\ m_wiringState s1 = NO_WIRE
          /\ m_currentWiringWire s1 = None
          /\ committedSegments (m_undoStack s1) = 1%nat
          /\ exists s2,
              wiringEvent (press LeftButton 40 0) s1 = Some s2
              /\ m_wiringState s2 = SINGLETON_WIRE
              /\ m_undoStack s2 = m_undoStack s1).
Proof.
  destruct wiring_clicks_commit_one_segment_each as [Hrun Hconn].
  split.
  - destruct (Hrun emptyScene threeClicks (press RightButton 60 0))
      as (s & Hs & Hst & Hcom & Hcs & _ & _ & Hwire).
    + exact sample_wireKeepsLines.
    + right. split; discriminate.
    + reflexivity.
    + repeat constructor; intros H; try reflexivity; discriminate H.
    + reflexivity.
    + vm_compute. reflexivity.
    + destruct Hwire as (Hcur & it & Hit); [discriminate|].
      exists s. split; [exact Hs|]. split; [exact Hst|]. split; [exact Hcur|].
      split; [exact Hcom|]. split; [exact Hcs|]. exists it. exact Hit.
  - split; [vm_compute; reflexivity|].
    assert (Hd : exists it st store,
               derefWire 2%nat towardsThePort = Some (it, st, store)
               /\ onScene it = true).
    { vm_compute. eexists _, _, _. split; reflexivity. }
    destruct Hd as (it & st & store & Hd & Hon).
    destruct (Hconn (press LeftButton 20 0) towardsThePort 2%nat it st store)
      as (s1 & it1 & Hs1 & Hst1 & Hcur1 & Hcom1 & _ & _ & _ & _ & _ & _ & Hnext).
    + right. split; discriminate.
    + reflexivity.
    + reflexivity.
    + exact Hd.
    + exact Hon.
    + vm_compute. reflexivity.
    + vm_compute. reflexivity.
    + exists s1. split; [exact Hs1|]. split; [exact Hst1|]. split; [exact Hcur1|].
      split; [exact Hcom1|].
      destruct (Hnext (press LeftButton 40 0) eq_refl)
        as (s2 & pos & _ & Hs2 & Hst2 & _ & _ & Hu2).
      exists s2. split; [exact Hs2|]. split; [exact Hst2 | exact Hu2].
Defined.

End WiringRunWitnesses.

(** ** Label suffixes *)

Section LabelProperties.

Context {C : Collaborators}.

(** The numeric suffixes of the components on the scene that have the
    given label prefix. *)
Definition suffixOf (prefix : string) (e : ItemPtr * QucsItem) : list Z :=
  match body (snd e) with
  | Component pre label _ =>
      if String.eqb pre prefix then
        match QString_toInt (labelSuffix pre label) with
        | Some suffix => [suffix]
        | None => []
        end
      else []
  | _ => []
  end.

Definition suffixesOnScene (prefix : string) (s : SchematicScene) : list Z :=
  flat_map (suffixOf prefix) (sceneItems s).

(** A suffix whose successor is still an [int]. *)
Definition suffixInRange (z : Z) : Prop := - CInt.two31 <= z < CInt.two31 - 1.

Lemma componentLabelSuffix_fold (prefix : string) (s : SchematicScene) :
  componentLabelSuffix prefix s
  = fold_left (fun m z => Z.max m (CInt.to_int (z + 1))) (suffixesOnScene prefix s) 1.
Proof.
  unfold componentLabelSuffix, suffixesOnScene.
  set (step := fun (_max : Z) (e : ItemPtr * QucsItem) => _).
  assert (G : forall l m,
             fold_left step l m
             = fold_left (fun m z => Z.max m (CInt.to_int (z + 1)))
                         (flat_map (suffixOf prefix) l) m).
  { induction l as [|e l IH]; intros m; simpl; [reflexivity|].
    rewrite fold_left_app, IH. f_equal.
    subst step. unfold suffixOf. simpl. destruct (body (snd e)); try reflexivity.
    destruct (String.eqb labelPrefix prefix); [|reflexivity].
    destruct (QString_toInt _); reflexivity. }
  apply G.
Qed.

Lemma fold_max_succ (l : list Z) (m : Z) :
  Forall suffixInRange l ->
  fold_left (fun m z => Z.max m (CInt.to_int (z + 1))) l m
  = Z.max m (fold_right Z.max (m - 1) l + 1).
Proof.
  intros Hl. revert m. induction Hl as [|z l Hz Hl IH]; intros m; simpl.
  - lia.
  - rewrite IH. rewrite CInt.to_int_small
      by (unfold suffixInRange, CInt.in_int in *; lia).
    assert (G : forall a b, a <= b -> fold_right Z.max a l <= fold_right Z.max b l).
    { intros a b Hab. clear IH Hl. induction l as [|y l IHl]; simpl; lia. }
    assert (G2 : forall a, a <= fold_right Z.max a l).
    { intros a. clear IH Hl G. induction l as [|y l IHl]; simpl; lia. }
    assert (G3 : forall a b, fold_right Z.max (Z.max a b) l
                             = Z.max (fold_right Z.max a l) b).
    { intros a b. clear IH Hl G G2. induction l as [|y l IHl]; simpl; [lia|].
      rewrite IHl. lia. }
    replace (Z.max m (z + 1) - 1) with (Z.max (m - 1) z) by lia.
    rewrite G3. lia.
Qed.

(** C7, amended.  The suffix handed out for a prefix is the largest
    numeric suffix of the components with that prefix on the scene, read
    as 0 when there is none or none above 0, plus one (for suffixes
    whose successor is an [int]).  It is above every suffix in use, so
    no suffix of the scene is handed out again; and with the suffixes 1
    and 2 in use, in whatever order and however often the components
    were taken off and put back, it is 3.  [placeItem] gives a component
    that is not on the scene the label made of its prefix and that
    suffix. *)
Theorem componentLabelSuffix_is_max_plus_one (prefix : string) (s : SchematicScene) :
  Forall suffixInRange (suffixesOnScene prefix s) ->
  componentLabelSuffix prefix s = fold_right Z.max 0 (suffixesOnScene prefix s) + 1
  /\ Forall (fun z => z < componentLabelSuffix prefix s) (suffixesOnScene prefix s)
  /\ ((forall z, In z (suffixesOnScene prefix s) <-> z = 1 \/ z = 2) ->
      componentLabelSuffix prefix s = 3)
  /\ (forall (item : ItemPtr) (it : QucsItem) (label : string) (n : nat)
             (at_pos : QPointF) (opt : UndoOption),
         Heap.lookup item (items s) = Some it ->
         body it = Component prefix label n ->
         onScene it = false ->
         exists s' it',
           placeItem item at_pos opt s = Some s'
           /\ Heap.lookup item (items s') = Some it'
           /\ body it' = Component prefix (makeLabel prefix (componentLabelSuffix prefix s)) n
           /\ onScene it' = true).
Proof.
  intros Hr.
  assert (Hmax : componentLabelSuffix prefix s
                 = fold_right Z.max 0 (suffixesOnScene prefix s) + 1).
  { rewrite componentLabelSuffix_fold, fold_max_succ by assumption.
    simpl. assert (G2 : forall l a, a <= fold_right Z.max a l).
    { intros l a. induction l as [|y l IHl]; simpl; lia. }
    pose proof (G2 (suffixesOnScene prefix s) 0). lia. }
  assert (Hin : forall l z, In z l -> z <= fold_right Z.max 0 l).
  { induction l as [|y l IHl]; simpl; [tauto|].
    intros z [->|Hz]; [lia|]. specialize (IHl z Hz). lia. }
  split; [exact Hmax|]. split.
  { apply Forall_forall. intros z Hz. rewrite Hmax.
    specialize (Hin _ _ Hz). lia. }
  split.
  { intros H12. rewrite Hmax.
    assert (Hle : fold_right Z.max 0 (suffixesOnScene prefix s) <= 2).
    { assert (G : forall l, (forall z, In z l -> z <= 2) -> fold_right Z.max 0 l <= 2).
      { induction l as [|y l IHl]; simpl; intros Hl; [lia|].
        pose proof (Hl y (or_introl eq_refl)).
        specialize (IHl (fun z Hz => Hl z (or_intror Hz))). lia. }
      apply G. intros z Hz. apply H12 in Hz. lia. }
    pose proof (Hin _ 2 (proj2 (H12 2) (or_intror eq_refl))). lia. }
  intros item it label n at_pos opt Hl Hb Hoff.
  unfold placeItem. rewrite Hl, Hoff, Hb.
  rewrite (onItem_spec _ _ _ _ Hl).
  set (it1 := setLabel (makeLabel prefix (componentLabelSuffix prefix s)) it).
  set (s2 := set_items _ s).
  assert (Hl2 : Heap.lookup item (items s2) = Some it1)
    by (subst s2; simpl; now apply Heap.lookup_update_same).
  assert (Hb1 : body it1
                = Component prefix (makeLabel prefix (componentLabelSuffix prefix s)) n)
    by (subst it1; unfold setLabel; rewrite Hb; reflexivity).
  assert (Hc : isComponent it = true) by (unfold isComponent; now rewrite Hb).
  rewrite Hc. destruct opt.
  - unfold push, redo.
    set (s3 := set_m_undoStack _ (beginMacro "Use Paint Tool" s2)).
    assert (Hl3 : Heap.lookup item (items s3) = Some it1) by exact Hl2.
    rewrite (onItem_spec _ _ _ _ Hl3). rewrite checkAndConnect_eq.
    eexists _, _. split; [reflexivity|]. simpl.
    split; [eapply Heap.lookup_update_same; exact Hl2|]. split; [exact Hb1 | reflexivity].
  - rewrite (onItem_spec _ _ _ _ Hl2). rewrite checkAndConnect_eq.
    eexists _, _. split; [reflexivity|]. simpl.
    split; [eapply Heap.lookup_update_same; exact Hl2|]. split; [exact Hb1 | reflexivity].
Qed.

End LabelProperties.

Module LabelWitnesses.

Import Sample.

(** C7 as stated fails: with one resistor labelled "R-5" on the scene
    the largest suffix is -5, and the suffix handed out is 1, not -4. *)
Lemma componentLabelSuffix_not_below_one :
  suffixesOnScene "R" (withItems [component "R" "R-5" 0 0 false] emptyScene) = [-5]
  /\ componentLabelSuffix "R" (withItems [component "R" "R-5" 0 0 false] emptyScene) = 1
  /\ componentLabelSuffix "R" (withItems [component "R" "R-5" 0 0 false] emptyScene)
     <> -5 + 1.
Proof.
  split; [vm_compute; reflexivity|]. split; [vm_compute; reflexivity|].
  vm_compute. discriminate.
Qed.

(** "R1" and "R2" on the scene, and a third resistor not yet placed. *)
Definition twoResistors : SchematicScene :=
  withItems [component "R" "R1" 0 0 false; component "R" "R2" 40 0 false;
             set_onScene false (component "R" "R" 0 0 false)] emptyScene.

(** "R2" deleted, by a [RemoveItemsCmd], and put back with [placeItem]. *)
Definition reAdded : SchematicScene :=
  match redo (RemoveItemsCmd [2%nat]) twoResistors with
  | Some s1 =>
      match placeItem 2%nat (QPointF_of_ints 40 0) PushUndoCmd s1 with
      | Some s2 => s2
      | None => s1
      end
  | None => twoResistors
  end.

(** The amended statement at work: the third resistor is labelled "R3",
    also after "R2" was deleted and put back. *)
Lemma componentLabelSuffix_is_max_plus_one_witness :
  suffixesOnScene "R" reAdded = [1; 2]
  /\ componentLabelSuffix "R" reAdded = 3
  /\ exists s' it',
      placeItem 3%nat (QPointF_of_ints 80 0) PushUndoCmd reAdded = Some s'
      /\ Heap.lookup 3%nat (items s') = Some it'
      /\ body it' = Component "R" "R3" 2.
Proof.
  assert (E : suffixesOnScene "R" reAdded = [1; 2]) by (vm_compute; reflexivity).
  destruct (componentLabelSuffix_is_max_plus_one "R" reAdded) as (Hmax & _ & H3 & Hplace).
  - rewrite E. repeat constructor; unfold CInt.two31; lia.
  - split; [exact E|].
    assert (Hn : componentLabelSuffix "R" reAdded = 3).
    { apply H3. intros z. rewrite E. simpl. intuition lia. }
    split; [exact Hn|].
    destruct (Hplace 3%nat (set_onScene false (component "R" "R" 0 0 false)) "R"%string
                     2%nat (QPointF_of_ints 80 0) PushUndoCmd)
      as (s' & it' & Hp & Hl & Hb & _).
    + vm_compute. reflexivity.
    + reflexivity.
    + reflexivity.
    + exists s', it'. split; [exact Hp|]. split; [exact Hl|].
      rewrite Hb, Hn. reflexivity.
Defined.

End LabelWitnesses.

(** ** Paste *)

Section PasteProperties.

Context {C : Collaborators}.

Definition isRoot (t : XmlToken) : bool :=
  isStartElement t && String.eqb (tokenName t) "qucs".

Lemma seekRoot_no_root (clipboard : list XmlToken) (tok : XmlToken) :
  isRoot tok = false ->
  (forall attrs, ~ In (StartElement "qucs" attrs) clipboard) ->
  isRoot (token (seekRoot tok clipboard)) = false.
Proof.
  revert tok. induction clipboard as [|t ts IH]; intros tok Htok Hno; simpl.
  - destruct (atEnd tok); simpl; [exact Htok | reflexivity].
  - destruct (atEnd tok); simpl; [exact Htok|].
    fold (isRoot t). destruct (isRoot t) eqn:Ht.
    + exfalso. unfold isRoot in Ht. destruct t; try discriminate. simpl in Ht.
      apply String.eqb_eq in Ht. subst name.
      apply (Hno attributes). now left.
    + apply IH; [exact Ht|]. intros attrs Hin. apply (Hno attrs). now right.
Qed.

Lemma seekRoot_finds (pre post : list XmlToken) (attrs : list (string * string))
    (tok : XmlToken) :
  atEnd tok = false ->
  Forall (fun t => atEnd t = false /\ isRoot t = false) pre ->
  seekRoot tok (pre ++ StartElement "qucs" attrs :: post)
  = mkReader (StartElement "qucs" attrs) post.
Proof.
  revert tok. induction pre as [|t pre IH]; intros tok Htok Hpre; simpl.
  - now rewrite Htok.
  - rewrite Htok. inversion Hpre as [|? ? [Ht Hr] Hpre']; subst.
    fold (isRoot t). rewrite Hr. now apply IH.
Qed.

Lemma foreach_onItem_items (f : ItemPtr -> QucsItem -> QucsItem) (l : list ItemPtr)
    (s s' : SchematicScene) :
  foreach l (fun item s0 => onItem item (f item) s0) s = Some s' ->
  exists h, s' = set_items h s.
Proof.
  revert s. induction l as [|p l IH]; intros s; simpl.
  - intros [= <-]. exists (items s). now destruct s.
  - destruct (onItem p (f p) s) as [s1|] eqn:E; [|discriminate].
    apply onItem_items in E. destruct E as [h1 ->].
    intros H. apply IH in H. destruct H as [h2 ->]. now exists h2.
Qed.

(** Inserting items records nothing on the undo stack. *)
Lemma beginInsertingItems_undoStack (its : list ItemPtr) (s s' : SchematicScene) :
  beginInsertingItems its s = Some s' -> m_undoStack s' = m_undoStack s.
Proof.
  unfold beginInsertingItems. destruct (activeView s) as [active|]; [|now intros [= <-]].
  destruct (resetState s) as [s1|] eqn:E1; [|discriminate].
  apply resetState_world in E1. destruct E1 as (h1 & c1 & ->).
  match goal with
  | |- context [smartNearingGridPoint ?p ?t] =>
      destruct (smartNearingGridPoint p t) as [mousePos|]; [|discriminate]
  end.
  match goal with
  | |- context [foreach ?l ?f ?t] =>
      destruct (foreach l f t) as [s4|] eqn:E4; [|discriminate]
  end.
  apply (foreach_onItem_items
           (fun _ it => setVisible (cursorOnViewport active) (setSelected true it)))
    in E4.
  destruct E4 as (h4 & ->).
  destruct (derefAll _ _) as [resolved|]; [|discriminate].
  destruct (smartNearingGridPoint _ _) as [delta|]; [|discriminate].
  intros E5. apply (foreach_onItem_items (fun _ => moveBy delta)) in E5.
  destruct E5 as (h5 & ->). reflexivity.
Qed.

Definition knownKind (name : string) : bool :=
  String.eqb name "component" || String.eqb name "wire" || String.eqb name "painting".

(** The second loop of [paste] over the next [n] tokens only: the items
    read from them, the tokens a loader has still to pass, the token
    the reader stands on and the text behind it; nothing when the loop
    ends within these tokens. *)
Fixpoint readPrefix (n skip : nat) (tok : XmlToken) (rest : list XmlToken)
  : option (list QucsItem * nat * XmlToken * list XmlToken) :=
  match n with
  | O => Some ([], skip, tok, rest)
  | S n' =>
      match skip with
      | S k =>
          match rest with
          | [] => None
          | t :: ts => readPrefix n' k t ts
          end
      | O =>
          if atEnd tok then None
          else
            match rest with
            | [] => None
            | t :: ts =>
                if isEndElement t then None
                else if isStartElement t then
                  let (readItem, m) := loadByName t ts in
                  match readPrefix n' m t ts with
                  | Some (l, k, tok', rest') =>
                      Some (match readItem with
                            | Some it => it :: l
                            | None => l
                            end, k, tok', rest')
                  | None => None
                  end
                else readPrefix n' O t ts
            end
      end
  end.

Lemma readItems_prefix (n : nat) :
  forall (skip : nat) (tok : XmlToken) (rest : list XmlToken)
         (l : list QucsItem) (k : nat) (tok' : XmlToken) (rest' : list XmlToken),
    readPrefix n skip tok rest = Some (l, k, tok', rest') ->
    readItems skip tok rest = (l ++ readItems k tok' rest')%list.
Proof.
  induction n as [|n IH]; intros skip tok rest l k tok' rest'.
  - simpl. now intros [= <- <- <- <-].
  - simpl. destruct skip as [|skip].
    + destruct (atEnd tok) eqn:Ea; [discriminate|].
      destruct rest as [|t ts]; [discriminate|].
      destruct (isEndElement t) eqn:Ee; [discriminate|].
      destruct (isStartElement t) eqn:Es.
      * destruct (loadByName t ts) as [readItem m] eqn:El.
        destruct (readPrefix n m t ts) as [[[[l1 k1] tok1] rest1]|] eqn:Ep; [|discriminate].
        intros [= <- <- <- <-]. apply IH in Ep.
        simpl. rewrite Ea, Ee, Es, El, Ep. now destruct readItem.
      * intros Hp. apply IH in Hp. simpl. now rewrite Ea, Ee, Es.
    + destruct rest as [|t ts]; [discriminate|].
      intros Hp. apply IH in Hp. destruct tok; exact Hp.
Qed.

(** An element of unknown kind that is followed by an end tag ends the
    reading, with no item. *)
Lemma readItems_unknown_kind (tok : XmlToken) (name e : string)
    (attrs : list (string * string)) (rest : list XmlToken) :
  knownKind name = false ->
  readItems O tok (StartElement name attrs :: EndElement e :: rest) = [].
Proof.
  intros Hk. unfold knownKind in Hk.
  apply orb_false_elim in Hk. destruct Hk as [Hk Hp].
  apply orb_false_elim in Hk. destruct Hk as [Hc Hw].
  simpl. destruct (atEnd tok); [reflexivity|].
  unfold loadByName. simpl. now rewrite Hc, Hw, Hp.
Qed.

(** C9, amended.  [paste] returns at once, with the scene as it was,
    when the clipboard text has no start element named "qucs" and when
    the version attribute of that element is refused.  An element of
    unknown kind does not make it return: wherever the reader, with the
    items [l] read behind the accepted root element, comes to such an
    element followed by an end tag, the reading stops there and [l] is
    what [paste] hands to [beginInsertingItems]; nothing behind the
    element is read.  In no case does [paste] put anything on the undo
    stack. *)
Theorem paste_aborts_only_without_root_or_version
    (clipboard : list XmlToken) (s : SchematicScene) :
  ((forall attrs, ~ In (StartElement "qucs" attrs) clipboard) ->
   paste clipboard s = Some s)
  /\ (checkVersion (attributeValue "version"
                      (tokenAttributes (token (seekRoot NoToken clipboard)))) = false ->
      paste clipboard s = Some s)
  /\ (forall (pre post : list XmlToken) (attrs : list (string * string)) (n : nat)
             (l : list QucsItem) (tok' : XmlToken) (name e : string)
             (a : list (string * string)) (rest : list XmlToken),
         clipboard = pre ++ StartElement "qucs" attrs :: post ->
         Forall (fun t => atEnd t = false /\ isRoot t = false) pre ->
         checkVersion (attributeValue "version" attrs) = true ->
         readPrefix n O (StartElement "qucs" attrs) post
         = Some (l, O, tok', StartElement name a :: EndElement e :: rest) ->
         knownKind name = false ->
         readItems O (StartElement "qucs" attrs) post = l
         /\ paste clipboard s
            = beginInsertingItems (fst (allocAll l (items s)))
                (set_items (snd (allocAll l (items s))) s))
  /\ (forall s', paste clipboard s = Some s' -> m_undoStack s' = m_undoStack s).
Proof.
  split; [|split; [|split]].
  - intros Hno. unfold paste.
    pose proof (seekRoot_no_root clipboard NoToken eq_refl Hno) as Hr.
    unfold isRoot in Hr. rewrite Hr. simpl. now rewrite orb_true_r.
  - intros Hv. unfold paste. rewrite Hv. simpl.
    now destruct (hasError _ || _).
  - intros pre post attrs n l tok' name e a rest -> Hpre Hv Hp Hk.
    assert (Hl : readItems O (StartElement "qucs" attrs) post = l).
    { rewrite (readItems_prefix _ _ _ _ _ _ _ _ Hp).
      rewrite (readItems_unknown_kind tok' name e a rest Hk). apply app_nil_r. }
    split; [exact Hl|].
    unfold paste. rewrite (seekRoot_finds pre post attrs NoToken eq_refl Hpre).
    simpl. rewrite Hv. simpl. rewrite Hl.
    now destruct (allocAll l (items s)).
  - intros s'. unfold paste.
    destruct (hasError _ || _); [now intros [= <-]|].
    destruct (negb _); [now intros [= <-]|].
    destruct (allocAll _ _) as [its h]. intros H.
    apply beginInsertingItems_undoStack in H. exact H.
Qed.

End PasteProperties.

Module PasteWitnesses.

Import Sample.

(** A clipboard text with a component, an element of unknown kind and a
    wire. *)
Definition withDiagram : list XmlToken :=
  [StartDocument; DTD;
   StartElement "qucs" [("version", "0.1.0")];
   StartElement "component" [("name", "R")]; EndElement "component";
   StartElement "diagram" []; EndElement "diagram";
   StartElement "wire" []; EndElement "wire";
   EndElement "qucs"; EndDocument]%string.

(** C9 as stated fails: the element of unknown kind does not abort the
    paste.  The component read before it is inserted, as item 1 of the
    insertibles. *)
Lemma paste_inserts_items_before_unknown_kind :
  In (StartElement "diagram" []) withDiagram
  /\ knownKind "diagram" = false
  /\ exists s' it,
      paste withDiagram emptyScene = Some s'
      /\ m_insertibles s' = [1%nat]
      /\ Heap.lookup 1%nat (items s') = Some it
      /\ isComponent it = true /\ onScene it = true
      /\ m_undoStack s' = [].
Proof.
  split; [simpl; tauto|]. split; [reflexivity|].
  eexists _, _. split; [vm_compute; reflexivity|].
  repeat split.
Qed.

(** The amended statement at work: a text whose only element is not
    "qucs", one whose version is refused, and the text with the
    element of unknown kind, of which the component is inserted. *)
Lemma paste_aborts_only_without_root_or_version_witness :
  paste [StartDocument; StartElement "svg" []; EndElement "svg"; EndDocument]
        emptyScene = Some emptyScene
  /\ paste [StartDocument; StartElement "qucs" [("version", "9.9")]%string;
            StartElement "component" []; EndElement "component";
            EndElement "qucs"; EndDocument]
           emptyScene = Some emptyScene
  /\ exists s', paste withDiagram emptyScene = Some s' /\ m_insertibles s' = [1%nat].
Proof.
  split; [|split].
  - apply (proj1 (paste_aborts_only_without_root_or_version
                    [StartDocument; StartElement "svg" []; EndElement "svg";
                     EndDocument]
                    emptyScene)).
    intros attrs [H|[H|[H|[H|[]]]]]; discriminate H.
  - apply (proj1 (proj2 (paste_aborts_only_without_root_or_version
                           [StartDocument;
                            StartElement "qucs" [("version", "9.9")]%string;
                            StartElement "component" []; EndElement "component";
                            EndElement "qucs"; EndDocument]
                           emptyScene))).
    reflexivity.
  - destruct (proj1 (proj2 (proj2 (paste_aborts_only_without_root_or_version
                                     withDiagram emptyScene)))
                [StartDocument; DTD]
                [StartElement "component" [("name", "R")]%string; EndElement "component";
                 StartElement "diagram" []; EndElement "diagram";
                 StartElement "wire" []; EndElement "wire";
                 EndElement "qucs"; EndDocument]
                [("version", "0.1.0")]%string 2%nat
                [{| body := Component "R" "R" 2; pos := mkQPointF 0 0;
                    selected := false; visible := true; onScene := true |}]
                (EndElement "component") "diagram"%string "diagram"%string []
                [StartElement "wire" []; EndElement "wire";
                 EndElement "qucs"; EndDocument])
      as [_ Hp].
    + reflexivity.
    + repeat constructor.
    + reflexivity.
    + vm_compute. reflexivity.
    + reflexivity.
    + rewrite Hp. eexists. split; vm_compute; reflexivity.
Defined.

End PasteWitnesses.

(** ** Distribute and align *)

(** The items behind a list of valid pointers. *)
Lemma derefAll_valid {C : Collaborators} (l : list ItemPtr) (s : SchematicScene) :
  Forall (valid (items s)) l ->
  exists resolved,
    derefAll l s = Some resolved
    /\ map fst resolved = l
    /\ Forall (fun e => Heap.lookup (fst e) (items s) = Some (snd e)) resolved.
Proof.
  intros Hv. unfold derefAll.
  assert (G : forall l acc,
             Forall (valid (items s)) l ->
             exists r,
               foreach l (fun p acc0 => let* it := Heap.lookup p (items s) in
                                        Some (acc0 ++ [(p, it)])) acc
               = Some (acc ++ r)
               /\ map fst r = l
               /\ Forall (fun e => Heap.lookup (fst e) (items s) = Some (snd e)) r).
  { clear. induction l as [|p l IH]; intros acc Hl; simpl.
    - exists []. rewrite app_nil_r. repeat split. constructor.
    - inversion Hl as [|? ? Hp Hl']; subst. unfold valid in Hp.
      destruct (Heap.lookup p (items s)) as [it|] eqn:E; [|congruence].
      destruct (IH (acc ++ [(p, it)]) Hl') as (r & Hr & Hm & Hf).
      exists ((p, it) :: r). rewrite Hr, <- app_assoc. simpl. rewrite Hm.
      repeat split. constructor; [exact E | exact Hf]. }
  destruct (G l [] Hv) as (r & Hr & Hm & Hf). exists r. now repeat split.
Qed.

Section LayoutProperties.

Context {C : Collaborators}.

Import Undo UndoFacts.




(** *** The selection *)







(** *** The sorted items

    [qSort] is Qt's; the order it leaves items with equal keys in is
    not specified.  The properties below use of the sorted list only
    that it holds the same items and that the coordinate does not
    decrease along it, which every such order has. *)









(** *** The loop of the distribution *)













End LayoutProperties.

Module LayoutWitnesses.

Import Sample.







End LayoutWitnesses.

(** * Further operations of the scene *)

(** ** The grid: [setGridSize] and snapping *)

(** [setGridSize(const uint width, const uint height)].  Nothing is done
    when both values are the current ones; the comparison of a member
    with a [uint] is made in unsigned arithmetic, and a member of type
    [int] takes the new value by conversion.  The repaint of a visible
    grid changes nothing that is kept here. *)
Definition setGridSize (width height : Z) (s : SchematicScene) : SchematicScene :=
  let g := m_grid s in
  if (CInt.to_uint (Grid.m_gridWidth g) =? CInt.to_uint width)
     && (CInt.to_uint (Grid.m_gridHeight g) =? CInt.to_uint height)
  then s
  else
    let store := match Grid.m_gridType g with
                 | Grid.GridUInt => CInt.to_uint
                 | Grid.GridInt => CInt.to_int
                 end in
    set_m_grid (Grid.mkGrid (Grid.m_gridType g) (store width) (store height)) s.

(** The grid members hold values of their declared type. *)
Definition gridInType (g : Grid.GridConf) : Prop :=
  match Grid.m_gridType g with
  | Grid.GridUInt =>
      0 <= Grid.m_gridWidth g < CInt.two32 /\ 0 <= Grid.m_gridHeight g < CInt.two32
  | Grid.GridInt => CInt.in_int (Grid.m_gridWidth g) /\ CInt.in_int (Grid.m_gridHeight g)
  end.

Module GridOperations.

Import CInt Grid.

Lemma nearingGridPoint_toPoint (g : GridConf) (pos : QPointF) :
  nearingGridPoint g pos
  = nearingGridPoint g (QPointF_of_ints (xi (toPoint pos)) (yi (toPoint pos))).
Proof. unfold nearingGridPoint. now rewrite toPoint_of_ints. Qed.

Lemma snapAxis_nonneg_bounds (w v : Z) :
  0 < w < two30 -> 0 <= v -> v + w < two30 ->
  0 <= w * ((v + w / 2) / w) < two30.
Proof.
  intros Hw Hv Hvw.
  assert (0 <= w / 2 < w).
  { split; [apply Z.div_pos; lia | apply Z.div_lt_upper_bound; lia]. }
  pose proof (Z.mul_div_le (v + w / 2) w ltac:(lia)).
  assert (0 <= (v + w / 2) / w) by (apply Z.div_pos; lia).
  split; [apply Z.mul_nonneg_nonneg; lia | lia].
Qed.

(** X1.  [nearingGridPoint] snaps the position rounded to integers
    ([QPointF::toPoint]).  Where the rounded coordinates are not
    negative it returns a point of the grid (each coordinate a multiple
    of the spacing of its axis) at most half a step away, on each axis,
    from the rounded coordinate, and snapping that point again returns
    it: there the function is idempotent, whatever the type of the grid
    members.  The distance is from the rounded coordinate, not from the
    position: with a spacing of 10 the position 14.6 is rounded to 15
    and goes to 20, which is 5.4 away, although 10 is nearer. *)
Theorem nearingGridPoint_nonneg_on_grid_and_fixed (g : GridConf) (pos : QPointF) :
  0 < m_gridWidth g < two30 -> 0 < m_gridHeight g < two30 ->
  0 <= xi (toPoint pos) -> xi (toPoint pos) + m_gridWidth g < two30 ->
  0 <= yi (toPoint pos) -> yi (toPoint pos) + m_gridHeight g < two30 ->
  exists sx sy : Z,
    nearingGridPoint g pos = Some (QPointF_of_ints sx sy)
    /\ (m_gridWidth g | sx) /\ (m_gridHeight g | sy)
    /\ 2 * Z.abs (sx - xi (toPoint pos)) <= m_gridWidth g
    /\ 2 * Z.abs (sy - yi (toPoint pos)) <= m_gridHeight g
    /\ nearingGridPoint g (QPointF_of_ints sx sy) = Some (QPointF_of_ints sx sy).
Proof.
  intros Hw Hh Hx Hx' Hy Hy'.
  set (x := xi (toPoint pos)) in *. set (y := yi (toPoint pos)) in *.
  assert (Hx2 : 0 <= x < two30) by lia.
  assert (Hy2 : 0 <= y < two30) by lia.
  pose proof (snapAxis_nonneg (m_gridType g) _ _ Hw Hx2) as Sx.
  pose proof (snapAxis_nonneg (m_gridType g) _ _ Hh Hy2) as Sy.
  eexists _, _. split.
  { rewrite nearingGridPoint_toPoint.
    exact (GridProperties.nearingGridPoint_of_axes g x y _ _ Sx Sy). }
  destruct (snapAxis_nonneg_nearest _ _ _ _ Hw Hx2 Sx) as [Dx Nx].
  destruct (snapAxis_nonneg_nearest _ _ _ _ Hh Hy2 Sy) as [Dy Ny].
  repeat (split; [assumption|]).
  apply GridProperties.nearingGridPoint_of_axes; apply snapAxis_nonneg_fixed;
    try assumption; apply snapAxis_nonneg_bounds; assumption.
Qed.

(** X1 at work: spacing 10, the position (14.6, 25) goes to (20, 30). *)
Lemma nearingGridPoint_nonneg_on_grid_and_fixed_witness :
  nearingGridPoint (mkGrid GridUInt 10 10) (mkQPointF (146 # 10) 25)
    = Some (QPointF_of_ints 20 30)
  /\ nearingGridPoint (mkGrid GridUInt 10 10) (QPointF_of_ints 20 30)
    = Some (QPointF_of_ints 20 30).
Proof.
  destruct (nearingGridPoint_nonneg_on_grid_and_fixed
              (mkGrid GridUInt 10 10) (mkQPointF (146 # 10) 25))
    as (sx & sy & H1 & _ & _ & _ & _ & H2).
  - simpl. unfold two30. lia.
  - simpl. unfold two30. lia.
  - vm_compute. discriminate.
  - vm_compute. reflexivity.
  - vm_compute. discriminate.
  - vm_compute. reflexivity.
  - assert (E : nearingGridPoint (mkGrid GridUInt 10 10) (mkQPointF (146 # 10) 25)
                = Some (QPointF_of_ints 20 30)) by (vm_compute; reflexivity).
    rewrite E in H1. unfold QPointF_of_ints, inject_Z in H1.
    injection H1 as <- <-. split; [exact E | exact H2].
Defined.

(** One axis under the signed reading with a spacing of two or more: the
    result is a multiple of the spacing, less than a step away, and a
    multiple of the spacing is left where it is. *)
Lemma snapAxis_int_on_grid (w x : Z) :
  2 <= w < two30 -> - two30 + w < x < two30 - w ->
  exists k : Z,
    snapAxis GridInt w x = Some (w * k)
    /\ 2 * Z.abs (w * k - x) <= w + w mod 2
    /\ snapAxis GridInt w (w * k) = Some (w * k).
Proof.
  intros Hw Hx.
  assert (Hh : 1 <= w / 2 < w).
  { split; [apply Z.div_le_lower_bound; lia | apply Z.div_lt_upper_bound; lia]. }
  pose proof (Z.div_mod w 2 ltac:(lia)) as Hd2.
  pose proof (Z.mod_pos_bound w 2 ltac:(lia)) as Hm2.
  destruct (Z.ltb_spec x 0) as [Hneg|Hpos].
  - exists (- ((- x + w / 2 - 1) / w)).
    pose proof (Z.div_mod (- x + w / 2 - 1) w ltac:(lia)) as Hd.
    pose proof (Z.mod_pos_bound (- x + w / 2 - 1) w ltac:(lia)) as Hm.
    assert (Hk : 0 <= (- x + w / 2 - 1) / w) by (apply Z.div_pos; lia).
    set (k := (- x + w / 2 - 1) / w) in *.
    set (r := (- x + w / 2 - 1) mod w) in *.
    split.
    { rewrite snapAxis_neg_int_abs by lia. fold k. f_equal. lia. }
    split; [lia|].
    assert (Hk0 : k = 0 \/ 0 < k) by lia. destruct Hk0 as [Hk0|Hk0].
    + rewrite Hk0. simpl. rewrite Z.mul_0_r.
      replace 0 with (w * 0) at 1 by lia.
      rewrite snapAxis_nonneg_fixed by lia. f_equal. lia.
    + assert (Hwk : w <= w * k) by nia.
      rewrite snapAxis_neg_int_abs by nia. f_equal.
      replace (- (w * - k) + w / 2 - 1) with (w * k + (w / 2 - 1)) by lia.
      assert (E : (w * k + (w / 2 - 1)) / w = k).
      { symmetry. apply (Z.div_unique _ w k (w / 2 - 1)); lia. }
      rewrite E. lia.
  - exists ((x + w / 2) / w).
    pose proof (Z.div_mod (x + w / 2) w ltac:(lia)) as Hd.
    pose proof (Z.mod_pos_bound (x + w / 2) w ltac:(lia)) as Hm.
    assert (Hk : 0 <= (x + w / 2) / w) by (apply Z.div_pos; lia).
    set (k := (x + w / 2) / w) in *.
    split; [apply snapAxis_nonneg; lia|].
    split; [lia|].
    apply snapAxis_nonneg_fixed; [lia|]. split; [nia | lia].
Qed.

(** X2.  With grid members of type [int] and spacings of two or more,
    [nearingGridPoint] returns, for every point in range, a point of the
    grid less than one step away on each axis (at most half a step when
    the spacing is even), and it is idempotent: a point of the grid,
    negative coordinates included, is returned as it is. *)
Theorem nearingGridPoint_signed_idempotent (g : GridConf) (x y : Z) :
  m_gridType g = GridInt ->
  2 <= m_gridWidth g < two30 -> 2 <= m_gridHeight g < two30 ->
  - two30 + m_gridWidth g < x < two30 - m_gridWidth g ->
  - two30 + m_gridHeight g < y < two30 - m_gridHeight g ->
  exists sx sy : Z,
    nearingGridPoint g (QPointF_of_ints x y) = Some (QPointF_of_ints sx sy)
    /\ (m_gridWidth g | sx) /\ (m_gridHeight g | sy)
    /\ 2 * Z.abs (sx - x) <= m_gridWidth g + m_gridWidth g mod 2
    /\ 2 * Z.abs (sy - y) <= m_gridHeight g + m_gridHeight g mod 2
    /\ nearingGridPoint g (QPointF_of_ints sx sy) = Some (QPointF_of_ints sx sy).
Proof.
  intros Hty Hw Hh Hx Hy.
  destruct (snapAxis_int_on_grid _ _ Hw Hx) as (kx & Sx & Nx & Fx).
  destruct (snapAxis_int_on_grid _ _ Hh Hy) as (ky & Sy & Ny & Fy).
  exists (m_gridWidth g * kx), (m_gridHeight g * ky).
  split; [apply GridProperties.nearingGridPoint_of_axes; rewrite Hty; assumption|].
  split; [exists kx; lia|]. split; [exists ky; lia|].
  split; [exact Nx|]. split; [exact Ny|].
  apply GridProperties.nearingGridPoint_of_axes; rewrite Hty; assumption.
Qed.

(** X2 at work: spacing 10, the point (-14, -25). *)
Lemma nearingGridPoint_signed_idempotent_witness :
  exists sx sy : Z,
    nearingGridPoint (mkGrid GridInt 10 10) (QPointF_of_ints (-14) (-25))
      = Some (QPointF_of_ints sx sy)
    /\ nearingGridPoint (mkGrid GridInt 10 10) (QPointF_of_ints sx sy)
      = Some (QPointF_of_ints sx sy).
Proof.
  destruct (nearingGridPoint_signed_idempotent (mkGrid GridInt 10 10) (-14) (-25))
    as (sx & sy & H1 & _ & _ & _ & _ & H2).
  - reflexivity.
  - simpl. unfold two30. lia.
  - simpl. unfold two30. lia.
  - simpl. unfold two30. lia.
  - simpl. unfold two30. lia.
  - exists sx, sy. split; [exact H1 | exact H2].
Defined.

End GridOperations.

Module GridSizeProperties.

Import CInt Grid.

Lemma to_uint_canonical (ty : GridType) (v a : Z) :
  match ty with
  | GridUInt => 0 <= v < two32
  | GridInt => in_int v
  end ->
  0 <= a < two31 -> to_uint v = to_uint a -> v = a.
Proof.
  unfold to_uint, in_int, two31, two32. intros Hv Ha.
  rewrite (Z.mod_small a) by lia.
  destruct ty.
  - rewrite Z.mod_small by lia. auto.
  - destruct (Z.ltb_spec v 0).
    + replace v with (v + 2 ^ 32 - 1 * 2 ^ 32) by lia.
      replace (v + 2 ^ 32 - 1 * 2 ^ 32) with (v + 2 ^ 32 + (- 1) * 2 ^ 32) by lia.
      rewrite Z.mod_add by lia. rewrite Z.mod_small by lia. lia.
    + rewrite Z.mod_small by lia. auto.
Qed.

Lemma setGridSize_members (width height : Z) (s : SchematicScene) :
  gridInType (m_grid s) ->
  0 <= width < two31 -> 0 <= height < two31 ->
  m_gridWidth (m_grid (setGridSize width height s)) = width
  /\ m_gridHeight (m_grid (setGridSize width height s)) = height
  /\ m_gridType (m_grid (setGridSize width height s)) = m_gridType (m_grid s).
Proof.
  intros Hg Hw Hh. unfold setGridSize, gridInType in *.
  destruct (Z.eqb_spec (to_uint (m_gridWidth (m_grid s))) (to_uint width)) as [Ew|Ew];
    destruct (Z.eqb_spec (to_uint (m_gridHeight (m_grid s))) (to_uint height)) as [Eh|Eh];
    simpl.
  - split; [|split; [|reflexivity]].
    + apply (to_uint_canonical (m_gridType (m_grid s))); [|assumption|assumption].
      destruct (m_gridType (m_grid s)); tauto.
    + apply (to_uint_canonical (m_gridType (m_grid s))); [|assumption|assumption].
      destruct (m_gridType (m_grid s)); tauto.
  - destruct (m_gridType (m_grid s)); simpl;
      (split; [|split; [|reflexivity]]);
      first [apply to_uint_small; unfold two31, two32 in *; lia
            |apply to_int_small; unfold in_int, two31 in *; lia].
  - destruct (m_gridType (m_grid s)); simpl;
      (split; [|split; [|reflexivity]]);
      first [apply to_uint_small; unfold two31, two32 in *; lia
            |apply to_int_small; unfold in_int, two31 in *; lia].
  - destruct (m_gridType (m_grid s)); simpl;
      (split; [|split; [|reflexivity]]);
      first [apply to_uint_small; unfold two31, two32 in *; lia
            |apply to_int_small; unfold in_int, two31 in *; lia].
Qed.

(** X3.  After [setGridSize(width, height)] the grid members are the two
    values, whether they were changed or were the current ones already,
    and [nearingGridPoint] rounds with them: a position whose
    coordinates, rounded to integers, are not negative goes to
    multiples of [width] and [height], at most half a step away, on
    each axis, from the rounded coordinate. *)
Theorem setGridSize_sets_the_snapping_step
    (width height : Z) (s : SchematicScene) (pos : QPointF) :
  gridInType (m_grid s) ->
  0 < width < two30 -> 0 < height < two30 ->
  0 <= xi (toPoint pos) < two30 -> 0 <= yi (toPoint pos) < two30 ->
  m_gridWidth (m_grid (setGridSize width height s)) = width
  /\ m_gridHeight (m_grid (setGridSize width height s)) = height
  /\ exists sx sy : Z,
       nearingGridPoint (m_grid (setGridSize width height s)) pos
       = Some (QPointF_of_ints sx sy)
       /\ (width | sx) /\ (height | sy)
       /\ 2 * Z.abs (sx - xi (toPoint pos)) <= width
       /\ 2 * Z.abs (sy - yi (toPoint pos)) <= height.
Proof.
  intros Hg Hw Hh Hx Hy.
  set (x := xi (toPoint pos)) in *. set (y := yi (toPoint pos)) in *.
  destruct (setGridSize_members width height s Hg) as (Ew & Eh & _);
    [unfold two30, two31 in *; lia | unfold two30, two31 in *; lia|].
  split; [exact Ew|]. split; [exact Eh|].
  set (g := m_grid (setGridSize width height s)) in *.
  assert (Sx : snapAxis (m_gridType g) (m_gridWidth g) x
               = Some (width * ((x + width / 2) / width)))
    by (rewrite Ew; now apply snapAxis_nonneg).
  assert (Sy : snapAxis (m_gridType g) (m_gridHeight g) y
               = Some (height * ((y + height / 2) / height)))
    by (rewrite Eh; now apply snapAxis_nonneg).
  eexists _, _.
  split.
  { rewrite GridOperations.nearingGridPoint_toPoint.
    exact (GridProperties.nearingGridPoint_of_axes g x y _ _ Sx Sy). }
  rewrite Ew in Sx. rewrite Eh in Sy.
  destruct (snapAxis_nonneg_nearest _ _ _ _ Hw Hx Sx) as [Dx Nx].
  destruct (snapAxis_nonneg_nearest _ _ _ _ Hh Hy Sy) as [Dy Ny].
  repeat split; assumption.
Qed.

(** X4.  [setGridSize] takes a spacing of zero like any other value;
    from then on [nearingGridPoint] has no result at any position, the
    remainder by the spacing being a division by zero. *)
Theorem setGridSize_zero_breaks_snapping
    (width height : Z) (s : SchematicScene) (pos : QPointF) :
  gridInType (m_grid s) ->
  0 <= width < two31 -> 0 <= height < two31 ->
  width = 0 \/ height = 0 ->
  nearingGridPoint (m_grid (setGridSize width height s)) pos = None.
Proof.
  intros Hg Hw Hh H0.
  destruct (setGridSize_members width height s Hg Hw Hh) as (Ew & Eh & _).
  unfold nearingGridPoint. rewrite Ew, Eh.
  destruct H0 as [-> | ->].
  - reflexivity.
  - unfold snapAxis at 2. simpl.
    now destruct (snapAxis _ width _).
Qed.

End GridSizeProperties.

Module GridSizeWitnesses.

Import CInt Grid Sample.

Lemma emptyScene_gridInType : gridInType (m_grid emptyScene).
Proof. vm_compute. repeat split; discriminate. Qed.

(** X3 at work: the spacings 20 and 5 on the empty scene, the position
    (27.3, 7.5), which is rounded to (27, 8). *)
Lemma setGridSize_sets_the_snapping_step_witness :
  m_gridWidth (m_grid (setGridSize 20 5 emptyScene)) = 20
  /\ exists sx sy : Z,
       nearingGridPoint (m_grid (setGridSize 20 5 emptyScene))
         (mkQPointF (273 # 10) (75 # 10))
       = Some (QPointF_of_ints sx sy)
       /\ (20 | sx) /\ (5 | sy).
Proof.
  destruct (GridSizeProperties.setGridSize_sets_the_snapping_step 20 5 emptyScene
              (mkQPointF (273 # 10) (75 # 10)))
    as (Ew & _ & sx & sy & H & Dx & Dy & _).
  - exact emptyScene_gridInType.
  - unfold two30. lia.
  - unfold two30. lia.
  - vm_compute. split; [discriminate | reflexivity].
  - vm_compute. split; [discriminate | reflexivity].
  - split; [exact Ew|]. exists sx, sy. repeat split; assumption.
Defined.

(** X4 at work: a width of zero on the empty scene. *)
Lemma setGridSize_zero_breaks_snapping_witness :
  nearingGridPoint (m_grid (setGridSize 0 10 emptyScene)) (QPointF_of_ints 3 4) = None.
Proof.
  apply GridSizeProperties.setGridSize_zero_breaks_snapping.
  - exact emptyScene_gridInType.
  - unfold two31. lia.
  - unfold two31. lia.
  - now left.
Defined.

End GridSizeWitnesses.

(** ** Deleting items: [deleteItems] *)

Section DeleteOperations.

Context {C : Collaborators}.

(** Without the undo option every item of the list is deleted; deleting
    through a pointer to an item that is no longer there has no result.
    With it the items are disconnected and a [RemoveItemsCmd] is pushed,
    inside a macro. *)
Definition deleteItems (its : list ItemPtr) (opt : UndoOption) (s : SchematicScene)
  : option SchematicScene :=
  match opt with
  | DontPushUndoCmd =>
      foreach its
        (fun item s' =>
           let* _ := Heap.lookup item (items s') in
           Some (deleteItem item s'))
        s
  | PushUndoCmd =>
      let s0 := beginMacro "Delete items" s in
      let* s1 := disconnectItems its opt s0 in
      let* s2 := push (RemoveItemsCmd its) s1 in
      Some (endMacro s2)
  end.

End DeleteOperations.

Section DeleteProperties.

Context {C : Collaborators}.

Import Undo UndoFacts.

Lemma lookup_updates_fixed (f : QucsItem -> QucsItem) (its : list ItemPtr) (h : Heap.t)
    (p : ItemPtr) (it : QucsItem) :
  (forall x, f (f x) = f x) ->
  Heap.lookup p h = Some (f it) ->
  Heap.lookup p (fold_left (fun h' q => Heap.update q f h') its h) = Some (f it).
Proof.
  intros Hf. revert h. induction its as [|q its IH]; intros h Hl; simpl; [exact Hl|].
  apply IH. destruct (Nat.eq_dec q p) as [->|Hne].
  - rewrite (Heap.lookup_update_same _ _ _ _ Hl). now rewrite Hf.
  - now rewrite Heap.lookup_update_other.
Qed.

Lemma lookup_updates_in (f : QucsItem -> QucsItem) (its : list ItemPtr) (h : Heap.t)
    (p : ItemPtr) (it : QucsItem) :
  (forall x, f (f x) = f x) ->
  In p its -> Heap.lookup p h = Some it ->
  Heap.lookup p (fold_left (fun h' q => Heap.update q f h') its h) = Some (f it).
Proof.
  intros Hf. revert h. induction its as [|q its IH]; intros h Hin Hl; simpl; [destruct Hin|].
  destruct (Nat.eq_dec q p) as [->|Hne].
  - apply lookup_updates_fixed; [exact Hf|]. now apply Heap.lookup_update_same.
  - destruct Hin as [?|Hin]; [contradiction|].
    apply IH; [exact Hin|]. now rewrite Heap.lookup_update_other.
Qed.

Lemma lookup_updates_notin (f : QucsItem -> QucsItem) (its : list ItemPtr) (h : Heap.t)
    (p : ItemPtr) :
  ~ In p its ->
  Heap.lookup p (fold_left (fun h' q => Heap.update q f h') its h) = Heap.lookup p h.
Proof.
  revert h. induction its as [|q its IH]; intros h Hn; simpl; [reflexivity|].
  rewrite IH by (intros H; apply Hn; now right).
  apply Heap.lookup_update_other. intros ->. apply Hn. now left.
Qed.

Lemma deleteItems_undo_calls (its : list ItemPtr) (h : Heap.t)
    (c : list (PortRef * PortRef)) (u : QUndoStack) (s : SchematicScene) :
  Forall (valid h) its ->
  deleteItems its PushUndoCmd (withWorld h c u s)
  = Some (withWorld
            (fold_left (fun h' q => Heap.update q (set_onScene false) h') its h)
            (fst (disconnectAll PushUndoCmd its h c))
            (u ++ BeginMacro "Delete items"
               :: (BeginMacro "Disconnect items"
                     :: snd (disconnectAll PushUndoCmd its h c) ++ [EndMacro])
               ++ [Push (RemoveItemsCmd its); EndMacro])
            s).
Proof.
  intros Hv. unfold deleteItems.
  rewrite beginMacro_withWorld, (disconnectItems_spec _ _ _ _ _ _ Hv).
  rewrite push_withWorld. unfold redo.
  rewrite (onItem_all _ _ _ _ _ _ Hv). rewrite endMacro_withWorld.
  unfold bracket. do 2 f_equal. rewrite <- !app_assoc. simpl.
  rewrite <- !app_assoc. reflexivity.
Qed.

(** What [deleteItems] with the undo option records, and where it
    leaves the items. *)
Lemma deleteItems_undo_facts (its : list ItemPtr) (s : SchematicScene) :
  Forall (valid (items s)) its ->
  exists s' dcalls,
    deleteItems its PushUndoCmd s = Some s'
    /\ m_undoStack s'
       = m_undoStack s
         ++ BeginMacro "Delete items"
            :: (BeginMacro "Disconnect items" :: dcalls ++ [EndMacro])
            ++ [Push (RemoveItemsCmd its); EndMacro]
    /\ Forall (fun c => isPush c = true) dcalls
    /\ (forall p it, In p its -> Heap.lookup p (items s) = Some it ->
                     Heap.lookup p (items s') = Some (set_onScene false it))
    /\ (forall p, ~ In p its -> Heap.lookup p (items s') = Heap.lookup p (items s)).
Proof.
  intros Hv.
  pose proof (deleteItems_undo_calls its (items s) (connections s) (m_undoStack s) s Hv)
    as H.
  rewrite withWorld_id in H.
  set (d := disconnectAll PushUndoCmd its (items s) (connections s)) in *.
  eexists _, (snd d). split; [exact H|].
  split; [reflexivity|]. split; [apply disconnectAll_pushes|].
  split.
  - intros p it Hin Hl. change (items (withWorld ?a ?b ?x s)) with a.
    now apply lookup_updates_in.
  - intros p Hn. change (items (withWorld ?a ?b ?x s)) with a.
    now apply lookup_updates_notin.
Qed.

(** X5.  [deleteItems] with the undo option records one macro "Delete
    items" that holds the macro of [disconnectItems] and then the push
    of one [RemoveItemsCmd] for the whole list; as many macros are open
    afterwards as before.  The items are not freed: each stays
    allocated as it was, only off the scene, so that the command can
    bring it back; every other item is left alone. *)
Theorem deleteItems_with_undo_keeps_the_items (its : list ItemPtr) (s : SchematicScene) :
  Forall (valid (items s)) its ->
  exists s' dcalls,
    deleteItems its PushUndoCmd s = Some s'
    /\ m_undoStack s'
       = m_undoStack s
         ++ BeginMacro "Delete items"
            :: (BeginMacro "Disconnect items" :: dcalls ++ [EndMacro])
            ++ [Push (RemoveItemsCmd its); EndMacro]
    /\ Forall (fun c => isPush c = true) dcalls
    /\ macroDepth (m_undoStack s') = macroDepth (m_undoStack s)
    /\ (forall p it, In p its -> Heap.lookup p (items s) = Some it ->
                     Heap.lookup p (items s') = Some (set_onScene false it))
    /\ (forall p, ~ In p its -> Heap.lookup p (items s') = Heap.lookup p (items s)).
Proof.
  intros Hv.
  destruct (deleteItems_undo_facts its s Hv) as (s' & dcalls & Hr & Hu & Hd & Hin & Hout).
  exists s', dcalls. split; [exact Hr|]. split; [exact Hu|]. split; [exact Hd|].
  split; [|split; [exact Hin | exact Hout]].
  rewrite Hu. unfold macroDepth. rewrite depthFrom_app. apply balanced_depth.
  assert (Hb : balanced
                 (BeginMacro "Delete items"
                    :: ((BeginMacro "Disconnect items" :: dcalls ++ [EndMacro])
                          ++ [Push (RemoveItemsCmd its)])
                    ++ [EndMacro]) = true).
  { apply balanced_bracket. apply balanced_app; [|reflexivity].
    apply balanced_bracket. now apply balanced_pushes. }
  rewrite <- app_assoc in Hb. exact Hb.
Qed.

(** The heap and the connections after deleting the items of a list. *)
Definition removeAll (its : list ItemPtr) (h : Heap.t) : Heap.t :=
  fold_left (fun h' p => Heap.remove p h') its h.
Definition dropAll (its : list ItemPtr) (c : list (PortRef * PortRef))
  : list (PortRef * PortRef) :=
  fold_left (fun c' p => dropConnectionsOf p c') its c.

Lemma lookup_removeAll_notin (its : list ItemPtr) (h : Heap.t) (p : ItemPtr) :
  ~ In p its -> Heap.lookup p (removeAll its h) = Heap.lookup p h.
Proof.
  unfold removeAll. revert h. induction its as [|q its IH]; intros h Hn; simpl; [reflexivity|].
  rewrite IH by (intros H; apply Hn; now right).
  apply Heap.lookup_remove_other. intros ->. apply Hn. now left.
Qed.

Lemma lookup_removeAll_none (its : list ItemPtr) (h : Heap.t) (p : ItemPtr) :
  Heap.lookup p h = None -> Heap.lookup p (removeAll its h) = None.
Proof.
  unfold removeAll. revert h. induction its as [|q its IH]; intros h Hl; simpl; [exact Hl|].
  apply IH. destruct (Nat.eq_dec q p) as [->|Hne].
  - apply Heap.lookup_remove_same.
  - now rewrite Heap.lookup_remove_other.
Qed.

Lemma lookup_removeAll_in (its : list ItemPtr) (h : Heap.t) (p : ItemPtr) :
  In p its -> Heap.lookup p (removeAll its h) = None.
Proof.
  unfold removeAll. revert h. induction its as [|q its IH]; intros h Hin; simpl; [destruct Hin|].
  destruct (Nat.eq_dec q p) as [->|Hne].
  - apply (lookup_removeAll_none its). apply Heap.lookup_remove_same.
  - destruct Hin as [?|Hin]; [contradiction|]. now apply IH.
Qed.

Lemma in_dropAll (its : list ItemPtr) (c : list (PortRef * PortRef))
    (e : PortRef * PortRef) :
  In e (dropAll its c) ->
  In e c /\ ~ In (fst (fst e)) its /\ ~ In (fst (snd e)) its.
Proof.
  unfold dropAll. revert c. induction its as [|q its IH]; intros c Hin; simpl in *.
  - tauto.
  - apply IH in Hin. destruct Hin as (Hin & H1 & H2).
    unfold dropConnectionsOf in Hin. apply filter_In in Hin. destruct Hin as [Hin Hb].
    apply negb_true_iff, orb_false_elim in Hb. destruct Hb as [Ha Hb].
    apply Nat.eqb_neq in Ha, Hb. split; [exact Hin|]. split; (intros [Hx|Hx]; [first [exact (Ha Hx) | exact (Hb Hx)] | contradiction]).
Qed.

Lemma deleteLoop_spec (its : list ItemPtr) (h : Heap.t)
    (c : list (PortRef * PortRef)) (u : QUndoStack) (s : SchematicScene) :
  NoDup its -> Forall (valid h) its ->
  deleteItems its DontPushUndoCmd (withWorld h c u s)
  = Some (withWorld (removeAll its h) (dropAll its c) u s).
Proof.
  unfold deleteItems, removeAll, dropAll.
  intros Hnd. revert h c. induction Hnd as [|p its Hn Hnd IH]; intros h c Hv; simpl.
  - reflexivity.
  - inversion Hv as [|? ? Hp Hv']; subst.
    change (items (withWorld h c u s)) with h.
    unfold valid in Hp. destruct (Heap.lookup p h) as [it|]; [|congruence].
    change (deleteItem p (withWorld h c u s))
      with (withWorld (Heap.remove p h) (dropConnectionsOf p c) u s).
    apply IH. apply Forall_forall. intros q Hq.
    rewrite Forall_forall in Hv'. specialize (Hv' q Hq). unfold valid in *.
    rewrite Heap.lookup_remove_other; [exact Hv'|]. intros ->. contradiction.
Qed.

Lemma deleteLoop_dangling (its : list ItemPtr) (s : SchematicScene) (p : ItemPtr) :
  In p its -> Heap.lookup p (items s) = None ->
  deleteItems its DontPushUndoCmd s = None.
Proof.
  unfold deleteItems. revert s. induction its as [|q its IH]; intros s Hin Hl; simpl.
  - destruct Hin.
  - destruct (Heap.lookup q (items s)) as [it|] eqn:E; [|reflexivity].
    destruct Hin as [->|Hin]; [congruence|].
    apply IH; [exact Hin|]. simpl.
    destruct (Nat.eq_dec q p) as [->|Hne]; [congruence|].
    now rewrite Heap.lookup_remove_other.
Qed.

Lemma deleteLoop_twice (its : list ItemPtr) (s : SchematicScene) :
  ~ NoDup its -> deleteItems its DontPushUndoCmd s = None.
Proof.
  revert s. induction its as [|q its IH]; intros s Hnd.
  - exfalso. apply Hnd. constructor.
  - destruct (in_dec Nat.eq_dec q its) as [Hin|Hn].
    + unfold deleteItems. simpl.
      destruct (Heap.lookup q (items s)) as [it|]; [|reflexivity].
      apply (deleteLoop_dangling its _ q Hin). simpl. apply Heap.lookup_remove_same.
    + assert (Hnd' : ~ NoDup its) by (intros H; apply Hnd; now constructor).
      unfold deleteItems. simpl.
      destruct (Heap.lookup q (items s)) as [it|]; [|reflexivity].
      apply (IH _ Hnd').
Qed.

(** X6.  [deleteItems] without the undo option frees the items at once:
    none of them can be looked up any more, no connection to one of
    their ports is left, every other item is left alone and nothing
    reaches the undo stack.  Nothing keeps the function from deleting
    an item twice: a list in which an item occurs twice has no result. *)
Theorem deleteItems_without_undo_frees_the_items (its : list ItemPtr) (s : SchematicScene) :
  Forall (valid (items s)) its ->
  (NoDup its ->
   exists s',
     deleteItems its DontPushUndoCmd s = Some s'
     /\ m_undoStack s' = m_undoStack s
     /\ (forall p, In p its -> Heap.lookup p (items s') = None)
     /\ (forall p, ~ In p its -> Heap.lookup p (items s') = Heap.lookup p (items s))
     /\ (forall e, In e (connections s') ->
                   In e (connections s)
                   /\ ~ In (fst (fst e)) its /\ ~ In (fst (snd e)) its))
  /\ (~ NoDup its -> deleteItems its DontPushUndoCmd s = None).
Proof.
  intros Hv. split; [|apply deleteLoop_twice].
  intros Hnd.
  pose proof (deleteLoop_spec its (items s) (connections s) (m_undoStack s) s Hnd Hv) as H.
  rewrite withWorld_id in H.
  eexists. split; [exact H|]. split; [reflexivity|].
  split; [intros p Hp; now apply lookup_removeAll_in|].
  split; [intros p Hp; now apply lookup_removeAll_notin|].
  intros e He. now apply in_dropAll.
Qed.

End DeleteProperties.

Module DeleteWitnesses.

Import Sample.

(** Two resistors on the scene, at the addresses 1 and 2, joined port
    to port. *)
Definition joined : SchematicScene :=
  set_connections [((1%nat, 1%nat), (2%nat, 0%nat))]
    (withItems [component "R" "R1" 0 0 false; component "R" "R2" 0 0 false] emptyScene).

Lemma joined_valid (l : list ItemPtr) :
  forallb (fun p => (0 <? p)%nat && (p <=? 2)%nat) l = true ->
  Forall (valid (items joined)) l.
Proof.
  intros H. apply Forall_forall. intros p Hp.
  rewrite forallb_forall in H. specialize (H p Hp).
  apply andb_true_iff in H. destruct H as [H1 H2].
  apply Nat.ltb_lt in H1. apply Nat.leb_le in H2.
  assert (p = 1 \/ p = 2)%nat as [-> | ->] by lia; vm_compute; discriminate.
Qed.

(** X5 at work: the first resistor deleted with the undo option. *)
Lemma deleteItems_with_undo_keeps_the_items_witness :
  exists s',
    deleteItems [1%nat] PushUndoCmd joined = Some s'
    /\ Undo.macroDepth (m_undoStack s') = Undo.macroDepth (m_undoStack joined)
    /\ Heap.lookup 1%nat (items s')
       = Some (set_onScene false (component "R" "R1" 0 0 false)).
Proof.
  destruct (deleteItems_with_undo_keeps_the_items [1%nat] joined)
    as (s' & dcalls & Hr & _ & _ & Hd & Hin & _).
  - apply joined_valid. reflexivity.
  - exists s'. split; [exact Hr|]. split; [exact Hd|].
    apply Hin; [now left | reflexivity].
Defined.

(** X6 at work: the same without the undo option, and the item twice. *)
Lemma deleteItems_without_undo_frees_the_items_witness :
  (exists s',
      deleteItems [1%nat] DontPushUndoCmd joined = Some s'
      /\ Heap.lookup 1%nat (items s') = None
      /\ connections s' = [])
  /\ deleteItems [1%nat; 1%nat] DontPushUndoCmd joined = None.
Proof.
  split.
  - destruct (deleteItems_without_undo_frees_the_items [1%nat] joined) as [H _].
    + apply joined_valid. reflexivity.
    + destruct H as (s' & Hr & _ & Hin & _ & Hc).
      * repeat constructor. intros [].
      * exists s'. split; [exact Hr|]. split; [apply Hin; now left|].
        destruct (connections s') as [|e l] eqn:E; [reflexivity|].
        destruct (Hc e (or_introl eq_refl)) as (He & H1 & H2).
        destruct He as [<-|[]]. exfalso. apply H1. now left.
  - destruct (deleteItems_without_undo_frees_the_items [1%nat; 1%nat] joined) as [_ H].
    + apply joined_valid. reflexivity.
    + apply H. intros Hnd. inversion Hnd as [|? ? Hn _]. apply Hn. now left.
Defined.

End DeleteWitnesses.

(** ** Putting items on the grid: [setItemsOnGrid] *)

(** [qFuzzyIsNull] and [operator==] of [QPointF] as Qt 4.6 and later
    have them: two points are equal when neither coordinate differs by
    more than the [double] written [0.000000000001], which is
    4951760157141521 / 2^92. *)
Definition qFuzzyIsNull (d : Q) : bool :=
  Qle_bool (Qabs d) (4951760157141521 # (2 ^ 92)).

Definition QPointF_fuzzyEqual (a b : QPointF) : bool :=
  qFuzzyIsNull (xf a - xf b) && qFuzzyIsNull (yf a - yf b).

Section OnGridOperations.

Context {C : Collaborators}.

(** [operator==] of [QPointF], which is Qt's and not among the
    sources.  It compares with a tolerance, and how the tolerance is
    taken has changed between the versions of Qt, so the comparison is
    a parameter; [pos != gpos] is its negation. *)
Variable QPointF_equal : QPointF -> QPointF -> bool.

(** The first loop of [setItemsOnGrid]: the items whose position is not
    the grid point it is snapped to. *)
Definition itemsNotOnGrid (its : list ItemPtr) (s : SchematicScene)
  : option (list ItemPtr) :=
  foreach its
    (fun item acc =>
       let* it := Heap.lookup item (items s) in
       let* gpos := Grid.nearingGridPoint (m_grid s) (pos it) in
       Some (if negb (QPointF_equal (pos it) gpos) then acc ++ [item] else acc))
    [].

Definition setItemsOnGrid (its : list ItemPtr) (opt : UndoOption) (s : SchematicScene)
  : option SchematicScene :=
  let* notOnGrid := itemsNotOnGrid its s in
  match notOnGrid with
  | [] => Some s
  | _ :: _ =>
      let s0 := match opt with
                | PushUndoCmd => beginMacro "Set on grid" s
                | DontPushUndoCmd => s
                end in
      let* s1 := disconnectItems notOnGrid opt s0 in
      let* s2 :=
        foreach notOnGrid
          (fun item s' =>
             let* it := Heap.lookup item (items s') in
             let* gridPos := Grid.nearingGridPoint (m_grid s') (pos it) in
             match opt with
             | PushUndoCmd => push (MoveCmd item (pos it) gridPos) s'
             | DontPushUndoCmd => onItem item (setPos gridPos) s'
             end)
          s1 in
      let* s3 := connectItems notOnGrid opt s2 in
      Some (match opt with
            | PushUndoCmd => endMacro s3
            | DontPushUndoCmd => s3
            end)
  end.

End OnGridOperations.

Section OnGridProperties.

Context {C : Collaborators}.

Variable QPointF_equal : QPointF -> QPointF -> bool.

Import Undo UndoFacts.

(** An item is on the grid when its position is, as [operator==] has
    it, the point it is snapped to. *)
Definition onGrid (g : Grid.GridConf) (it : QucsItem) : Prop :=
  exists gpos, Grid.nearingGridPoint g (pos it) = Some gpos
               /\ QPointF_equal (pos it) gpos = true.

Definition offGridb (g : Grid.GridConf) (h : Heap.t) (p : ItemPtr) : bool :=
  match Heap.lookup p h with
  | Some it =>
      match Grid.nearingGridPoint g (pos it) with
      | Some gpos => negb (QPointF_equal (pos it) gpos)
      | None => false
      end
  | None => false
  end.

Lemma nearingGridPoint_defined (g : Grid.GridConf) (p : QPointF) :
  Grid.m_gridWidth g <> 0 -> Grid.m_gridHeight g <> 0 ->
  exists q, Grid.nearingGridPoint g p = Some q.
Proof.
  intros Hw Hh. unfold Grid.nearingGridPoint.
  destruct (snapAxis_defined (Grid.m_gridType g) _ (xi (toPoint p)) Hw) as [sx ->].
  destruct (snapAxis_defined (Grid.m_gridType g) _ (yi (toPoint p)) Hh) as [sy ->].
  eexists. reflexivity.
Qed.

Lemma itemsNotOnGrid_filter (its : list ItemPtr) (s : SchematicScene) :
  Forall (valid (items s)) its ->
  Grid.m_gridWidth (m_grid s) <> 0 -> Grid.m_gridHeight (m_grid s) <> 0 ->
  itemsNotOnGrid QPointF_equal its s = Some (filter (offGridb (m_grid s) (items s)) its).
Proof.
  intros Hv Hw Hh. unfold itemsNotOnGrid.
  assert (G : forall acc,
             foreach its
               (fun item acc0 =>
                  let* it := Heap.lookup item (items s) in
                  let* gpos := Grid.nearingGridPoint (m_grid s) (pos it) in
                  Some (if negb (QPointF_equal (pos it) gpos)
                        then acc0 ++ [item] else acc0))
               acc
             = Some (acc ++ filter (offGridb (m_grid s) (items s)) its)).
  { induction Hv as [|p its Hp Hv IH]; intros acc; simpl.
    - now rewrite app_nil_r.
    - unfold offGridb at 1. unfold valid in Hp.
      destruct (Heap.lookup p (items s)) as [it|]; [|congruence].
      destruct (nearingGridPoint_defined (m_grid s) (pos it) Hw Hh) as [gp ->].
      destruct (negb (QPointF_equal (pos it) gp)); rewrite IH.
      + now rewrite <- app_assoc.
      + reflexivity. }
  apply G.
Qed.

(** X7.  [setItemsOnGrid] on items that are all on the grid returns
    before anything is done: the scene is as it was, and with the undo
    option no macro is opened, so no empty entry reaches the undo
    stack. *)
Theorem setItemsOnGrid_on_grid_is_noop
    (its : list ItemPtr) (opt : UndoOption) (s : SchematicScene) :
  (forall p, In p its ->
             exists it, Heap.lookup p (items s) = Some it /\ onGrid (m_grid s) it) ->
  setItemsOnGrid QPointF_equal its opt s = Some s.
Proof.
  intros H. unfold setItemsOnGrid, itemsNotOnGrid.
  assert (G : forall acc,
             foreach its
               (fun item acc0 =>
                  let* it := Heap.lookup item (items s) in
                  let* gpos := Grid.nearingGridPoint (m_grid s) (pos it) in
                  Some (if negb (QPointF_equal (pos it) gpos)
                        then acc0 ++ [item] else acc0))
               acc
             = Some acc).
  { induction its as [|p its IH]; intros acc; simpl; [reflexivity|].
    destruct (H p (or_introl eq_refl)) as (it & -> & gp & -> & ->). simpl.
    apply IH. intros q Hq. apply H. now right. }
  now rewrite G.
Qed.

Definition moveStep (opt : UndoOption) (item : ItemPtr) (s' : SchematicScene)
  : option SchematicScene :=
  let* it := Heap.lookup item (items s') in
  let* gridPos := Grid.nearingGridPoint (m_grid s') (pos it) in
  match opt with
  | PushUndoCmd => push (MoveCmd item (pos it) gridPos) s'
  | DontPushUndoCmd => onItem item (setPos gridPos) s'
  end.

Lemma moveLoop_spec (opt : UndoOption) (l : list ItemPtr) (c : list (PortRef * PortRef))
    (s : SchematicScene) :
  Grid.m_gridWidth (m_grid s) <> 0 -> Grid.m_gridHeight (m_grid s) <> 0 ->
  NoDup l ->
  forall (h : Heap.t) (u : QUndoStack),
    Forall (valid h) l ->
    exists h' u',
      foreach l (moveStep opt) (withWorld h c u s) = Some (withWorld h' c (u ++ u') s)
      /\ Forall (fun x => isPush x = true) u'
      /\ (opt = DontPushUndoCmd -> u' = [])
      /\ (forall p it, In p l -> Heap.lookup p h = Some it ->
            exists gp, Grid.nearingGridPoint (m_grid s) (pos it) = Some gp
                       /\ Heap.lookup p h' = Some (setPos gp it))
      /\ (forall p, ~ In p l -> Heap.lookup p h' = Heap.lookup p h)
      /\ (forall p, valid h p -> valid h' p).
Proof.
  intros Hw Hh Hnd. induction Hnd as [|p l Hn Hnd IH]; intros h u Hv.
  - exists h, []. simpl. rewrite app_nil_r. split; [reflexivity|].
    split; [constructor|]. split; [reflexivity|].
    split; [intros ? ? []|]. split; [reflexivity | auto].
  - inversion Hv as [|? ? Hp Hv']; subst.
    unfold valid in Hp. destruct (Heap.lookup p h) as [it|] eqn:El; [|congruence].
    destruct (nearingGridPoint_defined (m_grid s) (pos it) Hw Hh) as [gp Eg].
    set (u1 := match opt with
               | PushUndoCmd => u ++ [Push (MoveCmd p (pos it) gp)]
               | DontPushUndoCmd => u
               end).
    assert (Hstep : moveStep opt p (withWorld h c u s)
                    = Some (withWorld (Heap.update p (setPos gp) h) c u1 s)).
    { unfold moveStep. change (items (withWorld h c u s)) with h.
      change (m_grid (withWorld h c u s)) with (m_grid s).
      rewrite El, Eg. subst u1. destruct opt.
      - unfold push, redo, onItem. simpl. rewrite El. reflexivity.
      - unfold onItem. simpl. rewrite El. reflexivity. }
    assert (Hv1 : Forall (valid (Heap.update p (setPos gp) h)) l).
    { eapply Forall_impl; [|exact Hv']. intros q. apply valid_update. }
    destruct (IH (Heap.update p (setPos gp) h) u1 Hv1)
      as (h' & u' & Hrun & Hpush & Hsil & Hin & Hout & Hval).
    exists h', (match opt with
                | PushUndoCmd => Push (MoveCmd p (pos it) gp) :: u'
                | DontPushUndoCmd => u'
                end).
    split.
    { simpl. fold (moveStep opt). rewrite Hstep, Hrun. subst u1.
      destruct opt; [now rewrite <- app_assoc | reflexivity]. }
    split; [destruct opt; [constructor; [reflexivity | exact Hpush] | exact Hpush]|].
    split; [intros ->; now apply Hsil|].
    split.
    { intros q iq [<-|Hq] Hl.
      - rewrite El in Hl. injection Hl as <-. exists gp. split; [exact Eg|].
        rewrite (Hout p Hn). now apply Heap.lookup_update_same.
      - apply (Hin q iq Hq). rewrite Heap.lookup_update_other; [exact Hl|].
        intros ->. contradiction. }
    split.
    { intros q Hq. rewrite Hout by (intros H; apply Hq; now right).
      apply Heap.lookup_update_other. intros ->. apply Hq. now left. }
    intros q Hq. apply Hval. now apply valid_update.
Qed.

Lemma match_nonempty {A B : Type} (l : list A) (x y : B) :
  l <> [] -> match l with [] => x | _ :: _ => y end = y.
Proof. destruct l; [congruence | reflexivity]. Qed.

(** X8.  [setItemsOnGrid] of distinct items, with either undo option and
    a grid without a zero spacing: an item of the list that
    [operator==] does not find at the grid point [nearingGridPoint]
    gives for its position is moved to exactly that point and is
    otherwise as it was; an item that [operator==] finds there is left
    as it is, also when its coordinates differ from those of the grid
    point within the tolerance of the comparison; items that are not in
    the list are left alone; as many macros are open as before, and
    without the undo option the undo stack is as it was. *)
Theorem setItemsOnGrid_moves_to_the_snapped_points
    (its : list ItemPtr) (opt : UndoOption) (s : SchematicScene) :
  NoDup its -> Forall (valid (items s)) its ->
  Grid.m_gridWidth (m_grid s) <> 0 -> Grid.m_gridHeight (m_grid s) <> 0 ->
  exists s',
    setItemsOnGrid QPointF_equal its opt s = Some s'
    /\ (forall p it, In p its -> Heap.lookup p (items s) = Some it ->
          exists it' gpos,
            Heap.lookup p (items s') = Some it'
            /\ Grid.nearingGridPoint (m_grid s) (pos it) = Some gpos
            /\ (QPointF_equal (pos it) gpos = true -> it' = it)
            /\ (QPointF_equal (pos it) gpos = false -> it' = setPos gpos it))
    /\ (forall p, ~ In p its -> Heap.lookup p (items s') = Heap.lookup p (items s))
    /\ macroDepth (m_undoStack s') = macroDepth (m_undoStack s)
    /\ (opt = DontPushUndoCmd -> m_undoStack s' = m_undoStack s).
Proof.
  intros Hnd Hv Hw Hh. unfold setItemsOnGrid.
  rewrite (itemsNotOnGrid_filter its s Hv Hw Hh).
  set (l := filter (offGridb (m_grid s) (items s)) its).
  assert (Hstay : forall p it, In p its -> ~ In p l ->
                    Heap.lookup p (items s) = Some it ->
                    exists gp, Grid.nearingGridPoint (m_grid s) (pos it) = Some gp
                               /\ QPointF_equal (pos it) gp = true).
  { intros p it Hin Hout Hl.
    destruct (nearingGridPoint_defined (m_grid s) (pos it) Hw Hh) as [gp Eg].
    exists gp. split; [exact Eg|].
    destruct (QPointF_equal (pos it) gp) eqn:E; [reflexivity|].
    exfalso. apply Hout. apply filter_In. split; [exact Hin|].
    unfold offGridb. now rewrite Hl, Eg, E. }
  assert (Hcase : l = [] \/ l <> []) by (destruct l; [now left | right; discriminate]).
  destruct Hcase as [Hnil|Hcons].
  { rewrite Hnil. exists s. split; [reflexivity|]. split.
    - intros p it Hin Hl. rewrite Hnil in Hstay.
      destruct (Hstay p it Hin (fun H => H) Hl) as (gp & Eg & Eq).
      exists it, gp. split; [exact Hl|]. split; [exact Eg|].
      split; [reflexivity | congruence].
    - split; [reflexivity|]. split; [reflexivity | reflexivity]. }
  rewrite (match_nonempty l _ _ Hcons).
  assert (Hndl : NoDup l) by (apply NoDup_filter; exact Hnd).
  assert (Hvl : Forall (valid (items s)) l).
  { apply Forall_forall. intros p Hp. apply filter_In in Hp.
    rewrite Forall_forall in Hv. now apply Hv. }
  set (u0 := match opt with
             | PushUndoCmd => m_undoStack s ++ [BeginMacro "Set on grid"]
             | DontPushUndoCmd => m_undoStack s
             end).
  assert (E0 : match opt with
               | PushUndoCmd => beginMacro "Set on grid" s
               | DontPushUndoCmd => s
               end = withWorld (items s) (connections s) u0 s).
  { subst u0. destruct opt.
    - rewrite <- beginMacro_withWorld. now rewrite withWorld_id.
    - now rewrite withWorld_id. }
  rewrite E0. rewrite (disconnectItems_spec _ _ _ _ _ _ Hvl).
  set (d := disconnectAll opt l (items s) (connections s)).
  fold (moveStep opt).
  destruct (moveLoop_spec opt l (fst d) s Hw Hh Hndl (items s)
              (u0 ++ bracket opt "Disconnect items" (snd d)) Hvl)
    as (h' & u' & Hrun & Hpush & Hsil & Hin & Hout & Hval).
  rewrite Hrun.
  assert (Hvl' : Forall (valid h') l)
    by (eapply Forall_impl; [|exact Hvl]; exact Hval).
  rewrite (connectItems_spec _ _ _ _ _ _ Hvl').
  set (cc := connectAll opt l h' (fst d)).
  eexists. split; [reflexivity|].
  assert (Hitems : forall x, items (match opt with
                                    | PushUndoCmd => endMacro x
                                    | DontPushUndoCmd => x
                                    end) = items x) by (intros x; now destruct opt).
  split.
  { intros p it Hp Hl. rewrite Hitems. change (items (withWorld ?a ?b ?x s)) with a.
    destruct (in_dec Nat.eq_dec p l) as [Hpl|Hpl].
    - destruct (Hin p it Hpl Hl) as (gp & Eg & Elk).
      assert (Hoff : QPointF_equal (pos it) gp = false).
      { apply filter_In in Hpl. destruct Hpl as [_ Hoff].
        unfold offGridb in Hoff. rewrite Hl, Eg in Hoff.
        now apply negb_true_iff in Hoff. }
      exists (setPos gp it), gp. split; [exact Elk|]. split; [exact Eg|].
      split; [congruence | reflexivity].
    - destruct (Hstay p it Hp Hpl Hl) as (gp & Eg & Eq).
      exists it, gp. rewrite (Hout p Hpl). split; [exact Hl|]. split; [exact Eg|].
      split; [reflexivity | congruence]. }
  split.
  { intros p Hp. rewrite Hitems. change (items (withWorld ?a ?b ?x s)) with a.
    apply Hout. intros H. apply Hp. apply filter_In in H. tauto. }
  assert (Hd : Forall (fun x => isPush x = true) (snd d)) by apply disconnectAll_pushes.
  assert (Hc : balanced (snd cc) = true) by apply connectAll_balanced.
  destruct opt.
  - split; [|discriminate].
    rewrite endMacro_withWorld. change (m_undoStack (withWorld ?a ?b ?x s)) with x.
    subst u0. unfold bracket.
    assert (Hb : balanced
                   (BeginMacro "Set on grid"
                      :: ((BeginMacro "Disconnect items" :: snd d ++ [EndMacro])
                            ++ u' ++ BeginMacro "Connect items" :: snd cc ++ [EndMacro])
                      ++ [EndMacro]) = true).
    { apply balanced_bracket. apply balanced_app.
      - apply balanced_bracket. now apply balanced_pushes.
      - apply balanced_app; [now apply balanced_pushes | now apply balanced_bracket]. }
    unfold macroDepth. rewrite <- !app_assoc. rewrite depthFrom_app.
    apply balanced_depth.
    repeat (progress (rewrite <- ?app_assoc in Hb; simpl in Hb)).
    repeat (progress (rewrite <- ?app_assoc; simpl)).
    exact Hb.
  - change (m_undoStack (withWorld ?a ?b ?x s)) with x.
    subst u0. unfold bracket.
    rewrite (Hsil eq_refl). subst d cc.
    rewrite disconnectAll_silent, connectAll_silent. rewrite !app_nil_r.
    split; [reflexivity | reflexivity].
Qed.

End OnGridProperties.

Module OnGridWitnesses.

Import Sample.

(** A resistor on the grid, at address 1, and one off it, at address 2. *)
Definition askew : SchematicScene :=
  withItems [component "R" "R1" 20 10 false; component "R" "R2" 43 18 false] emptyScene.

(** X7 at work: the resistor that is on the grid. *)
Lemma setItemsOnGrid_on_grid_is_noop_witness :
  setItemsOnGrid QPointF_fuzzyEqual [1%nat] PushUndoCmd askew = Some askew.
Proof.
  apply setItemsOnGrid_on_grid_is_noop.
  intros p [<-|[]]. eexists. split; [vm_compute; reflexivity|].
  eexists. split; vm_compute; reflexivity.
Defined.

(** A resistor whose x-coordinate is 2^-43, about 10^-13, off the grid
    point (20, 10). *)
Definition nearlyOnGrid : SchematicScene :=
  withItems [mkItem (Component "R" "R1" 2) (mkQPointF (20 + (1 # (2 ^ 43))) 10)
                    false true true] emptyScene.

(** X8 at work: both resistors; the second ends at (40, 20).  And the
    resistor that is off its grid point by less than the tolerance
    stays where it is, with nothing recorded. *)
Lemma setItemsOnGrid_moves_to_the_snapped_points_witness :
  (exists s' it',
      setItemsOnGrid QPointF_fuzzyEqual [1%nat; 2%nat] PushUndoCmd askew = Some s'
      /\ Heap.lookup 2%nat (items s') = Some it'
      /\ pos it' = QPointF_of_ints 40 20
      /\ Undo.macroDepth (m_undoStack s') = Undo.macroDepth (m_undoStack askew))
  /\ exists s',
      setItemsOnGrid QPointF_fuzzyEqual [1%nat] PushUndoCmd nearlyOnGrid = Some s'
      /\ Heap.lookup 1%nat (items s') = Heap.lookup 1%nat (items nearlyOnGrid).
Proof.
  split.
  - destruct (setItemsOnGrid_moves_to_the_snapped_points QPointF_fuzzyEqual
                [1%nat; 2%nat] PushUndoCmd askew)
      as (s' & Hr & Hin & _ & Hd & _).
    + repeat constructor; simpl; intuition discriminate.
    + repeat constructor; vm_compute; discriminate.
    + vm_compute. discriminate.
    + vm_compute. discriminate.
    + destruct (Hin 2%nat (component "R" "R2" 43 18 false))
        as (it' & gp & Hl & Hg & _ & Hoff).
      * right. now left.
      * vm_compute. reflexivity.
      * exists s', it'. split; [exact Hr|]. split; [exact Hl|]. split; [|exact Hd].
        assert (Egp : gp = QPointF_of_ints 40 20)
          by (vm_compute in Hg; injection Hg as <-; reflexivity).
        subst gp. rewrite Hoff; [reflexivity|]. vm_compute. reflexivity.
  - destruct (setItemsOnGrid_moves_to_the_snapped_points QPointF_fuzzyEqual
                [1%nat] PushUndoCmd nearlyOnGrid)
      as (s' & Hr & Hin & _).
    + repeat constructor. intros [].
    + repeat constructor; vm_compute; discriminate.
    + vm_compute. discriminate.
    + vm_compute. discriminate.
    + exists s'. split; [exact Hr|].
      destruct (Hin 1%nat (mkItem (Component "R" "R1" 2)
                             (mkQPointF (20 + (1 # (2 ^ 43))) 10) false true true))
        as (it' & gp & Hl & Hg & Hon & _).
      * now left.
      * vm_compute. reflexivity.
      * assert (Egp : gp = QPointF_of_ints 20 10)
          by (vm_compute in Hg; injection Hg as <-; reflexivity).
        subst gp. rewrite Hl. rewrite Hon; [vm_compute; reflexivity|].
        vm_compute. reflexivity.
Defined.

End OnGridWitnesses.

(** ** Clicks on items: mirroring, deleting, setting on the grid *)

Section ClickEvents.

Context {C : Collaborators}.

(** [QGraphicsScene::items(pos)]: the items at a point of the scene,
    the topmost first.  Which items these are is decided by Qt from the
    shapes of the items, which the item classes define; it is taken as a
    parameter. *)
Variable itemsAt : SchematicScene -> QPointF -> list (ItemPtr * QucsItem).

Definition mirroringEvent (event : MouseActionEvent) (axis : Axis) (s : SchematicScene)
  : option SchematicScene :=
  let _list := itemsAt s (scenePos event) in
  let qItems := filterQucsItems _list in
  match qItems with
  | [] => Some s
  | first :: _ => mirrorItems [first] PushUndoCmd axis s
  end.

Definition mirroringXEvent (event : MouseActionEvent) (s : SchematicScene)
  : option SchematicScene :=
  match ev_type event with
  | GraphicsSceneMousePress =>
      if hasButton LeftButton event then mirroringEvent event XAxis s
      else if hasButton RightButton event then mirroringEvent event YAxis s
      else Some s
  | _ => Some s
  end.

Definition mirroringYEvent (event : MouseActionEvent) (s : SchematicScene)
  : option SchematicScene :=
  match ev_type event with
  | GraphicsSceneMousePress =>
      if hasButton LeftButton event then mirroringEvent event YAxis s
      else if hasButton RightButton event then mirroringEvent event XAxis s
      else Some s
  | _ => Some s
  end.

Definition deletingEventLeftMouseClick (pos : QPointF) (s : SchematicScene)
  : option SchematicScene :=
  let _list := itemsAt s pos in
  match _list with
  | [] => Some s
  | _ :: _ =>
      let _items := filterQucsItems _list in
      match _items with
      | [] => Some s
      | first :: _ => deleteItems [first] PushUndoCmd s
      end
  end.

Definition deletingEventRightMouseClick (pos : QPointF) (s : SchematicScene)
  : option SchematicScene :=
  let _list := itemsAt s pos in
  match _list with
  | [] => Some s
  | _ :: _ =>
      let _items := filterQucsItems _list in
      match _items with
      | [] => Some s
      | first :: _ => disconnectItems [first] PushUndoCmd s
      end
  end.

Definition deletingEvent (event : MouseActionEvent) (s : SchematicScene)
  : option SchematicScene :=
  match ev_type event with
  | GraphicsSceneMousePress =>
      let pos := scenePos event in
      if hasButton LeftButton event then deletingEventLeftMouseClick pos s
      else if hasButton RightButton event then deletingEventRightMouseClick pos s
      else Some s
  | _ => Some s
  end.

(** [operator==] of [QPointF], for [setItemsOnGrid]. *)
Variable QPointF_equal : QPointF -> QPointF -> bool.

(** Both tests of [settingOnGridEvent] are made on [_list], the second
    one too, so [_items.first()] is reached when [_list] holds items
    none of which is a [QucsItem]; [first()] of an empty list has no
    result. *)
Definition settingOnGridEvent (event : MouseActionEvent) (s : SchematicScene)
  : option SchematicScene :=
  match ev_type event with
  | GraphicsSceneMousePress =>
      if negb (hasButton LeftButton event) then Some s
      else
        let _list := itemsAt s (scenePos event) in
        match _list with
        | [] => Some s
        | _ :: _ =>
            let _items := filterQucsItems _list in
            match _list with
            | [] => Some s
            | _ :: _ =>
                match _items with
                | [] => None
                | first :: _ => setItemsOnGrid QPointF_equal [first] PushUndoCmd s
                end
            end
        end
  | _ => Some s
  end.

Import Undo UndoFacts.


(** X10.  In deleting mode a press with the left button takes the
    topmost [QucsItem] under the cursor, and no other item, off the
    scene, through a [RemoveItemsCmd] pushed on the undo stack, the
    item staying allocated for the undo.  A press with the right button alone only disconnects:
    it calls [disconnectItems] for that item and no item is changed.
    A press on a spot without a [QucsItem], and any event that is not a
    press, leaves the scene as it is. *)
Theorem deletingEvent_left_deletes_right_disconnects
    (e : MouseActionEvent) (s : SchematicScene) :
  (isPress e = false -> deletingEvent e s = Some s)
  /\ (filterQucsItems (itemsAt s (scenePos e)) = [] -> deletingEvent e s = Some s)
  /\ (forall (first : ItemPtr) (rest : list ItemPtr) (it : QucsItem),
         filterQucsItems (itemsAt s (scenePos e)) = first :: rest ->
         Heap.lookup first (items s) = Some it ->
         (isLeftPress e = true ->
          exists s',
            deletingEvent e s = Some s'
            /\ Heap.lookup first (items s') = Some (set_onScene false it)
            /\ (forall p, p <> first -> Heap.lookup p (items s') = Heap.lookup p (items s))
            /\ In (Push (RemoveItemsCmd [first])) (m_undoStack s'))
         /\ (isRightPress e = true ->
             exists s',
               deletingEvent e s = Some s'
               /\ deletingEvent e s = disconnectItems [first] PushUndoCmd s
               /\ items s' = items s)).
Proof.
  unfold isLeftPress, isRightPress, isPress, deletingEvent,
    deletingEventLeftMouseClick, deletingEventRightMouseClick.
  split; [|split].
  - destruct (ev_type e); intros; try discriminate; reflexivity.
  - intros Hf. rewrite Hf.
    destruct (ev_type e); try reflexivity.
    destruct (hasButton LeftButton e); [now destruct (itemsAt s (scenePos e))|].
    destruct (hasButton RightButton e); [now destruct (itemsAt s (scenePos e))|].
    reflexivity.
  - intros first rest it Hf Hl.
    assert (Hne : itemsAt s (scenePos e) <> []) by (intros E; now rewrite E in Hf).
    assert (Hv : Forall (valid (items s)) [first]).
    { constructor; [|constructor]. unfold valid. now rewrite Hl. }
    rewrite !(match_nonempty _ _ _ Hne). rewrite Hf. split.
    + destruct (ev_type e); try discriminate. simpl. intros ->.
      destruct (deleteItems_undo_facts [first] s Hv)
        as (s' & dcalls & Hr & Hu & _ & Hin & Hout).
      exists s'. split; [exact Hr|].
      split; [apply Hin; [now left | exact Hl]|].
      split; [intros p Hp; apply Hout; intros [->|[]]; congruence|].
      rewrite Hu. apply in_or_app. right. right. apply in_or_app. right. now left.
    + destruct (ev_type e); try discriminate. simpl. intros Hr.
      apply andb_true_iff in Hr. destruct Hr as [Hnl Hr].
      apply negb_true_iff in Hnl. rewrite Hnl, Hr.
      pose proof (disconnectItems_spec PushUndoCmd [first] (items s) (connections s)
                    (m_undoStack s) s Hv) as Hd.
      rewrite withWorld_id in Hd. rewrite Hd.
      eexists. split; [reflexivity|]. split; reflexivity.
Qed.

(** X11.  [settingOnGridEvent] tests the unfiltered list twice, where
    the sibling handlers test the filtered list the second time: a
    left press on a spot where there are items but no [QucsItem] makes
    it take the first element of an empty list, which has no result,
    while the deleting and mirroring handlers leave the scene as it is
    on the same press. *)
Theorem settingOnGridEvent_takes_first_of_empty_list
    (e : MouseActionEvent) (s : SchematicScene) :
  isLeftPress e = true ->
  itemsAt s (scenePos e) <> [] ->
  filterQucsItems (itemsAt s (scenePos e)) = [] ->
  settingOnGridEvent e s = None
  /\ deletingEvent e s = Some s
  /\ mirroringXEvent e s = Some s
  /\ mirroringYEvent e s = Some s.
Proof.
  unfold isLeftPress, isPress, settingOnGridEvent, deletingEvent,
    deletingEventLeftMouseClick, mirroringXEvent, mirroringYEvent, mirroringEvent.
  destruct (ev_type e); try discriminate. simpl. intros -> Hne Hf. simpl.
  rewrite Hf. destruct (itemsAt s (scenePos e)); [congruence|]. repeat split.
Qed.

End ClickEvents.

Module ClickWitnesses.

Import Sample WiringSamples.

(** A stand-in for the hit test: the items whose position is the point. *)
Definition hit (s : SchematicScene) (p : QPointF) : list (ItemPtr * QucsItem) :=
  filter (fun e => QPointF_eqb (pos (snd e)) p) (sceneItems s).

(** A resistor at (0, 0), at address 1, and at (5, 5) an item that is no
    [QucsItem], at address 2. *)
Definition withBand : SchematicScene :=
  withItems [component "R" "R1" 0 0 false;
             mkItem Graphics (QPointF_of_ints 5 5) false true true] emptyScene.


(** X10 at work: a left and a right click on the resistor. *)
Lemma deletingEvent_left_deletes_right_disconnects_witness :
  (exists s',
      deletingEvent hit (press LeftButton 0 0) withBand = Some s'
      /\ Heap.lookup 1%nat (items s')
         = Some (set_onScene false (component "R" "R1" 0 0 false)))
  /\ (exists s',
         deletingEvent hit (press RightButton 0 0) withBand = Some s'
         /\ items s' = items withBand).
Proof.
  destruct (deletingEvent_left_deletes_right_disconnects hit (press LeftButton 0 0) withBand)
    as (_ & _ & Hl).
  destruct (deletingEvent_left_deletes_right_disconnects hit (press RightButton 0 0) withBand)
    as (_ & _ & Hr).
  split.
  - destruct (Hl 1%nat [] (component "R" "R1" 0 0 false)) as [H _].
    + vm_compute. reflexivity.
    + vm_compute. reflexivity.
    + destruct (H eq_refl) as (s' & Hrun & Hlk & _). exists s'. now split.
  - destruct (Hr 1%nat [] (component "R" "R1" 0 0 false)) as [_ H].
    + vm_compute. reflexivity.
    + vm_compute. reflexivity.
    + destruct (H eq_refl) as (s' & Hrun & _ & Hi). exists s'. now split.
Defined.

(** X11 at work: a left click on the item that is no [QucsItem]. *)
Lemma settingOnGridEvent_takes_first_of_empty_list_witness :
  settingOnGridEvent hit QPointF_fuzzyEqual (press LeftButton 5 5) withBand = None
  /\ deletingEvent hit (press LeftButton 5 5) withBand = Some withBand.
Proof.
  destruct (settingOnGridEvent_takes_first_of_empty_list
              hit QPointF_fuzzyEqual (press LeftButton 5 5) withBand) as (H1 & H2 & _).
  - reflexivity.
  - vm_compute. discriminate.
  - vm_compute. reflexivity.
  - split; [exact H1 | exact H2].
Defined.

End ClickWitnesses.

(** ** Mode changes and the reset of the scene *)

Section ResetProperties.

Context {C : Collaborators}.

(** The event filter is installed exactly when the shortcuts are marked
    as blocked, and they are blocked exactly in the mode [InsertingItems]. *)
Definition shortcutsInStep (s : SchematicScene) : Prop :=
  (m_shortcutsBlocked s = true <-> m_currentMouseAction s = InsertingItems)
  /\ appEventFilter s = m_shortcutsBlocked s.

Lemma last_cons {A : Type} (l : list A) (a d : A) : last (a :: l) d = last l a.
Proof.
  revert a d. induction l as [|b l IH]; intros a d; [reflexivity|].
  change (last (a :: b :: l) d) with (last (b :: l) d). now rewrite !IH.
Qed.

Lemma activeView_views (s1 s : SchematicScene) (mode : DragMode) :
  views s1 = map (setDragMode mode) (views s) ->
  activeView s <> None -> activeView s1 <> None.
Proof.
  unfold activeView. intros ->. destruct (views s) as [|v vs]; simpl; [tauto|].
  destruct (isSchematicView v); [discriminate | tauto].
Qed.

Lemma blockShortcuts_views (b : bool) (s : SchematicScene) :
  views (blockShortcuts b s) = views s.
Proof.
  unfold blockShortcuts. destruct (activeView s); [|reflexivity].
  destruct b; [destruct (negb (m_shortcutsBlocked s)) | destruct (m_shortcutsBlocked s)];
    reflexivity.
Qed.

Lemma blockShortcuts_sets (b : bool) (s : SchematicScene) :
  activeView s <> None -> appEventFilter s = m_shortcutsBlocked s ->
  m_shortcutsBlocked (blockShortcuts b s) = b
  /\ appEventFilter (blockShortcuts b s) = b.
Proof.
  intros Hv Hf. unfold blockShortcuts. destruct (activeView s); [|congruence].
  destruct b; destruct (m_shortcutsBlocked s) eqn:E; simpl; rewrite ?E; auto.
Qed.

Lemma setCurrentMouseAction_step (action : MouseAction) (s s' : SchematicScene) :
  activeView s <> None -> shortcutsInStep s ->
  setCurrentMouseAction action s = Some s' ->
  shortcutsInStep s' /\ activeView s' <> None /\ m_currentMouseAction s' = action.
Proof.
  intros Hview [Hblk Hflt]. unfold setCurrentMouseAction.
  destruct (MouseAction_eqb_spec (m_currentMouseAction s) action) as [Heq|Hne].
  { intros [= <-]. split; [now split|]. now split. }
  intros Hr. apply resetState_world in Hr. destruct Hr as (h & c & ->).
  match goal with
  | |- context [set_m_areItemsMoving false ?x] => set (s2 := x)
  end.
  assert (H2 : (m_shortcutsBlocked s2 = true <-> action = InsertingItems)
               /\ appEventFilter s2 = m_shortcutsBlocked s2
               /\ views s2 = views s).
  { subst s2.
    destruct (MouseAction_eqb_spec (m_currentMouseAction s) InsertingItems) as [Hcur|Hcur];
      destruct (MouseAction_eqb_spec action InsertingItems) as [Hact|Hact];
      try congruence.
    - destruct (blockShortcuts_sets false s Hview Hflt) as [-> ->].
      rewrite blockShortcuts_views. split; [|now split]. split; [discriminate | contradiction].
    - destruct (blockShortcuts_sets true s Hview Hflt) as [-> ->].
      rewrite blockShortcuts_views. split; [|now split]. now split.
    - split; [|now split]. split; [|contradiction].
      intros Hb. exfalso. now apply Hcur, Hblk. }
  destruct H2 as (Hb2 & Hf2 & Hv2). clearbody s2.
  split; [split; [exact Hb2 | exact Hf2]|].
  split; [|reflexivity].
  eapply activeView_views; [|exact Hview]. cbn. rewrite Hv2. reflexivity.
Qed.

(** X12.  With an active view, [setCurrentMouseAction] keeps the
    shortcuts blocked exactly while the mode is [InsertingItems]: after
    any sequence of mode changes the event filter is installed if, and
    only if, the mode is [InsertingItems], and the mode is the last one
    asked for.  Without an active view no mode change touches the
    blocking. *)
Theorem setCurrentMouseAction_blocks_shortcuts_while_inserting
    (actions : list MouseAction) (s s' : SchematicScene) :
  foreach actions setCurrentMouseAction s = Some s' ->
  (activeView s <> None -> shortcutsInStep s ->
   (m_shortcutsBlocked s' = true <-> m_currentMouseAction s' = InsertingItems)
   /\ appEventFilter s' = m_shortcutsBlocked s'
   /\ m_currentMouseAction s' = last actions (m_currentMouseAction s))
  /\ (activeView s = None ->
      m_shortcutsBlocked s' = m_shortcutsBlocked s
      /\ appEventFilter s' = appEventFilter s).
Proof.
  intros Hrun. split.
  - revert s Hrun. induction actions as [|a actions IH]; intros s Hrun Hview Hstep.
    + injection Hrun as <-. destruct Hstep as [Hb Hf].
      split; [exact Hb|]. split; [exact Hf | reflexivity].
    + simpl in Hrun.
      destruct (setCurrentMouseAction a s) as [s1|] eqn:E1; [|discriminate].
      destruct (setCurrentMouseAction_step a s s1 Hview Hstep E1) as (Hs1 & Hv1 & Ha1).
      destruct (IH s1 Hrun Hv1 Hs1) as (H1 & H2 & H3).
      split; [exact H1|]. split; [exact H2|]. rewrite H3, Ha1.
      symmetry. apply last_cons.
  - revert s Hrun. induction actions as [|a actions IH]; intros s Hrun Hview.
    + injection Hrun as <-. now split.
    + simpl in Hrun.
      destruct (setCurrentMouseAction a s) as [s1|] eqn:E1; [|discriminate].
      assert (H1 : activeView s1 = None /\ m_shortcutsBlocked s1 = m_shortcutsBlocked s
                   /\ appEventFilter s1 = appEventFilter s).
      { revert E1. unfold setCurrentMouseAction.
        destruct (MouseAction_eqb (m_currentMouseAction s) a); [now intros [= <-]|].
        intros Hr. apply resetState_world in Hr. destruct Hr as (h & c & ->).
        unfold blockShortcuts. rewrite Hview.
        destruct (MouseAction_eqb (m_currentMouseAction s) InsertingItems);
          rewrite ?Hview; destruct (MouseAction_eqb a InsertingItems); rewrite ?Hview;
          (split; [|split; reflexivity]);
          unfold activeView in *; cbn; destruct (views s) as [|v vs]; try reflexivity;
          cbn; destruct (isSchematicView v); congruence. }
      destruct H1 as (Hv1 & Hb1 & Hf1).
      destruct (IH s1 Hrun Hv1) as [H2 H3]. split; congruence.
Qed.

(** *** What the reset leaves of the heap *)

Definition keepsFlags (g : QucsItem -> QucsItem) : Prop :=
  forall it, selected (g it) = selected it /\ onScene (g it) = onScene it.

(** A property of the heap that deleting an item and calling a method
    that leaves the selection and the scene of an item alone keep. *)
Definition heapInvariant (P : Heap.t -> Prop) : Prop :=
  (forall q h, P h -> P (Heap.remove q h))
  /\ (forall q g h, keepsFlags g -> P h -> P (Heap.update q g h)).

Lemma onItem_exact (p : ItemPtr) (f : QucsItem -> QucsItem) (s s' : SchematicScene) :
  onItem p f s = Some s' -> s' = set_items (Heap.update p f (items s)) s.
Proof.
  unfold onItem. destruct (Heap.lookup p (items s)); [|discriminate]. now intros [= <-].
Qed.

Lemma onWire_heap (P : Heap.t -> Prop) (p : ItemPtr)
    (f : WireData -> WireData -> WireData * WireData) (s s' : SchematicScene) :
  heapInvariant P -> onWire p f s = Some s' -> P (items s) -> P (items s').
Proof.
  intros [_ Hupd]. unfold onWire.
  destruct (derefWire p s) as [[[it st] store]|]; [|discriminate].
  destruct (f st store) as [st' store']. intros H HP.
  apply onItem_exact in H. subst s'. simpl. apply Hupd; [|exact HP].
  intros i. now split.
Qed.

Lemma resetStateWiring_heap (P : Heap.t -> Prop) (s s' : SchematicScene) :
  heapInvariant P -> resetStateWiring s = Some s' -> P (items s) -> P (items s').
Proof.
  intros HI. pose proof HI as [Hrem Hupd]. unfold resetStateWiring.
  destruct (m_wiringState s).
  - now intros [= <-].
  - destruct (m_currentWiringWire s) as [w|]; [|discriminate].
    destruct (derefWire w s); [|discriminate].
    intros [= <-] HP. simpl. now apply Hrem.
  - destruct (m_currentWiringWire s) as [w|]; [|discriminate].
    destruct (Wire_show w s) as [s1|] eqn:E1; [|discriminate].
    destruct (derefWire w s1) as [[[i1 st1] store1]|]; [|discriminate].
    destruct (Wire_setState store1 w s1) as [s2|] eqn:E2; [|discriminate].
    destruct (derefWire w s2) as [[[i2 st2] store2]|]; [|discriminate].
    destruct (Wire_movePort1_at w (port1Pos st2) s2) as [s3|] eqn:E3; [|discriminate].
    intros [= <-] HP. simpl. apply Hrem.
    apply (onWire_heap P _ _ _ _ HI E3). apply (onWire_heap P _ _ _ _ HI E2).
    apply onItem_exact in E1. subst s1. simpl. apply Hupd; [|exact HP].
    intros i. now split.
Qed.

Lemma deleteAll_items (l : list ItemPtr) (s : SchematicScene) :
  items (fold_left (fun s' p => deleteItem p s') l s) = removeAll l (items s).
Proof.
  unfold removeAll. revert s. induction l as [|p l IH]; intros s; simpl; [reflexivity|].
  now rewrite IH.
Qed.

Lemma deleteOpt_heap (P : Heap.t -> Prop) (p : option ItemPtr) (s : SchematicScene) :
  heapInvariant P -> P (items s) -> P (items (deleteOpt p s)).
Proof. intros [Hrem _] HP. destruct p; simpl; [now apply Hrem | exact HP]. Qed.

(** The heap when the insertibles have been deleted. *)
Definition clearedHeap (s : SchematicScene) : Heap.t :=
  removeAll (m_insertibles s)
    (Heap.mapAll (fun it => if onScene it then setSelected false it else it) (items s)).

Lemma resetState_heap (P : Heap.t -> Prop) (s s' : SchematicScene) :
  heapInvariant P -> resetState s = Some s' -> P (clearedHeap s) -> P (items s').
Proof.
  intros HI. unfold resetState, clearedHeap.
  set (s2 := clearSelection (set_focusItem None s)).
  set (s3 := set_m_insertibles [] _).
  destruct (resetStateWiring s3) as [s4|] eqn:E4; [|discriminate].
  intros [= <-] HP. simpl.
  apply (deleteOpt_heap P _ _ HI). simpl. apply (deleteOpt_heap P _ _ HI).
  apply (resetStateWiring_heap P _ _ HI E4).
  subst s3. simpl. rewrite deleteAll_items. exact HP.
Qed.

(** No item of the scene is selected. *)
Definition unselected (h : Heap.t) : Prop :=
  Forall (fun e => onScene (snd e) = true -> selected (snd e) = false) h.

Lemma unselected_invariant : heapInvariant unselected.
Proof.
  split.
  - intros q h H. unfold unselected, Heap.remove in *. rewrite Forall_forall in *.
    intros e He. apply filter_In in He. now apply H.
  - intros q g h Hg H. unfold unselected in *.
    induction H as [|[r it] h He H IH]; simpl; [constructor|].
    destruct (Nat.eqb q r).
    + constructor; [|exact H]. simpl in *. destruct (Hg it) as [-> ->]. exact He.
    + constructor; [exact He | exact IH].
Qed.

Lemma absent_invariant (p : ItemPtr) : heapInvariant (fun h => Heap.lookup p h = None).
Proof.
  split.
  - intros q h H. destruct (Nat.eq_dec q p) as [->|Hne].
    + apply Heap.lookup_remove_same.
    + now rewrite Heap.lookup_remove_other.
  - intros q g h _ H. now apply Heap.lookup_update_none.
Qed.

Lemma unselected_removeAll (l : list ItemPtr) (h : Heap.t) :
  unselected h -> unselected (removeAll l h).
Proof.
  unfold removeAll. revert h. induction l as [|p l IH]; intros h H; simpl; [exact H|].
  apply IH. now apply unselected_invariant.
Qed.

Lemma unselected_cleared (h : Heap.t) :
  unselected (Heap.mapAll (fun it => if onScene it then setSelected false it else it) h).
Proof.
  unfold unselected, Heap.mapAll. apply Forall_forall. intros e He.
  apply in_map_iff in He. destruct He as ([q it] & <- & _). simpl.
  destruct (onScene it) eqn:E; simpl; [reflexivity | congruence].
Qed.

Lemma unselected_mapAll_id (h : Heap.t) :
  unselected h ->
  Heap.mapAll (fun it => if onScene it then setSelected false it else it) h = h.
Proof.
  unfold unselected, Heap.mapAll. induction 1 as [|[q it] h He H IH]; simpl; [reflexivity|].
  rewrite IH. f_equal. f_equal. simpl in He.
  destruct (onScene it) eqn:E; [|reflexivity].
  specialize (He eq_refl). destruct it; simpl in *. now subst.
Qed.

Lemma unselected_selectedItems (s : SchematicScene) :
  unselected (items s) -> selectedItems s = [].
Proof.
  unfold unselected, selectedItems, sceneItems.
  induction 1 as [|e h He H IH]; simpl; [reflexivity|].
  destruct (onScene (snd e)) eqn:E; [|exact IH].
  simpl. now rewrite (He eq_refl).
Qed.

Lemma resetState_fixed (s : SchematicScene) :
  clearSelection (set_focusItem None s) = s ->
  m_insertibles s = [] -> m_wiringState s = NO_WIRE ->
  m_paintingDrawItem s = None -> m_paintingDrawClicks s = 0 -> m_zoomBand s = None ->
  resetState s = Some s.
Proof.
  intros Ecs Hi Hw Hp Hc Hz. unfold resetState. cbv zeta. rewrite Ecs, Hi.
  clear Ecs. destruct s. simpl in *. subst. reflexivity.
Qed.

(** X13.  After [resetState] nothing on the scene is selected and the
    items that were being inserted are freed; and the reset is
    idempotent: a second [resetState] returns the scene the first one
    left. *)
Theorem resetState_clears_and_is_idempotent (s s' : SchematicScene) :
  resetState s = Some s' ->
  selectedItems s' = []
  /\ (forall p, In p (m_insertibles s) -> Heap.lookup p (items s') = None)
  /\ m_insertibles s' = []
  /\ resetState s' = Some s'.
Proof.
  intros Hr.
  assert (Hu : unselected (items s')).
  { apply (resetState_heap unselected s s' unselected_invariant Hr).
    unfold clearedHeap. apply unselected_removeAll, unselected_cleared. }
  split; [now apply unselected_selectedItems|].
  split.
  { intros p Hp.
    apply (resetState_heap (fun h => Heap.lookup p h = None) s s' (absent_invariant p) Hr).
    unfold clearedHeap. now apply lookup_removeAll_in. }
  pose proof Hr as Hw. apply resetState_world in Hw. destruct Hw as (h & c & Hs').
  assert (Hh : items s' = h) by (rewrite Hs'; reflexivity).
  assert (Hf : focusItem s' = None /\ m_insertibles s' = []
               /\ m_wiringState s' = NO_WIRE /\ m_paintingDrawItem s' = None
               /\ m_paintingDrawClicks s' = 0 /\ m_zoomBand s' = None)
    by (rewrite Hs'; repeat split).
  destruct Hf as (Hf1 & Hf2 & Hf3 & Hf4 & Hf5 & Hf6).
  split; [exact Hf2|].
  apply resetState_fixed; try assumption.
  unfold clearSelection.
  replace (items (set_focusItem None s')) with (items s') by reflexivity.
  rewrite (unselected_mapAll_id _ Hu). clear - Hf1.
  destruct s'. simpl in *. now subst.
Qed.

End ResetProperties.

Module ResetWitnesses.

Import Sample WiringSamples.

(** X12 at work: into the inserting mode and out of it again. *)
Lemma setCurrentMouseAction_blocks_shortcuts_while_inserting_witness :
  (exists s1,
      foreach [Wiring; InsertingItems] setCurrentMouseAction emptyScene = Some s1
      /\ appEventFilter s1 = true)
  /\ (exists s2,
         foreach [InsertingItems; Deleting] setCurrentMouseAction emptyScene = Some s2
         /\ appEventFilter s2 = false).
Proof.
  split.
  - eexists. split; [vm_compute; reflexivity|].
    destruct (setCurrentMouseAction_blocks_shortcuts_while_inserting
                [Wiring; InsertingItems] emptyScene _ ltac:(vm_compute; reflexivity))
      as [H _].
    destruct H as (Hb & Hf & Ha).
    + vm_compute. discriminate.
    + split; [split; discriminate | reflexivity].
    + rewrite Hf. apply Hb. exact Ha.
  - eexists. split; [vm_compute; reflexivity|].
    destruct (setCurrentMouseAction_blocks_shortcuts_while_inserting
                [InsertingItems; Deleting] emptyScene _ ltac:(vm_compute; reflexivity))
      as [H _].
    destruct H as (Hb & Hf & Ha).
    + vm_compute. discriminate.
    + split; [split; discriminate | reflexivity].
    + rewrite Hf.
      match goal with
      | |- ?b = false => destruct b eqn:E; [|reflexivity]
      end.
      pose proof (proj1 Hb eq_refl) as X. rewrite Ha in X. discriminate X.
Defined.

(** X13 at work: the reset of a scene with a wire in progress and a
    selected resistor. *)
Lemma resetState_clears_and_is_idempotent_witness :
  exists s',
    resetState (withItems [component "R" "R1" 0 0 true] singleton) = Some s'
    /\ selectedItems s' = []
    /\ resetState s' = Some s'.
Proof.
  eexists. split; [vm_compute; reflexivity|].
  destruct (resetState_clears_and_is_idempotent
              (withItems [component "R" "R1" 0 0 true] singleton) _
              ltac:(vm_compute; reflexivity)) as (H1 & _ & _ & H2).
  split; [exact H1 | exact H2].
Defined.

End ResetWitnesses.

(** ** Port numbers: [unusedPortNumber] *)

(** The two [QList<int>] members the function works on. *)
Record PortNumbers : Type := mkPortNumbers {
  m_usablePortNumbers : list Z;
  m_usedPortNumbers : list Z
}.

(** [while(m_usedPortNumbers.contains(retVal)) retVal++;].  The loop
    body runs at most once for every used number, which bounds the
    recursion; [retVal++] at [INT_MAX] has no result. *)
Fixpoint skipUsed (fuel : nat) (used : list Z) (retVal : Z) : option Z :=
  if existsb (Z.eqb retVal) used then
    match fuel with
    | O => None
    | S k =>
        if retVal <? CInt.two31 - 1 then skipUsed k used (retVal + 1) else None
    end
  else Some retVal.

(** The test is [isEmpty()], not its negation: [takeFirst()] is called
    on the empty list, and [last()] of the used numbers when there are
    usable ones.  Either call on an empty list has no result. *)
Definition unusedPortNumber (pn : PortNumbers) : option (Z * PortNumbers) :=
  match m_usablePortNumbers pn with
  | [] => None
  | _ :: _ =>
      match rev (m_usedPortNumbers pn) with
      | [] => None
      | lastUsed :: _ =>
          if lastUsed <? CInt.two31 - 1 then
            let* retVal :=
              skipUsed (List.length (m_usedPortNumbers pn)) (m_usedPortNumbers pn)
                       (lastUsed + 1) in
            Some (retVal, pn)
          else None
      end
  end.

Module PortNumberProperties.

Lemma atLeast_le (used : list Z) (a : Z) :
  (List.length (filter (fun z => (a + 1 <=? z)%Z) used)
   <= List.length (filter (fun z => (a <=? z)%Z) used))%nat.
Proof.
  induction used as [|b u IH]; simpl; [lia|].
  destruct (Z.leb_spec (a + 1) b), (Z.leb_spec a b); simpl; lia.
Qed.

Lemma atLeast_lt (used : list Z) (a : Z) :
  In a used ->
  (List.length (filter (fun z => (a + 1 <=? z)%Z) used)
   < List.length (filter (fun z => (a <=? z)%Z) used))%nat.
Proof.
  induction used as [|b u IH]; simpl; [tauto|].
  intros [->|Hin].
  - pose proof (atLeast_le u a).
    destruct (Z.leb_spec (a + 1) a), (Z.leb_spec a a); simpl; lia.
  - specialize (IH Hin).
    destruct (Z.leb_spec (a + 1) b), (Z.leb_spec a b); simpl; lia.
Qed.

Lemma existsb_eqb_In (used : list Z) (a : Z) :
  existsb (Z.eqb a) used = true <-> In a used.
Proof.
  rewrite existsb_exists. split.
  - intros (x & Hx & E). apply Z.eqb_eq in E. now subst.
  - intros H. exists a. split; [exact H | apply Z.eqb_refl].
Qed.

Lemma skipUsed_spec (fuel : nat) (used : list Z) (start : Z) :
  (List.length (filter (fun z => (start <=? z)%Z) used) <= fuel)%nat ->
  start + Z.of_nat fuel < CInt.two31 ->
  exists r,
    skipUsed fuel used start = Some r
    /\ start <= r /\ ~ In r used /\ (forall z, start <= z < r -> In z used).
Proof.
  revert start. induction fuel as [|k IH]; intros start Hlen Hmax; cbn [skipUsed].
  - destruct (existsb (Z.eqb start) used) eqn:E.
    + apply existsb_eqb_In in E. pose proof (atLeast_lt used start E). lia.
    + exists start. split; [reflexivity|]. split; [lia|]. split; [|intros; lia].
      intros H. apply existsb_eqb_In in H. congruence.
  - destruct (existsb (Z.eqb start) used) eqn:E.
    + apply existsb_eqb_In in E. pose proof (atLeast_lt used start E) as Hlt.
      destruct (Z.ltb_spec start (CInt.two31 - 1)) as [_|?]; [|lia].
      destruct (IH (start + 1)) as (r & Hr & Hle & Hn & Hall); [lia | lia |].
      exists r. split; [exact Hr|]. split; [lia|]. split; [exact Hn|].
      intros z Hz. assert (z = start \/ start + 1 <= z < r) as [->|Hz'] by lia;
        [exact E | now apply Hall].
    + exists start. split; [reflexivity|]. split; [lia|]. split; [|intros; lia].
      intros H. apply existsb_eqb_In in H. congruence.
Qed.

(** X14.  [unusedPortNumber] never hands out a usable number.  With no
    usable number it calls [takeFirst()] on the empty list, which has no
    result; with usable numbers it leaves them where they are and
    returns the first number above the last used one that is not in
    use (and has no result when no number is in use yet). *)
Theorem unusedPortNumber_never_takes_a_usable_number (pn : PortNumbers) :
  (m_usablePortNumbers pn = [] -> unusedPortNumber pn = None)
  /\ (m_usedPortNumbers pn = [] -> unusedPortNumber pn = None)
  /\ (m_usablePortNumbers pn <> [] -> m_usedPortNumbers pn <> [] ->
      Forall (fun z => z + Z.of_nat (List.length (m_usedPortNumbers pn)) + 1 < CInt.two31)
             (m_usedPortNumbers pn) ->
      exists r,
        unusedPortNumber pn = Some (r, pn)
        /\ ~ In r (m_usedPortNumbers pn)
        /\ last (m_usedPortNumbers pn) 0 < r
        /\ (forall z, last (m_usedPortNumbers pn) 0 < z < r ->
                      In z (m_usedPortNumbers pn))).
Proof.
  unfold unusedPortNumber. split; [|split].
  - now intros ->.
  - intros ->. now destruct (m_usablePortNumbers pn).
  - intros Hus Hud Hmax.
    destruct (m_usablePortNumbers pn) as [|u0 us]; [congruence|].
    set (used := m_usedPortNumbers pn) in *.
    pose proof (app_removelast_last 0 Hud) as Hlast.
    assert (Hin : In (last used 0) used).
    { rewrite Hlast at 2. apply in_or_app. right. now left. }
    assert (Hrev : rev used = last used 0 :: rev (removelast used)).
    { rewrite Hlast at 1. now rewrite rev_app_distr. }
    rewrite Hrev.
    rewrite Forall_forall in Hmax. specialize (Hmax _ Hin).
    destruct (Z.ltb_spec (last used 0) (CInt.two31 - 1)) as [_|?]; [|lia].
    destruct (skipUsed_spec (List.length used) used (last used 0 + 1))
      as (r & Hr & Hle & Hn & Hall).
    + apply filter_length_le.
    + lia.
    + rewrite Hr. exists r. split; [reflexivity|]. split; [exact Hn|].
      split; [lia|]. intros z Hz. apply Hall. lia.
Qed.

(** X14 at work: the usable number 9 is passed over. *)
Lemma unusedPortNumber_never_takes_a_usable_number_witness :
  unusedPortNumber (mkPortNumbers [] [1; 2]) = None
  /\ exists r,
       unusedPortNumber (mkPortNumbers [9] [4; 1; 2; 3]) = Some (r, mkPortNumbers [9] [4; 1; 2; 3])
       /\ 3 < r.
Proof.
  destruct (unusedPortNumber_never_takes_a_usable_number (mkPortNumbers [] [1; 2]))
    as (H1 & _ & _).
  destruct (unusedPortNumber_never_takes_a_usable_number (mkPortNumbers [9] [4; 1; 2; 3]))
    as (_ & _ & H3).
  split; [now apply H1|].
  destruct H3 as (r & Hr & _ & Hlt & _).
  - discriminate.
  - discriminate.
  - repeat constructor; vm_compute; reflexivity.
  - exists r. split; [exact Hr | exact Hlt].
Defined.

End PortNumberProperties.

(** ** Wiring: what a mouse move leaves alone *)

Section WiringMoveProperties.

Context {C : Collaborators}.

(** X15.  In wiring mode only a press can reach the undo stack.  A
    mouse move drags the free end of the wire in progress and changes
    nothing else: the undo stack, the connections, the wiring state and
    the current wire are as before, and so is every item but that
    wire; without a wire in progress the move changes nothing.  A
    release and a double click change nothing at all. *)
Theorem wiringEvent_move_changes_only_the_wire
    (e : MouseActionEvent) (s s' : SchematicScene) :
  isPress e = false ->
  wiringEvent e s = Some s' ->
  m_undoStack s' = m_undoStack s
  /\ connections s' = connections s
  /\ m_wiringState s' = m_wiringState s
  /\ m_currentWiringWire s' = m_currentWiringWire s
  /\ (forall p, m_currentWiringWire s <> Some p ->
                Heap.lookup p (items s') = Heap.lookup p (items s))
  /\ (m_wiringState s = NO_WIRE -> s' = s)
  /\ (ev_type e <> GraphicsSceneMouseMove -> s' = s).
Proof.
  unfold isPress, wiringEvent. intros Hp.
  destruct (smartNearingGridPoint (scenePos e) s) as [pos|]; [|discriminate].
  destruct (ev_type e) eqn:Et; try discriminate.
  - unfold wiringEventMouseMove.
    assert (Hmove : forall w it,
               m_currentWiringWire s = Some w ->
               m_wiringState s <> NO_WIRE ->
               Wire_movePort2_at w (mapFromScene it pos) s = Some s' ->
               m_undoStack s' = m_undoStack s
               /\ connections s' = connections s
               /\ m_wiringState s' = m_wiringState s
               /\ m_currentWiringWire s' = m_currentWiringWire s
               /\ (forall p, m_currentWiringWire s <> Some p ->
                             Heap.lookup p (items s') = Heap.lookup p (items s))
               /\ (m_wiringState s = NO_WIRE -> s' = s)
               /\ (GraphicsSceneMouseMove <> GraphicsSceneMouseMove -> s' = s)).
    { intros w it Ec Ew. unfold Wire_movePort2_at, onWire.
      destruct (derefWire w s) as [[[i st] store]|]; [|discriminate].
      intros H. apply onItem_exact in H. subst s'. simpl.
      split; [reflexivity|]. split; [reflexivity|]. split; [reflexivity|].
      split; [reflexivity|]. split.
      - intros p Hne. apply Heap.lookup_update_other. congruence.
      - split; [intros; contradiction | intros; congruence]. }
    destruct (m_wiringState s) eqn:Ew.
    + intros [= <-]. repeat split; intros; first [reflexivity | assumption].
    + destruct (m_currentWiringWire s) as [w|] eqn:Ec; [|discriminate].
      destruct (Heap.lookup w (items s)) as [it|]; [|discriminate].
      apply (Hmove w it eq_refl). discriminate.
    + destruct (m_currentWiringWire s) as [w|] eqn:Ec; [|discriminate].
      destruct (Heap.lookup w (items s)) as [it|]; [|discriminate].
      apply (Hmove w it eq_refl). discriminate.
  - intros [= <-]. repeat split; intros; reflexivity.
  - intros [= <-]. repeat split; intros; reflexivity.
Qed.

End WiringMoveProperties.

Module WiringMoveWitnesses.

Import Sample WiringSamples.

(** X15 at work: a move while the first leg of a wire is in progress. *)
Lemma wiringEvent_move_changes_only_the_wire_witness :
  exists s',
    wiringEvent (move 30 0) singleton = Some s'
    /\ m_undoStack s' = m_undoStack singleton
    /\ m_wiringState s' = SINGLETON_WIRE.
Proof.
  eexists. split; [vm_compute; reflexivity|].
  destruct (wiringEvent_move_changes_only_the_wire (move 30 0) singleton _ eq_refl
              ltac:(vm_compute; reflexivity)) as (Hu & _ & Hw & _).
  split; [exact Hu | exact Hw].
Defined.

End WiringMoveWitnesses.

(** ** Labels: the label [placeItem] gives is not in use *)

Section LabelFreshness.

Context {C : Collaborators}.

Lemma substring_all (x : string) : substring 0 (String.length x) x = x.
Proof. induction x as [|c x IH]; simpl; [reflexivity | now rewrite IH]. Qed.

Lemma labelSuffix_makeLabel (prefix num : string) :
  labelSuffix prefix (prefix ++ num) = num.
Proof.
  unfold labelSuffix.
  assert (L : forall p, (String.length (p ++ num)%string - String.length p
                         = String.length num)%nat).
  { induction p as [|c p IH]; simpl; [lia | exact IH]. }
  rewrite L. induction prefix as [|c p IH]; simpl; [apply substring_all | exact IH].
Qed.

Lemma fold_max_ge (l : list Z) (m z : Z) :
  In z l ->
  CInt.to_int (z + 1) <= fold_left (fun m z => Z.max m (CInt.to_int (z + 1))) l m.
Proof.
  assert (G : forall l m, m <= fold_left (fun m z => Z.max m (CInt.to_int (z + 1))) l m).
  { clear. induction l as [|y l IH]; intros m; simpl; [lia|].
    specialize (IH (Z.max m (CInt.to_int (y + 1)))). lia. }
  revert m. induction l as [|y l IH]; intros m; simpl; [tauto|].
  intros [->|Hin]; [|now apply IH].
  specialize (G l (Z.max m (CInt.to_int (z + 1)))). lia.
Qed.

(** X16.  The label [placeItem] gives a component is in use by no
    component of the same prefix on the scene: it is the prefix
    followed by the suffix from [componentLabelSuffix], and a component
    labelled so would have pushed that suffix higher.  (For a suffix
    that [QString] writes and reads back as the same number, below
    [INT_MAX].) *)
Theorem placeItem_gives_a_label_not_in_use
    (prefix label : string) (n : nat) (item : ItemPtr) (it : QucsItem)
    (at_pos : QPointF) (opt : UndoOption) (s : SchematicScene) :
  Heap.lookup item (items s) = Some it ->
  body it = Component prefix label n ->
  onScene it = false ->
  QString_toInt (QString_number (componentLabelSuffix prefix s))
    = Some (componentLabelSuffix prefix s) ->
  componentLabelSuffix prefix s < CInt.two31 - 1 ->
  exists s' it',
    placeItem item at_pos opt s = Some s'
    /\ Heap.lookup item (items s') = Some it'
    /\ body it' = Component prefix (makeLabel prefix (componentLabelSuffix prefix s)) n
    /\ onScene it' = true
    /\ (forall q iq l m,
          In (q, iq) (sceneItems s) -> body iq = Component prefix l m ->
          l <> makeLabel prefix (componentLabelSuffix prefix s)).
Proof.
  intros Hl Hb Hoff Hrt Hmax.
  assert (Hfresh : forall q iq l m,
             In (q, iq) (sceneItems s) -> body iq = Component prefix l m ->
             l <> makeLabel prefix (componentLabelSuffix prefix s)).
  { intros q iq l m Hin Hbq ->.
    assert (Hs : In (componentLabelSuffix prefix s) (suffixesOnScene prefix s)).
    { unfold suffixesOnScene. apply in_flat_map. exists (q, iq). split; [exact Hin|].
      unfold suffixOf. simpl. rewrite Hbq. rewrite String.eqb_refl.
      unfold makeLabel. rewrite labelSuffix_makeLabel, Hrt. now left. }
    pose proof (fold_max_ge _ 1 _ Hs) as Hge.
    rewrite <- componentLabelSuffix_fold in Hge.
    assert (H1 : 1 <= componentLabelSuffix prefix s).
    { rewrite componentLabelSuffix_fold.
      generalize (suffixesOnScene prefix s). intros l0.
      assert (G : forall l m, m <= fold_left (fun m z => Z.max m (CInt.to_int (z + 1))) l m).
      { clear. induction l as [|y l IH]; intros m; simpl; [lia|].
        specialize (IH (Z.max m (CInt.to_int (y + 1)))). lia. }
      apply G. }
    rewrite CInt.to_int_small in Hge by (unfold CInt.in_int, CInt.two31 in *; lia).
    lia. }
  unfold placeItem. rewrite Hl, Hoff, Hb.
  rewrite (onItem_spec _ _ _ _ Hl).
  set (it1 := setLabel (makeLabel prefix (componentLabelSuffix prefix s)) it).
  set (s2 := set_items _ s).
  assert (Hl2 : Heap.lookup item (items s2) = Some it1)
    by (subst s2; simpl; now apply Heap.lookup_update_same).
  assert (Hb1 : body it1
                = Component prefix (makeLabel prefix (componentLabelSuffix prefix s)) n)
    by (subst it1; unfold setLabel; rewrite Hb; reflexivity).
  assert (Hc : isComponent it = true) by (unfold isComponent; now rewrite Hb).
  rewrite Hc. destruct opt.
  - unfold push, redo.
    set (s3 := set_m_undoStack _ (beginMacro "Use Paint Tool" s2)).
    assert (Hl3 : Heap.lookup item (items s3) = Some it1) by exact Hl2.
    rewrite (onItem_spec _ _ _ _ Hl3). rewrite checkAndConnect_eq.
    eexists _, _. split; [reflexivity|]. simpl.
    split; [eapply Heap.lookup_update_same; exact Hl2|].
    split; [exact Hb1|]. split; [reflexivity | exact Hfresh].
  - rewrite (onItem_spec _ _ _ _ Hl2). rewrite checkAndConnect_eq.
    eexists _, _. split; [reflexivity|]. simpl.
    split; [eapply Heap.lookup_update_same; exact Hl2|].
    split; [exact Hb1|]. split; [reflexivity | exact Hfresh].
Qed.

End LabelFreshness.

Module LabelFreshnessWitnesses.

Import Sample.

(** X16 at work: a third resistor beside "R1" and "R2" is labelled "R3". *)
Lemma placeItem_gives_a_label_not_in_use_witness :
  exists s' it',
    placeItem 3%nat (QPointF_of_ints 80 0) PushUndoCmd LabelWitnesses.twoResistors = Some s'
    /\ Heap.lookup 3%nat (items s') = Some it'
    /\ body it' = Component "R" "R3" 2.
Proof.
  destruct (placeItem_gives_a_label_not_in_use
              "R" "R" 2 3%nat (set_onScene false (component "R" "R" 0 0 false))
              (QPointF_of_ints 80 0) PushUndoCmd LabelWitnesses.twoResistors)
    as (s' & it' & Hp & Hl & Hb & _).
  - vm_compute. reflexivity.
  - reflexivity.
  - reflexivity.
  - vm_compute. reflexivity.
  - vm_compute. reflexivity.
  - exists s', it'. split; [exact Hp|]. split; [exact Hl|].
    rewrite Hb. vm_compute. reflexivity.
Defined.

End LabelFreshnessWitnesses.

(** ** Disconnecting items that have no connection *)

Section DisconnectProperties.

Context {C : Collaborators}.

Lemma disconnectPorts_nothing (opt : UndoOption) (ports : list PortRef)
    (c : list (PortRef * PortRef)) :
  (forall p, In p ports -> getAnyConnectedPort p c = None) ->
  disconnectPorts opt ports c = (c, []).
Proof.
  induction ports as [|p rest IH]; intros H; simpl; [reflexivity|].
  rewrite (H p (or_introl eq_refl)). apply IH. intros q Hq. apply H. now right.
Qed.

Lemma disconnectAll_nothing (opt : UndoOption) (its : list ItemPtr) (h : Heap.t)
    (c : list (PortRef * PortRef)) :
  Forall (valid h) its ->
  (forall p it port,
      In p its -> Heap.lookup p h = Some it -> In port (portsOf p it) ->
      getAnyConnectedPort port c = None) ->
  disconnectAll opt its h c = (c, []).
Proof.
  induction 1 as [|p its Hp Hv IH]; intros H; simpl; [reflexivity|].
  unfold valid in Hp. destruct (Heap.lookup p h) as [it|] eqn:E; [|congruence].
  rewrite disconnectPorts_nothing.
  - rewrite IH; [reflexivity|]. intros q iq port Hq. apply H. now right.
  - intros port Hport. destruct (isComponent it || isWire it); [|destruct Hport].
    apply (H p it port); [now left | exact E | exact Hport].
Qed.

(** X17.  [disconnectItems] with the undo option opens and closes its
    macro whether or not there is anything to disconnect: for items
    none of whose ports has a connection, and for the empty list, the
    scene is left as it is but for an empty macro "Disconnect items" on
    the undo stack.  Without the undo option nothing changes at all. *)
Theorem disconnectItems_nothing_to_do_records_empty_macro
    (its : list ItemPtr) (s : SchematicScene) :
  Forall (valid (items s)) its ->
  (forall p it port,
      In p its -> Heap.lookup p (items s) = Some it -> In port (portsOf p it) ->
      getAnyConnectedPort port (connections s) = None) ->
  disconnectItems its PushUndoCmd s
  = Some (set_m_undoStack
            (m_undoStack s ++ [BeginMacro "Disconnect items"; EndMacro]) s)
  /\ disconnectItems its DontPushUndoCmd s = Some s.
Proof.
  intros Hv Hn.
  pose proof (disconnectItems_spec PushUndoCmd its (items s) (connections s)
                (m_undoStack s) s Hv) as H1.
  pose proof (disconnectItems_spec DontPushUndoCmd its (items s) (connections s)
                (m_undoStack s) s Hv) as H2.
  rewrite withWorld_id in H1, H2.
  rewrite (disconnectAll_nothing PushUndoCmd _ _ _ Hv Hn) in H1.
  rewrite (disconnectAll_nothing DontPushUndoCmd _ _ _ Hv Hn) in H2.
  simpl in H1, H2. rewrite app_nil_r in H2. rewrite withWorld_id in H2.
  split; [|exact H2]. rewrite H1. reflexivity.
Qed.

End DisconnectProperties.

Module DisconnectWitnesses.

Import Sample.

(** X17 at work: a resistor that is connected to nothing. *)
Lemma disconnectItems_nothing_to_do_records_empty_macro_witness :
  disconnectItems [1%nat] PushUndoCmd MacroWitnesses.oneResistor
  = Some (set_m_undoStack [BeginMacro "Disconnect items"; EndMacro]
                          MacroWitnesses.oneResistor).
Proof.
  apply (proj1 (disconnectItems_nothing_to_do_records_empty_macro
                  [1%nat] MacroWitnesses.oneResistor
                  ltac:(repeat constructor; vm_compute; discriminate)
                  ltac:(intros; reflexivity))).
Defined.

End DisconnectWitnesses.

(** ** The clipboard: [copyItems], [cutItems] and [paste] *)

Section ClipboardOperations.

Context {C : Collaborators}.

(** What [QucsItem::saveData] of the item classes writes for an item,
    and [Qucs::version]: neither is among the sources. *)
Variable saveData : QucsItem -> list XmlToken.
Variable version : string.

(** [copyItems]: the text put on the clipboard, given as the tokens a
    reader finds in it ([writeEndDocument] closes the root element).
    With nothing to copy the function returns before the clipboard is
    touched. *)
Definition copyItems (_items : list ItemPtr) (s : SchematicScene)
    (clipboard : list XmlToken) : option (list XmlToken) :=
  match _items with
  | [] => Some clipboard
  | _ :: _ =>
      let* resolved := derefAll _items s in
      Some ([StartDocument; DTD; StartElement "qucs" [("version"%string, version)]]
              ++ flat_map (fun e => saveData (snd e)) resolved
              ++ [EndElement "qucs"; EndDocument])
  end.

Definition cutItems (_items : list ItemPtr) (opt : UndoOption) (s : SchematicScene)
    (clipboard : list XmlToken) : option (list XmlToken * SchematicScene) :=
  let* clip := copyItems _items s clipboard in
  let* s' := deleteItems _items opt s in
  Some (clip, s').

(** What [paste] does once the root element is found and its version
    accepted. *)
Definition insertRead (root : XmlToken) (rest : list XmlToken) (s : SchematicScene)
  : option SchematicScene :=
  let loaded := readItems O root rest in
  let (_items, h) := allocAll loaded (items s) in
  beginInsertingItems _items (set_items h s).

(** X18.  [paste] looks for the first start element named "qucs" and
    skips whatever the text has before it (the document start, the
    DTD, comments, other elements); with the version of that element
    accepted, the items read behind it are handed to the insertion. *)
Theorem paste_skips_to_the_root_element
    (pre post : list XmlToken) (attrs : list (string * string)) (s : SchematicScene) :
  Forall (fun t => atEnd t = false /\ isRoot t = false) pre ->
  checkVersion (attributeValue "version" attrs) = true ->
  paste (pre ++ StartElement "qucs" attrs :: post) s
  = insertRead (StartElement "qucs" attrs) post s.
Proof.
  intros Hpre Hv. unfold paste, insertRead.
  rewrite (seekRoot_finds pre post attrs NoToken eq_refl Hpre). simpl.
  now rewrite Hv.
Qed.

(** X19.  What [copyItems] writes, [paste] reads: for a list that is
    not empty the clipboard text starts with the document start, the
    DTD and the root element "qucs" with the version of the program,
    and when [checkVersion] accepts that version a [paste], on any
    scene, goes on to insert the items read from what [saveData] wrote.
    With an empty list [copyItems] leaves the clipboard as it was, so a
    later [paste] still inserts what was copied before. *)
Theorem copyItems_then_paste_reaches_insertion
    (_items : list ItemPtr) (s s1 : SchematicScene) (clipboard : list XmlToken) :
  Forall (valid (items s)) _items ->
  checkVersion version = true ->
  (_items = [] -> copyItems _items s clipboard = Some clipboard)
  /\ (_items <> [] ->
      exists resolved,
        derefAll _items s = Some resolved
        /\ map fst resolved = _items
        /\ copyItems _items s clipboard
           = Some ([StartDocument; DTD; StartElement "qucs" [("version"%string, version)]]
                     ++ flat_map (fun e => saveData (snd e)) resolved
                     ++ [EndElement "qucs"; EndDocument])
        /\ paste ([StartDocument; DTD; StartElement "qucs" [("version"%string, version)]]
                    ++ flat_map (fun e => saveData (snd e)) resolved
                    ++ [EndElement "qucs"; EndDocument]) s1
           = insertRead (StartElement "qucs" [("version"%string, version)])
                        (flat_map (fun e => saveData (snd e)) resolved
                           ++ [EndElement "qucs"; EndDocument]) s1).
Proof.
  intros Hv Hver. split; [now intros ->|].
  intros Hne.
  destruct (derefAll_valid _items s Hv) as (resolved & Hd & Hm & _).
  exists resolved. split; [exact Hd|]. split; [exact Hm|]. split.
  - unfold copyItems. destruct _items as [|p l]; [congruence|]. now rewrite Hd.
  - apply (paste_skips_to_the_root_element [StartDocument; DTD]).
    + repeat constructor.
    + simpl. exact Hver.
Qed.

(** X20.  [cutItems] copies first and deletes then, and tests nothing
    itself.  With the undo option the text on the clipboard is written
    from the items as they are before the deletion, and the items are
    then taken off the scene but stay allocated, as [deleteItems]
    leaves them.  With an empty list the clipboard stays as it was, yet
    [deleteItems] still records its macro, so an entry that removes
    nothing reaches the undo stack.  (The document's [cut] calls it
    only for a selection that is not empty.) *)
Theorem cutItems_copies_then_deletes
    (_items : list ItemPtr) (s : SchematicScene) (clipboard : list XmlToken) :
  Forall (valid (items s)) _items ->
  exists clip s',
    cutItems _items PushUndoCmd s clipboard = Some (clip, s')
    /\ copyItems _items s clipboard = Some clip
    /\ deleteItems _items PushUndoCmd s = Some s'
    /\ (forall p it, In p _items -> Heap.lookup p (items s) = Some it ->
                     Heap.lookup p (items s') = Some (set_onScene false it))
    /\ (_items = [] ->
        clip = clipboard
        /\ m_undoStack s'
           = m_undoStack s
             ++ [BeginMacro "Delete items"; BeginMacro "Disconnect items"; EndMacro;
                 Push (RemoveItemsCmd []); EndMacro]).
Proof.
  intros Hv.
  destruct (deleteItems_undo_facts _items s Hv) as (s' & dcalls & Hd & Hu & _ & Hin & _).
  assert (Hc : exists clip, copyItems _items s clipboard = Some clip
                            /\ (_items = [] -> clip = clipboard)).
  { unfold copyItems. destruct _items as [|p l].
    - exists clipboard. now split.
    - destruct (derefAll_valid (p :: l) s Hv) as (resolved & -> & _).
      eexists. split; [reflexivity | discriminate]. }
  destruct Hc as (clip & Hc & Hnil).
  exists clip, s'. split; [unfold cutItems; now rewrite Hc, Hd|].
  split; [exact Hc|]. split; [exact Hd|]. split; [exact Hin|].
  intros ->. split; [now apply Hnil|].
  unfold deleteItems, disconnectItems, push, redo in Hd. simpl in Hd.
  injection Hd as <-. simpl. rewrite <- !app_assoc. reflexivity.
Qed.

End ClipboardOperations.

Module ClipboardWitnesses.

Import Sample.

(** A stand-in for [saveData]: a component is written as an element
    "component" with its label prefix. *)
Definition save (it : QucsItem) : list XmlToken :=
  match body it with
  | Component prefix _ _ =>
      [StartElement "component" [("name"%string, prefix)]; EndElement "component"]
  | Wire _ _ => [StartElement "wire" []; EndElement "wire"]
  | Painting name => [StartElement "painting" [("name"%string, name)]; EndElement "painting"]
  | Graphics => []
  end.

(** X18 at work: a comment and an element "svg" before the root. *)
Lemma paste_skips_to_the_root_element_witness :
  paste ([StartDocument; Comment; StartElement "svg" []; EndElement "svg"]
           ++ StartElement "qucs" [("version", "0.1.0")]%string
           :: [StartElement "wire" []; EndElement "wire"; EndElement "qucs"; EndDocument])
        emptyScene
  = insertRead (StartElement "qucs" [("version", "0.1.0")]%string)
               [StartElement "wire" []; EndElement "wire"; EndElement "qucs"; EndDocument]
               emptyScene.
Proof.
  apply paste_skips_to_the_root_element.
  - repeat constructor.
  - reflexivity.
Defined.

(** X19 at work: a resistor copied and pasted into the empty scene. *)
Lemma copyItems_then_paste_reaches_insertion_witness :
  exists clip s',
    copyItems save "0.1.0" [1%nat] MacroWitnesses.oneResistor [] = Some clip
    /\ paste clip emptyScene = Some s'
    /\ m_insertibles s' = [1%nat].
Proof.
  destruct (copyItems_then_paste_reaches_insertion
              save "0.1.0" [1%nat] MacroWitnesses.oneResistor emptyScene [])
    as [_ H].
  - repeat constructor. vm_compute. discriminate.
  - reflexivity.
  - destruct H as (resolved & Hr & _ & Hc & Hp); [discriminate|].
    eexists _, _. split; [exact Hc|]. split.
    + rewrite Hp. vm_compute in Hr. injection Hr as <-. vm_compute. reflexivity.
    + reflexivity.
Defined.

(** X20 at work: the resistor cut, with the undo option. *)
Lemma cutItems_copies_then_deletes_witness :
  exists clip s',
    cutItems save "0.1.0" [1%nat] PushUndoCmd MacroWitnesses.oneResistor []
    = Some (clip, s')
    /\ Heap.lookup 1%nat (items s')
       = Some (set_onScene false (component "R" "R1" 0 0 false)).
Proof.
  destruct (cutItems_copies_then_deletes save "0.1.0" [1%nat] MacroWitnesses.oneResistor [])
    as (clip & s' & Hc & _ & _ & Hin & _).
  - repeat constructor. vm_compute. discriminate.
  - exists clip, s'. split; [exact Hc|].
    apply Hin; [now left | vm_compute; reflexivity].
Defined.

End ClipboardWitnesses.

(** ** Distributing any number of items *)

Section DistributeProperties.

Context {C : Collaborators}.

Import Undo UndoFacts.





End DistributeProperties.

Module DistributeWitnesses.

Import Sample.





End DistributeWitnesses.

(** ** Placing the items that are being inserted: [insertingItemsEvent] *)

Section InsertingOperations.

Context {C : Collaborators}.

(** [QucsItem::copy(0)] of the item classes, which are not among the
    sources: the copy of an item; it is on no scene. *)
Variable copyOf : QucsItem -> QucsItem.



(** *** Moving *)



End InsertingOperations.

Module InsertingWitnesses.

Import Sample WiringSamples.



End InsertingWitnesses.

Section InsertingPress.

Context {C : Collaborators}.

Variable copyOf : QucsItem -> QucsItem.

Import Undo UndoFacts.









End InsertingPress.

Module InsertingPressWitnesses.

Import Sample WiringSamples.



End InsertingPressWitnesses.

(** ** The sidebar: [sidebarItemClickedNormalItems] *)

Section SidebarOperations.

Context {C : Collaborators}.

(** [Painting::fromName] and [LibraryLoader::newComponent], which are
    not among the sources: the new item for a name, on no scene, and
    none when the name is not known. *)
Variable Painting_fromName : string -> option QucsItem.
Variable newComponent : string -> string -> option QucsItem.














End SidebarOperations.

Module SidebarWitnesses.

Import Sample WiringSamples.




End SidebarWitnesses.

(** ** Aligning: [alignElements] *)

Section AlignProperties.

Context {C : Collaborators}.

Import Undo UndoFacts.



End AlignProperties.

Module AlignWitnesses.

Import Sample.



End AlignWitnesses.
